(** * GoCacheX: the memory store, the shard router and the cache facade

    A shallow embedding of the memory backend of package [backends], of
    package [sharding], of the validation of package [config], and of
    [cache.go] and [cache_helpers.go], with the properties the design
    document states about them and further laws read off the code.

    Conventions.
    - Go's [int64] and [int] (64 bits) are integers of [Z] with the
      wrap-around written at every arithmetic operation; a [uint32] hash is
      an integer of [Z] below [2 ^ 32].
    - [[]byte] values and Go strings are [string]s: sequences of 8-bit
      characters, [String.length] being Go's [len].
    - A Go [map] is a [gmap]; the order in which [range] visits a map, which
      Go leaves unspecified, is an input of every operation ([order] of
      [Env]).
    - [time.Now()] is an input of every operation ([now] of [Env]); a method
      reads the clock once.
    - A method that mutates its receiver returns the new receiver next to
      its result; an [error] is an [option string], the message, with [None]
      for [nil].
    - The read-write lock of the store and the atomic counter updates have no
      counterpart: an operation is one atomic step. The goroutine of the
      store is a function of its own, [cleanup], on the store it shares.
    - A [float64] is a float of the standard library's specification of
      IEEE 754 binary64. *)

From Stdlib Require Import ZArith String Ascii List Bool Lia.
From Stdlib Require Import DecimalString DecimalZ.
From Stdlib Require SpecFloat.
From stdpp Require Import base option list gmap strings fin_maps sorting.

Local Open Scope string_scope.
Local Open Scope list_scope.
Local Open Scope Z_scope.

(** ** The Go runtime and standard library, as far as the code uses them *)

Module Go.

Definition int64_min : Z := - 2 ^ 63.
Definition int64_max : Z := 2 ^ 63 - 1.

(** Two's complement wrap-around of a mathematical integer into [int64]. *)
Definition int64 (z : Z) : Z := (z + 2 ^ 63) mod 2 ^ 64 - 2 ^ 63.

(** [time.Time] as nanoseconds since the zero instant; [time.Duration] as
    nanoseconds. *)
Definition Time := Z.
Definition Duration := Z.

Definition IsZero (t : Time) : bool := t =? 0.
Definition After (t u : Time) : bool := u <? t.
Definition Before (t u : Time) : bool := t <? u.
Definition Add (t : Time) (d : Duration) : Time := t + d.

Definition Second : Duration := 1000000000.
Definition Minute : Duration := 60 * Second.

(** [t.Sub(u)], which [time.Since(u)] is at the instant [t]: the difference,
    or the largest or the least [Duration] when it does not fit one. *)
Definition Sub (t u : Time) : Duration :=
  Z.max int64_min (Z.min int64_max (t - u)).

(** [time.NewTicker(d)]: a run-time panic ([None]) when [d] is not
    positive. *)
Definition NewTicker (d : Duration) : option Duration :=
  if 0 <? d then Some d else None.

(** Go's [float64] is IEEE 754 binary64: the floats of the standard
    library's specification, with a mantissa of 53 bits and the exponent
    1024 for the infinities, rounded to the nearest, to the even one on a
    tie. [float64(n)] converts an integer, with that rounding. *)
Definition float64_t : Type := SpecFloat.spec_float.

Definition float64 (n : Z) : float64_t := SpecFloat.binary_normalize 53 1024 n 0 false.

Definition float64_add : float64_t -> float64_t -> float64_t := SpecFloat.SFadd 53 1024.
Definition float64_div : float64_t -> float64_t -> float64_t := SpecFloat.SFdiv 53 1024.

(** [int64(f)] for a [float64] in the range of [int64]: the fraction is
    dropped. *)
Definition int64_of_float64 (f : float64_t) : Z :=
  match f with
  | SpecFloat.S754_finite sign m e =>
      let magnitude := if 0 <=? e then Z.pos m * 2 ^ e else Z.pos m / 2 ^ (- e) in
      if sign then - magnitude else magnitude
  | _ => 0
  end.

(** [d.Seconds()]: [float64(d / Second) + float64(d % Second) / 1e9]. *)
Definition Seconds (d : Duration) : float64_t :=
  float64_add (float64 (Z.quot d Second))
    (float64_div (float64 (Z.rem d Second)) (float64 1000000000)).

(** [len] of a string or of a byte slice, as an [int]. *)
Definition len (s : string) : Z := Z.of_nat (String.length s).

(** [fmt.Sprintf("%d", n)]. *)
Definition Sprintf_d (n : Z) : string := NilZero.string_of_int (Z.to_int n).

(** *** [encoding/json]: [json.Unmarshal(data, &current)] for an [int64]
    target that holds zero.

    The decoder accepts one JSON value surrounded by optional white space.
    An integer literal in the [int64] range is stored; the literal [null]
    is accepted and leaves the target as it is; everything else (numbers
    with a fraction or exponent, numbers out of range, strings, booleans,
    arrays, objects, malformed input) is an error. *)

Definition is_json_space (c : ascii) : bool :=
  let n := N_of_ascii c in
  (n =? 32)%N || (n =? 9)%N || (n =? 10)%N || (n =? 13)%N.

Definition is_digit (c : ascii) : bool :=
  let n := N_of_ascii c in (48 <=? n)%N && (n <=? 57)%N.

Fixpoint trim_left (s : string) : string :=
  match s with
  | String c r => if is_json_space c then trim_left r else s
  | EmptyString => EmptyString
  end.

Fixpoint trim_right (s : string) : string :=
  match s with
  | String c r =>
      match trim_right r with
      | EmptyString => if is_json_space c then EmptyString else String c EmptyString
      | r' => String c r'
      end
  | EmptyString => EmptyString
  end.

Definition trim (s : string) : string := trim_right (trim_left s).

Fixpoint all_digits (s : string) : bool :=
  match s with
  | String c r => is_digit c && all_digits r
  | EmptyString => true
  end.

(** The JSON grammar of an integer: an optional minus sign, then either
    a single zero or a non-zero digit followed by digits. *)
Definition json_int_literal (s : string) : bool :=
  let body := match s with
              | String c r => if Ascii.eqb c "-" then r else s
              | EmptyString => s
              end in
  match body with
  | EmptyString => false
  | String c r =>
      if Ascii.eqb c "0" then String.eqb r "" else is_digit c && all_digits r
  end.

Definition json_Unmarshal_int64 (data : string) : option Z :=
  let lit := trim data in
  if String.eqb lit "null" then Some 0
  else if json_int_literal lit then
    match NilZero.int_of_string lit with
    | Some d =>
        let n := Z.of_int d in
        if (int64_min <=? n) && (n <=? int64_max) then Some n else None
    | None => None
    end
  else None.

(** *** [hash/crc32]: [crc32.ChecksumIEEE], the reflected CRC-32 with
    polynomial [0xEDB88320]. *)

Definition crc32_poly : Z := 3988292384.

Definition crc32_shift (crc : Z) : Z :=
  if Z.testbit crc 0
  then Z.lxor (Z.shiftr crc 1) crc32_poly
  else Z.shiftr crc 1.

Definition crc32_byte (crc : Z) (b : ascii) : Z :=
  let x := Z.lxor crc (Z.of_N (N_of_ascii b)) in
  crc32_shift (crc32_shift (crc32_shift (crc32_shift
    (crc32_shift (crc32_shift (crc32_shift (crc32_shift x))))))).

Fixpoint crc32_update (crc : Z) (s : string) : Z :=
  match s with
  | String b r => crc32_update (crc32_byte crc b) r
  | EmptyString => crc
  end.

Definition ChecksumIEEE (s : string) : Z :=
  Z.lxor (crc32_update 4294967295 s) 4294967295.

(** *** [sort]: [sort.Search] is the library's binary search, [sort.Slice]
    on a slice of integers ordered by [<] gives the sorted slice (the
    library's sort is not stable, which cannot be seen on bare integers). *)

Fixpoint search_loop (fuel : nat) (f : nat -> bool) (i j : nat) : nat :=
  match fuel with
  | O => i
  | S fuel' =>
      if (i <? j)%nat then
        let h := ((i + j) / 2)%nat in
        if negb (f h) then search_loop fuel' f (h + 1)%nat j
        else search_loop fuel' f i h
      else i
  end.

Definition sort_Search (n : nat) (f : nat -> bool) : nat :=
  search_loop n f 0%nat n.

Definition sort_Slice (l : list Z) : list Z := merge_sort Z.le l.

(** *** Strings as text: [for _, char := range s] walks the runes of [s],
    decoded from UTF-8 as [utf8.DecodeRuneInString] does; a byte that starts
    no valid encoding counts as the rune [U+FFFD] and is one byte wide. *)

Definition RuneError : Z := 65533.

Definition byte_val (c : ascii) : Z := Z.of_N (N_of_ascii c).

(** The range accepted for the second byte after the lead byte [s0]. *)
Definition accept_lo (s0 : Z) : Z :=
  if s0 =? 224 then 160 else if s0 =? 240 then 144 else 128.
Definition accept_hi (s0 : Z) : Z :=
  if s0 =? 237 then 159 else if s0 =? 244 then 143 else 191.

(** A continuation byte. *)
Definition is_cont (x : Z) : bool := (128 <=? x) && (x <=? 191).

Fixpoint runes (s : string) : list Z :=
  match s with
  | EmptyString => []
  | String c0 r0 =>
      let s0 := byte_val c0 in
      let invalid := RuneError :: runes r0 in
      if s0 <? 128 then s0 :: runes r0
      else if negb ((194 <=? s0) && (s0 <=? 244)) then invalid
      else
        match r0 with
        | EmptyString => invalid
        | String c1 r1 =>
            let s1 := byte_val c1 in
            if (s1 <? accept_lo s0) || (accept_hi s0 <? s1) then invalid
            else if s0 <? 224
            then Z.lor (Z.shiftl (Z.land s0 31) 6) (Z.land s1 63) :: runes r1
            else
              match r1 with
              | EmptyString => invalid
              | String c2 r2 =>
                  let s2 := byte_val c2 in
                  if negb (is_cont s2) then invalid
                  else if s0 <? 240
                  then Z.lor (Z.shiftl (Z.land s0 15) 12)
                         (Z.lor (Z.shiftl (Z.land s1 63) 6) (Z.land s2 63)) :: runes r2
                  else
                    match r2 with
                    | EmptyString => invalid
                    | String c3 r3 =>
                        let s3 := byte_val c3 in
                        if negb (is_cont s3) then invalid
                        else Z.lor (Z.shiftl (Z.land s0 7) 18)
                               (Z.lor (Z.shiftl (Z.land s1 63) 12)
                                  (Z.lor (Z.shiftl (Z.land s2 63) 6) (Z.land s3 63)))
                             :: runes r3
                    end
              end
        end
  end.

(** *** [crypto/md5]: [md5.Sum], the MD5 digest of RFC 1321, as its sixteen
    bytes. *)

Definition u32 (z : Z) : Z := z mod 2 ^ 32.

Definition rotl32 (x c : Z) : Z :=
  u32 (Z.lor (Z.shiftl x c) (Z.shiftr x (32 - c))).

Definition md5_shifts : list Z :=
  [7; 12; 17; 22; 7; 12; 17; 22; 7; 12; 17; 22; 7; 12; 17; 22;
   5; 9; 14; 20; 5; 9; 14; 20; 5; 9; 14; 20; 5; 9; 14; 20;
   4; 11; 16; 23; 4; 11; 16; 23; 4; 11; 16; 23; 4; 11; 16; 23;
   6; 10; 15; 21; 6; 10; 15; 21; 6; 10; 15; 21; 6; 10; 15; 21].

Definition md5_sines : list Z :=
  [3614090360; 3905402710; 606105819; 3250441966; 4118548399; 1200080426;
   2821735955; 4249261313; 1770035416; 2336552879; 4294925233; 2304563134;
   1804603682; 4254626195; 2792965006; 1236535329; 4129170786; 3225465664;
   643717713; 3921069994; 3593408605; 38016083; 3634488961; 3889429448;
   568446438; 3275163606; 4107603335; 1163531501; 2850285829; 4243563512;
   1735328473; 2368359562; 4294588738; 2272392833; 1839030562; 4259657740;
   2763975236; 1272893353; 4139469664; 3200236656; 681279174; 3936430074;
   3572445317; 76029189; 3654602809; 3873151461; 530742520; 3299628645;
   4096336452; 1126891415; 2878612391; 4237533241; 1700485571; 2399980690;
   4293915773; 2240044497; 1873313359; 4264355552; 2734768916; 1309151649;
   4149444226; 3174756917; 718787259; 3951481745].

(** The bytes of a string, and a 32-bit or 64-bit word as its bytes, least
    significant first. *)
Fixpoint bytes_of (s : string) : list Z :=
  match s with
  | String c r => byte_val c :: bytes_of r
  | EmptyString => []
  end.

Definition le_bytes (n : nat) (w : Z) : list Z :=
  (fun i => Z.land (Z.shiftr w (8 * Z.of_nat i)) 255) <$> seq 0 n.

Definition le_word (bs : list Z) : Z :=
  foldr (fun b acc => b + 256 * acc) 0 bs.

(** The message followed by the bit [1], zero bits up to 56 bytes modulo
    64, and its length in bits as 64 bits. *)
Definition md5_pad (msg : list Z) : list Z :=
  let n := Z.of_nat (length msg) in
  msg ++ [128] ++ replicate (Z.to_nat ((55 - n) mod 64)) 0
      ++ le_bytes 8 ((8 * n) mod 2 ^ 64).

Fixpoint md5_words (n : nat) (bs : list Z) : list Z :=
  match n with
  | O => []
  | S n' => le_word (take 4 bs) :: md5_words n' (drop 4 bs)
  end.

(** One of the 64 steps of a block, on the state [(a, b, c, d)]. *)
Definition md5_step (M : list Z) (st : Z * Z * Z * Z) (i : nat) : Z * Z * Z * Z :=
  let '(a, b, c, d) := st in
  let not32 x := Z.lxor x 4294967295 in
  let '(f, g) :=
    if (i <? 16)%nat then (Z.lor (Z.land b c) (Z.land (not32 b) d), i)
    else if (i <? 32)%nat
    then (Z.lor (Z.land d b) (Z.land (not32 d) c), ((5 * i + 1) mod 16)%nat)
    else if (i <? 48)%nat then (Z.lxor b (Z.lxor c d), ((3 * i + 5) mod 16)%nat)
    else (Z.lxor c (Z.lor b (not32 d)), ((7 * i) mod 16)%nat) in
  let f' := u32 (f + a + nth i md5_sines 0 + nth g M 0) in
  (d, u32 (b + rotl32 f' (nth i md5_shifts 0)), b, c).

Definition md5_block (st : Z * Z * Z * Z) (M : list Z) : Z * Z * Z * Z :=
  let '(a0, b0, c0, d0) := st in
  let '(a, b, c, d) := fold_left (md5_step M) (seq 0 64) st in
  (u32 (a0 + a), u32 (b0 + b), u32 (c0 + c), u32 (d0 + d)).

Fixpoint md5_blocks (n : nat) (st : Z * Z * Z * Z) (bs : list Z) : Z * Z * Z * Z :=
  match n with
  | O => st
  | S n' => md5_blocks n' (md5_block st (md5_words 16 (take 64 bs))) (drop 64 bs)
  end.

Definition md5_Sum (data : string) : list Z :=
  let bs := md5_pad (bytes_of data) in
  let '(a, b, c, d) :=
    md5_blocks (length bs / 64) (1732584193, 4023233417, 2562383102, 271733878) bs in
  le_bytes 4 a ++ le_bytes 4 b ++ le_bytes 4 c ++ le_bytes 4 d.

End Go.

(** A value or an error: the pair [(T, error)] a Go function returns. *)
Inductive result (A : Type) : Type :=
  | Ok (a : A)
  | Err (e : string).
Arguments Ok {A} a.
Arguments Err {A} e.

Definition is_err {A} (r : result A) : bool :=
  match r with
  | Ok _ => false
  | Err _ => true
  end.

(** What an operation reads from the world: the clock, and the order in which
    [range] walks a map. *)
Record Env : Type := mkEnv { now : Go.Time; order : list string }.

(** ** The memory store: [MemoryBackend] of package [backends] *)

Module Memory.
Import Go.

Record memoryItem : Type := mkItem {
  value : string;
  expireTime : Time;
  accessTime : Time;
  accessCount : Z
}.

Record memoryStats : Type := mkStats {
  hits : Z;
  misses : Z;
  sets : Z;
  deletes : Z;
  evictions : Z;
  startTime : Time
}.

Record MemoryConfig : Type := mkConfig {
  MaxSize : string;
  MaxKeys : Z;
  EvictionPolicy : string;
  DefaultTTL : Duration;
  CleanupInterval : Duration
}.

(** [stopCleanup] is a channel in the code; the model keeps whether it has
    been closed. The lock [mu] has no counterpart: operations are atomic
    steps here. *)
Record MemoryBackend : Type := mkBackend {
  data : gmap string memoryItem;
  stats : memoryStats;
  config : MemoryConfig;
  stopCleanup : bool;
  maxSize : Z;
  currentSize : Z
}.

(** The [Stats] snapshot of [backend.go]. *)
Record Stats : Type := mkSnapshot {
  Hits : Z;
  Misses : Z;
  Sets : Z;
  Deletes : Z;
  Evictions : Z;
  KeyCount : Z;
  MemoryUsage : Z;
  Uptime : Z
}.

Definition set_data (d : gmap string memoryItem) (m : MemoryBackend) :=
  mkBackend d (stats m) (config m) (stopCleanup m) (maxSize m) (currentSize m).
Definition set_stats (s : memoryStats) (m : MemoryBackend) :=
  mkBackend (data m) s (config m) (stopCleanup m) (maxSize m) (currentSize m).
Definition set_currentSize (n : Z) (m : MemoryBackend) :=
  mkBackend (data m) (stats m) (config m) (stopCleanup m) (maxSize m) n.

(** [atomic.AddInt64(&m.stats.X, 1)] for each counter. *)
Definition add_hit (s : memoryStats) :=
  mkStats (int64 (hits s + 1)) (misses s) (sets s) (deletes s) (evictions s) (startTime s).
Definition add_miss (s : memoryStats) :=
  mkStats (hits s) (int64 (misses s + 1)) (sets s) (deletes s) (evictions s) (startTime s).
Definition add_set (s : memoryStats) :=
  mkStats (hits s) (misses s) (int64 (sets s + 1)) (deletes s) (evictions s) (startTime s).
Definition add_delete (s : memoryStats) :=
  mkStats (hits s) (misses s) (sets s) (int64 (deletes s + 1)) (evictions s) (startTime s).
Definition add_eviction (s : memoryStats) :=
  mkStats (hits s) (misses s) (sets s) (deletes s) (int64 (evictions s + 1)) (startTime s).

(** [for key, item := range m.data]: the entries of the map in the order
    the environment chooses. *)
Definition range {A} (e : Env) (d : gmap string A) : list (string * A) :=
  omap (fun k => (fun it => (k, it)) <$> d !! k) (order e).

(** The environment's order is one Go can produce on [d]: it visits every
    key of [d], and none twice. *)
Definition order_covers {A} (e : Env) (d : gmap string A) : Prop :=
  NoDup (order e) /\ forall k, is_Some (d !! k) -> k ∈ order e.

(** *** [parseSize] and [parseInt] *)

Fixpoint parseInt_loop (result : Z) (s : string) : Z :=
  match s with
  | String char r =>
      if is_digit char
      then parseInt_loop (int64 (int64 (result * 10) + (Z.of_N (N_of_ascii char) - 48))) r
      else result
  | EmptyString => result
  end.

Definition parseInt (s : string) : Z := parseInt_loop 0 s.

Definition size_suffix (s : string) : string :=
  substring (String.length s - 2) 2 s.
Definition size_prefix (s : string) : string :=
  substring 0 (String.length s - 2) s.

Definition parseSize (sizeStr : string) : result Z :=
  if String.eqb sizeStr "" then Ok 0
  else if (2 <? len sizeStr) && String.eqb (size_suffix sizeStr) "KB"
  then Ok (int64 (parseInt (size_prefix sizeStr) * 1024))
  else if (2 <? len sizeStr) && String.eqb (size_suffix sizeStr) "MB"
  then Ok (int64 (int64 (parseInt (size_prefix sizeStr) * 1024) * 1024))
  else if (2 <? len sizeStr) && String.eqb (size_suffix sizeStr) "GB"
  then Ok (int64 (int64 (int64 (parseInt (size_prefix sizeStr) * 1024) * 1024) * 1024))
  else Ok (parseInt sizeStr).

(** *** [NewMemoryBackend] *)

(** The call returns the store. Its [go backend.cleanup()] starts the
    goroutine [cleanup], modelled below, on that store and does not wait
    for it: a panic of the goroutine ends the process after the call has
    returned. *)
Definition NewMemoryBackend (e : Env) (cfg : MemoryConfig) : result MemoryBackend :=
  match parseSize (MaxSize cfg) with
  | Err err => Err ("invalid max size: " ++ err)%string
  | Ok maxSize =>
      Ok {| data := ∅;
            stats := mkStats 0 0 0 0 0 (now e);
            config := cfg;
            stopCleanup := false;
            maxSize := maxSize;
            currentSize := 0 |}
  end.

(** *** Eviction *)

(** The body of the loop of [evictLRU], on the pair
    [(oldestKey, oldestTime)]. *)
Definition lru_step (acc : string * Time) (kv : string * memoryItem) : string * Time :=
  let '(oldestKey, oldestTime) := acc in
  let '(key, item) := kv in
  if String.eqb oldestKey "" || Before (accessTime item) oldestTime
  then (key, accessTime item)
  else (oldestKey, oldestTime).

(** The common tail of the three policies: account for the value's size,
    delete the key, count one eviction. In the code the key is always in
    the map at this point (it comes out of a [range] over the map); the
    model leaves the store as it is for a key that is not, where the code
    would dereference a nil item. *)
Definition evict_key (k : string) (m : MemoryBackend) : MemoryBackend :=
  match data m !! k with
  | Some item =>
      set_stats (add_eviction (stats m))
        (set_data (delete k (data m))
           (set_currentSize (int64 (currentSize m - len (value item))) m))
  | None => m
  end.

Definition evictLRU (e : Env) (m : MemoryBackend) : MemoryBackend :=
  let '(oldestKey, _) := fold_left lru_step (range e (data m)) ("", 0) in
  if negb (String.eqb oldestKey "") then evict_key oldestKey m else m.

(** The body of the loop of [evictLFU], on [(targetKey, minAccess)]. *)
Definition lfu_step (acc : string * Z) (kv : string * memoryItem) : string * Z :=
  let '(targetKey, minAccess) := acc in
  let '(key, item) := kv in
  if (minAccess =? -1) || (accessCount item <? minAccess)
  then (key, accessCount item)
  else (targetKey, minAccess).

Definition evictLFU (e : Env) (m : MemoryBackend) : MemoryBackend :=
  let '(targetKey, _) := fold_left lfu_step (range e (data m)) ("", -1) in
  if negb (String.eqb targetKey "") then evict_key targetKey m else m.

Definition evictRandom (e : Env) (m : MemoryBackend) : MemoryBackend :=
  match range e (data m) with
  | (key, _) :: _ => evict_key key m
  | [] => m
  end.

(** [sizeToFree] is not used by the body. *)
Definition evictItems (e : Env) (sizeToFree : Z) (m : MemoryBackend) : MemoryBackend :=
  if String.eqb (EvictionPolicy (config m)) "lru" then evictLRU e m
  else if String.eqb (EvictionPolicy (config m)) "lfu" then evictLFU e m
  else if String.eqb (EvictionPolicy (config m)) "random" then evictRandom e m
  else evictLRU e m.

(** *** The operations of the [Backend] interface *)

Definition expired (e : Env) (item : memoryItem) : bool :=
  negb (IsZero (expireTime item)) && After (now e) (expireTime item).

Definition Get (e : Env) (key : string) (m : MemoryBackend)
  : MemoryBackend * result string :=
  match data m !! key with
  | None => (set_stats (add_miss (stats m)) m, Err "key not found")
  | Some item =>
      if expired e item
      then (set_stats (add_miss (stats m)) (set_data (delete key (data m)) m),
            Err "key expired")
      else
        let item' := mkItem (value item) (expireTime item) (now e)
                            (int64 (accessCount item + 1)) in
        (set_stats (add_hit (stats m)) (set_data (<[key := item']> (data m)) m),
         Ok (value item))
  end.

Definition Set_ (e : Env) (key value : string) (ttl : Duration) (m : MemoryBackend)
  : MemoryBackend * option string :=
  let expireTime :=
    if 0 <? ttl then Add (now e) ttl
    else if 0 <? DefaultTTL (config m) then Add (now e) (DefaultTTL (config m))
    else 0 in
  let item := mkItem value expireTime (now e) 0 in
  let newSize := int64 (currentSize m + len value) in
  let m1 := if (0 <? maxSize m) && (maxSize m <? newSize)
            then evictItems e (int64 (newSize - maxSize m)) m else m in
  let m2 := if (0 <? MaxKeys (config m1))
               && (MaxKeys (config m1) <=? Z.of_nat (size (data m1)))
            then evictLRU e m1 else m1 in
  let m3 := match data m2 !! key with
            | Some oldItem =>
                set_currentSize (int64 (currentSize m2 - len (Memory.value oldItem))) m2
            | None => m2
            end in
  let m4 := set_currentSize (int64 (currentSize m3 + len value)) m3 in
  (set_stats (add_set (stats m4)) (set_data (<[key := item]> (data m4)) m4), None).

Definition Delete (e : Env) (key : string) (m : MemoryBackend)
  : MemoryBackend * option string :=
  match data m !! key with
  | Some item =>
      (set_stats (add_delete (stats m))
         (set_data (delete key (data m))
            (set_currentSize (int64 (currentSize m - len (value item))) m)),
       None)
  | None => (m, None)
  end.

Definition Exists (e : Env) (key : string) (m : MemoryBackend)
  : MemoryBackend * result bool :=
  match data m !! key with
  | None => (m, Ok false)
  | Some item =>
      if expired e item
      then (set_data (delete key (data m)) m, Ok false)
      else (m, Ok true)
  end.

Definition Increment (e : Env) (key : string) (delta : Z) (m : MemoryBackend)
  : MemoryBackend * result Z :=
  match data m !! key with
  | None =>
      let value := Sprintf_d delta in
      (set_data (<[key := mkItem value 0 (now e) 0]> (data m)) m, Ok delta)
  | Some item =>
      match json_Unmarshal_int64 (value item) with
      | None => (m, Err "value is not a number")
      | Some current =>
          let newValue := int64 (current + delta) in
          let item' := mkItem (Sprintf_d newValue) (expireTime item) (now e)
                              (accessCount item) in
          (set_data (<[key := item']> (data m)) m, Ok newValue)
      end
  end.

Definition Decrement (e : Env) (key : string) (delta : Z) (m : MemoryBackend)
  : MemoryBackend * result Z :=
  Increment e key (int64 (- delta)) m.

Definition Expire (e : Env) (key : string) (ttl : Duration) (m : MemoryBackend)
  : MemoryBackend * option string :=
  match data m !! key with
  | None => (m, Some "key not found")
  | Some item =>
      let t := if 0 <? ttl then Add (now e) ttl else 0 in
      let item' := mkItem (value item) t (accessTime item) (accessCount item) in
      (set_data (<[key := item']> (data m)) m, None)
  end.

Definition TTL (e : Env) (key : string) (m : MemoryBackend)
  : MemoryBackend * result Duration :=
  match data m !! key with
  | None => (m, Err "key not found")
  | Some item =>
      if IsZero (expireTime item) then (m, Ok (-1))
      else
        let remaining := expireTime item - now e in
        if remaining <? 0 then (m, Ok 0) else (m, Ok remaining)
  end.

Definition Clear (e : Env) (m : MemoryBackend) : MemoryBackend * option string :=
  (set_currentSize 0 (set_data ∅ m), None).

(** [Uptime] is [int64(time.Since(m.stats.startTime).Seconds())]. *)
Definition Stats_ (e : Env) (m : MemoryBackend) : MemoryBackend * result Stats :=
  (m, Ok {| Hits := hits (stats m);
            Misses := misses (stats m);
            Sets := sets (stats m);
            Deletes := deletes (stats m);
            Evictions := evictions (stats m);
            KeyCount := Z.of_nat (size (data m));
            MemoryUsage := currentSize m;
            Uptime := int64_of_float64 (Seconds (Sub (now e) (startTime (stats m)))) |}).

Definition Health (e : Env) (m : MemoryBackend) : MemoryBackend * option string :=
  (m, None).

(** [close(m.stopCleanup)]; closing the channel a second time is a
    run-time panic in Go, which the model does not follow. *)
Definition Close (m : MemoryBackend) : MemoryBackend * option string :=
  (mkBackend (data m) (stats m) (config m) true (maxSize m) (currentSize m), None).

(** *** The batch operations *)

Definition GetMulti (e : Env) (keys : list string) (m : MemoryBackend)
  : MemoryBackend * result (gmap string string) :=
  let '(m', result) :=
    fold_left (fun (acc : MemoryBackend * gmap string string) key =>
                 match Get e key (fst acc) with
                 | (m1, Ok value) => (m1, <[key := value]> (snd acc))
                 | (m1, Err _) => (m1, snd acc)
                 end) keys (m, ∅) in
  (m', Ok result).

Fixpoint SetMulti_loop (e : Env) (items : list (string * string)) (ttl : Duration)
    (m : MemoryBackend) : MemoryBackend * option string :=
  match items with
  | [] => (m, None)
  | (key, value) :: rest =>
      match Set_ e key value ttl m with
      | (m1, Some err) => (m1, Some err)
      | (m1, None) => SetMulti_loop e rest ttl m1
      end
  end.

Definition SetMulti (e : Env) (items : gmap string string) (ttl : Duration)
    (m : MemoryBackend) : MemoryBackend * option string :=
  SetMulti_loop e (range e items) ttl m.

Fixpoint DeleteMulti (e : Env) (keys : list string) (m : MemoryBackend)
  : MemoryBackend * option string :=
  match keys with
  | [] => (m, None)
  | key :: rest =>
      match Delete e key m with
      | (m1, Some err) => (m1, Some err)
      | (m1, None) => DeleteMulti e rest m1
      end
  end.

(** *** The expiry sweep: the body of the ticker loop of [cleanup] *)

Definition cleanup_step (e : Env) (m : MemoryBackend) (kv : string * memoryItem)
  : MemoryBackend :=
  let '(key, item) := kv in
  if expired e item
  then set_data (delete key (data m))
         (set_currentSize (int64 (currentSize m - len (value item))) m)
  else m.

Definition cleanupExpired (e : Env) (m : MemoryBackend) : MemoryBackend :=
  fold_left (cleanup_step e) (range e (data m)) m.

(** [cleanup], the goroutine that [NewMemoryBackend] starts. It makes its
    ticker from the cleanup interval, a run-time panic ([None]) that ends
    the process when the interval is not positive, and then sweeps at every
    tick it receives before it finds [stopCleanup] closed; [ticks] are the
    instants of those ticks, with the order of each walk over the table. *)
Definition cleanup (ticks : list Env) (m : MemoryBackend) : option MemoryBackend :=
  _ ← NewTicker (CleanupInterval (config m));
  Some (fold_left (fun m tick => cleanupExpired tick m) ticks m).

End Memory.

(** ** The shard router: package [sharding] *)

Module Sharding.
Import Go.

Record ShardingConfig : Type := mkShardingConfig {
  Enabled : bool;
  Algorithm : string;
  Replicas : Z;
  Shards : Z
}.

(** [c.shards[:index]] followed by [c.shards[index+1:]]. *)
Definition remove_at {A} (index : Z) (l : list A) : list A :=
  take (Z.to_nat index) l ++ drop (Z.to_nat index + 1) l.

(** [string(rune(r))]: the UTF-8 encoding of a code point, the replacement
    character for what is not one. *)
Definition byte_of (z : Z) : ascii := ascii_of_N (Z.to_N z).

Definition string_of_rune (r : Z) : string :=
  if (r <? 0) || (1114111 <? r) || ((55296 <=? r) && (r <=? 57343))
  then String (byte_of 239) (String (byte_of 191) (String (byte_of 189) ""))
  else if r <? 128 then String (byte_of r) ""
  else if r <? 2048
  then String (byte_of (Z.lor 192 (Z.shiftr r 6)))
         (String (byte_of (Z.lor 128 (Z.land r 63))) "")
  else if r <? 65536
  then String (byte_of (Z.lor 224 (Z.shiftr r 12)))
         (String (byte_of (Z.lor 128 (Z.land (Z.shiftr r 6) 63)))
            (String (byte_of (Z.lor 128 (Z.land r 63))) ""))
  else String (byte_of (Z.lor 240 (Z.shiftr r 18)))
         (String (byte_of (Z.lor 128 (Z.land (Z.shiftr r 12) 63)))
            (String (byte_of (Z.lor 128 (Z.land (Z.shiftr r 6) 63)))
               (String (byte_of (Z.lor 128 (Z.land r 63))) ""))).

(** [m[k]] on a [map[uint32]int]: the zero value for a missing key. *)
Definition ring_get (ring : gmap Z Z) (key : Z) : Z := default 0 (ring !! key).

(** *** [ConsistentHashSharder] *)

Module Consistent.
Section Backend.
Context {B : Type}.

Record ConsistentHashSharder : Type := mkSharder {
  shards : list B;
  replicas : Z;
  ring : gmap Z Z;
  keys : list Z
}.

Definition NewConsistentHashSharder (replicas : Z) : ConsistentHashSharder :=
  {| shards := []; replicas := replicas; ring := ∅; keys := [] |}.

Definition hashKey (key : string) : Z := ChecksumIEEE key.

(** [fmt.Sprintf("shard-%d-%d", shardIndex, i)]. *)
Definition node_label (shardIndex i : Z) : string :=
  ("shard-" ++ Sprintf_d shardIndex ++ "-" ++ Sprintf_d i)%string.

(** The body of the loop of [AddShard], on the pair [(c.ring, c.keys)]. *)
Definition add_node (shardIndex : Z) (acc : gmap Z Z * list Z) (i : Z)
  : gmap Z Z * list Z :=
  let key := hashKey (node_label shardIndex i) in
  (<[key := shardIndex]> (fst acc), snd acc ++ [key]).

Definition AddShard (backend : B) (c : ConsistentHashSharder)
  : ConsistentHashSharder * option string :=
  let shardIndex := Z.of_nat (length (shards c)) in
  let acc := fold_left (add_node shardIndex) (seqZ 0 (replicas c)) (ring c, keys c) in
  ({| shards := shards c ++ [backend];
      replicas := replicas c;
      ring := fst acc;
      keys := sort_Slice (snd acc) |}, None).

(** The body of the first loop of [RemoveShard], on [(newKeys, c.ring)]. *)
Definition drop_node (index : Z) (acc : list Z * gmap Z Z) (key : Z)
  : list Z * gmap Z Z :=
  if negb (ring_get (snd acc) key =? index)
  then (fst acc ++ [key], snd acc)
  else (fst acc, delete key (snd acc)).

(** The body of the second loop of [RemoveShard]. *)
Definition renumber (index shardIdx : Z) : Z :=
  if index <? shardIdx then shardIdx - 1 else shardIdx.

Definition RemoveShard (index : Z) (c : ConsistentHashSharder)
  : ConsistentHashSharder * option string :=
  if (index <? 0) || (Z.of_nat (length (shards c)) <=? index)
  then (c, Some ("invalid shard index: " ++ Sprintf_d index)%string)
  else
    let acc := fold_left (drop_node index) (keys c) ([], ring c) in
    ({| shards := remove_at index (shards c);
        replicas := replicas c;
        ring := renumber index <$> snd acc;
        keys := fst acc |}, None).

(** The position on the ring that serves [hash]: the search, then the wrap
    to the first node. *)
Definition ring_position (c : ConsistentHashSharder) (hash : Z) : nat :=
  let idx := sort_Search (length (keys c)) (fun i => hash <=? nth i (keys c) 0) in
  if (idx =? length (keys c))%nat then 0%nat else idx.

(** [GetShardIndex]; [None] is the run-time panic of [c.keys[idx]] on a ring
    without nodes. *)
Definition GetShardIndex (key : string) (c : ConsistentHashSharder) : option Z :=
  if (length (shards c) =? 0)%nat then Some (-1)
  else if (length (shards c) =? 1)%nat then Some 0
  else
    let hash := hashKey key in
    match keys c !! ring_position c hash with
    | Some node => Some (ring_get (ring c) node)
    | None => None
    end.

(** [GetShard]; the outer [None] is a run-time panic (an empty ring, or a
    shard index out of the slice), [Some None] is the [nil] backend. *)
Definition GetShard (key : string) (c : ConsistentHashSharder) : option (option B) :=
  if (length (shards c) =? 0)%nat then Some None
  else if (length (shards c) =? 1)%nat then Some (shards c !! 0%nat)
  else
    let hash := hashKey key in
    match keys c !! ring_position c hash with
    | Some node =>
        let shardIndex := ring_get (ring c) node in
        if shardIndex <? 0 then None
        else match shards c !! Z.to_nat shardIndex with
             | Some b => Some (Some b)
             | None => None
             end
    | None => None
    end.

Definition GetShards (c : ConsistentHashSharder) : list B := shards c.
Definition GetShardCount (c : ConsistentHashSharder) : Z := Z.of_nat (length (shards c)).

End Backend.
Arguments ConsistentHashSharder B : clear implicits.
End Consistent.

(** *** [HashSharder] *)

Module Hash.
Section Backend.
Context {B : Type}.

Record HashSharder : Type := mkSharder { shards : list B }.

Definition NewHashSharder : HashSharder := {| shards := [] |}.

Definition AddShard (backend : B) (h : HashSharder) : HashSharder * option string :=
  ({| shards := shards h ++ [backend] |}, None).

Definition RemoveShard (index : Z) (h : HashSharder) : HashSharder * option string :=
  if (index <? 0) || (Z.of_nat (length (shards h)) <=? index)
  then (h, Some ("invalid shard index: " ++ Sprintf_d index)%string)
  else ({| shards := remove_at index (shards h) |}, None).

(** The first four bytes of the MD5 digest, most significant first. *)
Definition hashKey (key : string) : Z :=
  let hash := md5_Sum key in
  Z.lor (Z.lor (Z.lor (Z.shiftl (nth 0 hash 0) 24) (Z.shiftl (nth 1 hash 0) 16))
           (Z.shiftl (nth 2 hash 0) 8))
    (nth 3 hash 0).

(** [GetShard]; the outer [None] is a run-time panic (an index out of the
    slice), [Some None] is the [nil] backend. *)
Definition GetShard (key : string) (h : HashSharder) : option (option B) :=
  if (length (shards h) =? 0)%nat then Some None
  else
    let hash := hashKey key in
    let index := Z.rem hash (Z.of_nat (length (shards h))) in
    if index <? 0 then None
    else match shards h !! Z.to_nat index with
         | Some b => Some (Some b)
         | None => None
         end.

Definition GetShardIndex (key : string) (h : HashSharder) : Z :=
  if (length (shards h) =? 0)%nat then -1
  else
    let hash := hashKey key in
    Z.rem hash (Z.of_nat (length (shards h))).

Definition GetShards (h : HashSharder) : list B := shards h.
Definition GetShardCount (h : HashSharder) : Z := Z.of_nat (length (shards h)).

End Backend.
Arguments HashSharder B : clear implicits.
End Hash.

(** *** [RangeSharder] *)

Module Range.
Section Backend.
Context {B : Type}.

Record RangeSharder : Type := mkSharder { shards : list B; ranges : list string }.

Definition NewRangeSharder : RangeSharder := {| shards := []; ranges := [] |}.

Definition AddShard (backend : B) (r : RangeSharder) : RangeSharder * option string :=
  let shards' := shards r ++ [backend] in
  ({| shards := shards';
      ranges := ranges r ++ [string_of_rune (97 + Z.of_nat (length shards') - 1)] |},
   None).

Definition RemoveShard (index : Z) (r : RangeSharder) : RangeSharder * option string :=
  if (index <? 0) || (Z.of_nat (length (shards r)) <=? index)
  then (r, Some ("invalid shard index: " ++ Sprintf_d index)%string)
  else ({| shards := remove_at index (shards r);
           ranges := remove_at index (ranges r) |}, None).

Definition first_byte (s : string) : N :=
  match s with
  | String c _ => N_of_ascii c
  | EmptyString => 0%N
  end.

Fixpoint find_range (firstChar : N) (i : Z) (ranges : list string) : option Z :=
  match ranges with
  | [] => None
  | boundary :: rest =>
      if (firstChar <=? first_byte boundary)%N then Some i
      else find_range firstChar (i + 1) rest
  end.

Definition GetShardIndex (key : string) (r : RangeSharder) : Z :=
  if (length (shards r) =? 0)%nat then -1
  else if len key =? 0 then 0
  else match find_range (first_byte key) 0 (ranges r) with
       | Some i => i
       | None => Z.of_nat (length (shards r)) - 1
       end.

(** [GetShard]; the outer [None] is a run-time panic (an index out of the
    slice), [Some None] is the [nil] backend. *)
Definition GetShard (key : string) (r : RangeSharder) : option (option B) :=
  if (length (shards r) =? 0)%nat then Some None
  else
    let index := GetShardIndex key r in
    if index <? 0
    then match shards r !! 0%nat with
         | Some b => Some (Some b)
         | None => None
         end
    else match shards r !! Z.to_nat index with
         | Some b => Some (Some b)
         | None => None
         end.

Definition GetShards (r : RangeSharder) : list B := shards r.
Definition GetShardCount (r : RangeSharder) : Z := Z.of_nat (length (shards r)).

End Backend.
Arguments RangeSharder B : clear implicits.
End Range.

(** *** The [Sharder] interface, [NewSharder] and [ShardKey] *)

Inductive Sharder (B : Type) : Type :=
  | ConsistentS (c : Consistent.ConsistentHashSharder B)
  | HashS (h : Hash.HashSharder B)
  | RangeS (r : Range.RangeSharder B).
Arguments ConsistentS {B} c.
Arguments HashS {B} h.
Arguments RangeS {B} r.

Definition AddShard {B} (backend : B) (s : Sharder B) : Sharder B * option string :=
  match s with
  | ConsistentS c => let '(c', err) := Consistent.AddShard backend c in (ConsistentS c', err)
  | HashS h => let '(h', err) := Hash.AddShard backend h in (HashS h', err)
  | RangeS r => let '(r', err) := Range.AddShard backend r in (RangeS r', err)
  end.

Definition NewSharder {B} (cfg : ShardingConfig) : Sharder B :=
  if String.eqb (Algorithm cfg) "consistent" then
    let replicas := if Replicas cfg <=? 0 then 100 else Replicas cfg in
    ConsistentS (Consistent.NewConsistentHashSharder replicas)
  else if String.eqb (Algorithm cfg) "hash" then HashS Hash.NewHashSharder
  else if String.eqb (Algorithm cfg) "range" then RangeS Range.NewRangeSharder
  else ConsistentS (Consistent.NewConsistentHashSharder 100).

(** [int(hash) % shardCount]; [int] has 64 bits, so [int(hash)] is [hash]. *)
Definition ShardKey (key : string) (shardCount : Z) : Z :=
  if shardCount <=? 0 then 0
  else Z.rem (ChecksumIEEE key) shardCount.

(** [fmt.Sprintf("shard:%d:%s", shardIndex, originalKey)]. *)
Definition GenerateShardKey (originalKey : string) (shardIndex : Z) : string :=
  ("shard:" ++ Sprintf_d shardIndex ++ ":" ++ originalKey)%string.

(** The body of the first loop of [ExtractOriginalKey], on
    [(parts, current)]; 58 is the colon. *)
Definition split_step (acc : list string * string) (char : Z) : list string * string :=
  if char =? 58 then (fst acc ++ [snd acc], "")
  else (fst acc, (snd acc ++ string_of_rune char)%string).

(** The body of its second loop, on [(result, i)]. *)
Definition join_step (acc : string * Z) (part : string) : string * Z :=
  let '(result, i) := acc in
  let result := if 2 <? i then (result ++ ":")%string else result in
  ((result ++ part)%string, i + 1).

Definition ExtractOriginalKey (shardKey : string) : string :=
  let '(parts, current) := fold_left split_step (runes shardKey) ([], "") in
  let parts := if negb (String.eqb current "") then parts ++ [current] else parts in
  if (3 <=? Z.of_nat (length parts)) && String.eqb (nth 0 parts "") "shard"
  then fst (fold_left join_step (drop 2 parts) ("", 2))
  else shardKey.

End Sharding.

(** ** The cache facade: [cache.go] and [cache_helpers.go] *)

Module Facade.
Import Go.

(** *** Configuration: [pkg/config], the fields the facade reads. The
    settings of the network adapters, of metrics and of tracing are left
    out. *)

Record GRPCConfig : Type := mkGRPC { Port : Z; Peers : list string }.

Record CacheConfig : Type := mkCacheConfig {
  TierBackend : string;
  Size : string;
  TTL : Duration;
  TierMemory : Memory.MemoryConfig
}.

Record Config : Type := mkConfig {
  Backend : string;
  Compression : bool;
  CompressionAlgorithm : string;
  Serializer : string;
  Distributed : bool;
  Hierarchical : bool;
  Memory : Memory.MemoryConfig;
  GRPC : GRPCConfig;
  L1 : CacheConfig;
  L2 : CacheConfig;
  Sharding : Sharding.ShardingConfig
}.

Definition contains (slice : list string) (item : string) : bool :=
  existsb (String.eqb item) slice.

Definition validateMemoryConfig (c : Config) : result Config :=
  let mc := Memory c in
  let mc1 := if String.eqb (Memory.MaxSize mc) ""
             then Memory.mkConfig "100MB" (Memory.MaxKeys mc) (Memory.EvictionPolicy mc)
                    (Memory.DefaultTTL mc) (Memory.CleanupInterval mc)
             else mc in
  let mc2 := if String.eqb (Memory.EvictionPolicy mc1) ""
             then Memory.mkConfig (Memory.MaxSize mc1) (Memory.MaxKeys mc1) "lru"
                    (Memory.DefaultTTL mc1) (Memory.CleanupInterval mc1)
             else mc1 in
  let mc3 := if Memory.CleanupInterval mc2 =? 0
             then Memory.mkConfig (Memory.MaxSize mc2) (Memory.MaxKeys mc2)
                    (Memory.EvictionPolicy mc2) (Memory.DefaultTTL mc2) (10 * Minute)
             else mc2 in
  if negb (contains ["lru"; "lfu"; "random"] (Memory.EvictionPolicy mc3))
  then Err ("invalid eviction policy: " ++ Memory.EvictionPolicy mc3
            ++ ", must be one of [lru lfu random]")%string
  else Ok (mkConfig (Backend c) (Compression c) (CompressionAlgorithm c) (Serializer c)
             (Distributed c) (Hierarchical c) mc3 (GRPC c) (L1 c) (L2 c) (Sharding c)).

(** [Validate] has a pointer receiver and fills defaults in; the model
    returns the configuration it leaves behind. *)
Definition Validate (c : Config) : result Config :=
  if negb (contains ["memory"; "redis"; "memcached"] (Backend c))
  then Err ("invalid backend: " ++ Backend c
            ++ ", must be one of [memory redis memcached]")%string
  else
    let serializer := if String.eqb (Serializer c) "" then "json" else Serializer c in
    if negb (contains ["json"; "gob"; "msgpack"] serializer)
    then Err ("invalid serializer: " ++ serializer
              ++ ", must be one of [json gob msgpack]")%string
    else
      let algorithm := if Compression c && String.eqb (CompressionAlgorithm c) ""
                       then "gzip" else CompressionAlgorithm c in
      if Compression c && negb (contains ["gzip"; "lz4"; "snappy"] algorithm)
      then Err ("invalid compression algorithm: " ++ algorithm
                ++ ", must be one of [gzip lz4 snappy]")%string
      else if Hierarchical c
                && (String.eqb (TierBackend (L1 c)) "" || String.eqb (TierBackend (L2 c)) "")
      then Err "hierarchical mode requires both L1 and L2 backend configurations"
      else
        let grpc := if Distributed c && (Port (GRPC c) =? 0)
                    then mkGRPC 50051 (Peers (GRPC c)) else GRPC c in
        if Distributed c && (length (Peers grpc) =? 0)%nat
        then Err "distributed mode requires at least one peer"
        else
          let c' := mkConfig (Backend c) (Compression c) algorithm serializer
                      (Distributed c) (Hierarchical c) (Memory c) grpc (L1 c) (L2 c)
                      (Sharding c) in
          if String.eqb (Backend c) "memory" then validateMemoryConfig c' else Ok c'.

(** *** The interfaces *)

(** [backends.Serializer] and [backends.Compressor]; the codecs behind them
    are external. The cached value, Go's [interface{}], is a type [V]. *)
Record SerializerI (V : Type) : Type := mkSerializer {
  Serialize : V -> result string;
  Deserialize : string -> result V
}.
Arguments Serialize {V} s v.
Arguments Deserialize {V} s data.

Record CompressorI : Type := mkCompressor {
  Compress : string -> result string;
  Decompress : string -> result string
}.

(** [backends.NewSerializer] and [backends.NewCompressor]. *)
Class Codecs (V : Type) : Type := {
  NewSerializer : string -> result (SerializerI V);
  NewCompressor : string -> result CompressorI
}.

(** [backends.Backend], with [backends.New] as its constructor: the methods
    the facade operations below call. *)
Class BackendI (B : Type) : Type := {
  backends_New : Env -> string -> Config -> result B;
  backend_Get : Env -> string -> B -> B * result string;
  backend_Set : Env -> string -> string -> Duration -> B -> B * option string;
  backend_Delete : Env -> string -> B -> B * option string;
  backend_Exists : Env -> string -> B -> B * result bool;
  backend_Increment : Env -> string -> Z -> B -> B * result Z;
  backend_Decrement : Env -> string -> Z -> B -> B * result Z;
  backend_Expire : Env -> string -> Duration -> B -> B * option string;
  backend_TTL : Env -> string -> B -> B * result Duration;
  backend_Clear : Env -> B -> B * option string;
  backend_Health : Env -> B -> B * option string;
  backend_Close : B -> B * option string
}.

(** The [Cache] interface, with [New] as its constructor. A method call
    gives [None] when the Go call panics (a method called on a nil
    interface). *)
Class CacheI (V T : Type) : Type := {
  cache_New : Env -> Config -> result T;
  cache_Get : Env -> string -> T -> option (T * result V);
  cache_Set : Env -> string -> V -> Duration -> T -> option (T * option string);
  cache_Delete : Env -> string -> T -> option (T * option string);
  cache_Exists : Env -> string -> T -> option (T * result bool);
  cache_Increment : Env -> string -> Z -> T -> option (T * result Z);
  cache_Decrement : Env -> string -> Z -> T -> option (T * result Z);
  cache_Expire : Env -> string -> Duration -> T -> option (T * option string);
  cache_TTL : Env -> string -> T -> option (T * result Duration);
  cache_Clear : Env -> T -> option (T * option string);
  cache_Health : Env -> T -> option (T * option string);
  cache_Close : T -> option (T * option string)
}.

(** The memory store is a backend. The network adapters are external: in a
    build that knows the memory store only, asking [backends.New] for
    another kind is answered like an unknown kind. *)
#[export] Instance MemoryBackend_BackendI : BackendI Memory.MemoryBackend := {
  backends_New e backendType cfg :=
    if String.eqb backendType "memory" then Memory.NewMemoryBackend e (Memory cfg)
    else Err ("unsupported backend type: " ++ backendType)%string;
  backend_Get := Memory.Get;
  backend_Set := Memory.Set_;
  backend_Delete := Memory.Delete;
  backend_Exists := Memory.Exists;
  backend_Increment := Memory.Increment;
  backend_Decrement := Memory.Decrement;
  backend_Expire := Memory.Expire;
  backend_TTL := Memory.TTL;
  backend_Clear := Memory.Clear;
  backend_Health := Memory.Health;
  backend_Close := Memory.Close
}.

(** *** [CacheClient] *)

Section Client.
Context {V B T1 T2 : Type}.
Context `{!Codecs V, !BackendI B, !CacheI V T1, !CacheI V T2}.

(** The interface fields are [None] when nil. [config] is a pointer in the
    code, set once by [New]. *)
Record CacheClient : Type := mkClient {
  backend : option B;
  config : Config;
  shards : list B;
  l1Cache : option T1;
  l2Cache : option T2;
  serializer : option (SerializerI V);
  compressor : option CompressorI
}.

Definition set_backend (b : B) (c : CacheClient) : CacheClient :=
  mkClient (Some b) (config c) (shards c) (l1Cache c) (l2Cache c) (serializer c) (compressor c).
Definition set_shards (l : list B) (c : CacheClient) : CacheClient :=
  mkClient (backend c) (config c) l (l1Cache c) (l2Cache c) (serializer c) (compressor c).
Definition set_l1 (t : T1) (c : CacheClient) : CacheClient :=
  mkClient (backend c) (config c) (shards c) (Some t) (l2Cache c) (serializer c) (compressor c).
Definition set_l2 (t : T2) (c : CacheClient) : CacheClient :=
  mkClient (backend c) (config c) (shards c) (l1Cache c) (Some t) (serializer c) (compressor c).

(** [getShard], as the index of the slice it returns; [None] is the nil
    backend of an empty shard list. *)
Definition getShardIndex (c : CacheClient) (key : string) : option nat :=
  if (length (shards c) =? 0)%nat then None
  else if (length (shards c) =? 1)%nat then Some 0%nat
  else Some (Z.to_nat (Sharding.ShardKey key (Z.of_nat (length (shards c))))).

Definition getShard (c : CacheClient) (key : string) : option B :=
  i ← getShardIndex c key; shards c !! i.

(** "Decompress if needed", then "Deserialize": the tail shared by
    [getSingle] and [getDistributed]. *)
Definition decode (c : CacheClient) (data : string) : option (result V) :=
  let decompressed :=
    match compressor c with
    | Some z =>
        match Decompress z data with
        | Err err => Err ("failed to decompress data: " ++ err)%string
        | Ok d => Ok d
        end
    | None => Ok data
    end in
  match decompressed with
  | Err err => Some (Err err)
  | Ok d =>
      ser ← serializer c;
      match Deserialize ser d with
      | Err err => Some (Err ("failed to deserialize data: " ++ err)%string)
      | Ok v => Some (Ok v)
      end
  end.

(** "Serialize", then "Compress if needed": the head shared by [setSingle]
    and [setDistributed]. *)
Definition encode (c : CacheClient) (value : V) : option (result string) :=
  ser ← serializer c;
  match Serialize ser value with
  | Err err => Some (Err ("failed to serialize data: " ++ err)%string)
  | Ok data =>
      match compressor c with
      | Some z =>
          match Compress z data with
          | Err err => Some (Err ("failed to compress data: " ++ err)%string)
          | Ok d => Some (Ok d)
          end
      | None => Some (Ok data)
      end
  end.

Definition getSingle (e : Env) (key : string) (c : CacheClient)
  : option (CacheClient * result V) :=
  b ← backend c;
  let '(b', r) := backend_Get e key b in
  let c' := set_backend b' c in
  match r with
  | Err err => Some (c', Err err)
  | Ok data => r' ← decode c' data; Some (c', r')
  end.

Definition setSingle (e : Env) (key : string) (value : V) (ttl : Duration) (c : CacheClient)
  : option (CacheClient * option string) :=
  r ← encode c value;
  match r with
  | Err err => Some (c, Some err)
  | Ok data =>
      b ← backend c;
      let '(b', err) := backend_Set e key data ttl b in
      Some (set_backend b' c, err)
  end.

Definition deleteSingle (e : Env) (key : string) (c : CacheClient)
  : option (CacheClient * option string) :=
  b ← backend c;
  let '(b', err) := backend_Delete e key b in
  Some (set_backend b' c, err).

Definition getHierarchical (e : Env) (key : string) (c : CacheClient)
  : option (CacheClient * result V) :=
  l1 ← l1Cache c;
  '(l1', r1) ← cache_Get e key l1;
  let c1 := set_l1 l1' c in
  match r1 with
  | Ok value => Some (c1, Ok value)
  | Err _ =>
      l2 ← l2Cache c1;
      '(l2', r2) ← cache_Get e key l2;
      let c2 := set_l2 l2' c1 in
      match r2 with
      | Err err => Some (c2, Err err)
      | Ok value =>
          let l1TTL := if TTL (L1 (config c2)) =? 0 then 5 * Minute
                       else TTL (L1 (config c2)) in
          '(l1'', _) ← cache_Set e key value l1TTL l1';
          Some (set_l1 l1'' c2, Ok value)
      end
  end.

Definition setHierarchical (e : Env) (key : string) (value : V) (ttl : Duration)
    (c : CacheClient) : option (CacheClient * option string) :=
  l1 ← l1Cache c;
  '(l1', err1) ← cache_Set e key value ttl l1;
  let c1 := set_l1 l1' c in
  match err1 with
  | Some err => Some (c1, Some ("failed to set in L1 cache: " ++ err)%string)
  | None =>
      l2 ← l2Cache c1;
      '(l2', err2) ← cache_Set e key value ttl l2;
      let c2 := set_l2 l2' c1 in
      match err2 with
      | Some err => Some (c2, Some ("failed to set in L2 cache: " ++ err)%string)
      | None => Some (c2, None)
      end
  end.

Definition deleteHierarchical (e : Env) (key : string) (c : CacheClient)
  : option (CacheClient * option string) :=
  l1 ← l1Cache c;
  '(l1', err1) ← cache_Delete e key l1;
  let c1 := set_l1 l1' c in
  l2 ← l2Cache c1;
  '(l2', err2) ← cache_Delete e key l2;
  let c2 := set_l2 l2' c1 in
  match err1, err2 with
  | Some e1, Some e2 =>
      Some (c2, Some ("failed to delete from both caches: L1=" ++ e1 ++ ", L2=" ++ e2)%string)
  | _, _ => Some (c2, None)
  end.

Definition existsHierarchical (e : Env) (key : string) (c : CacheClient)
  : option (CacheClient * result bool) :=
  l1 ← l1Cache c;
  '(l1', r1) ← cache_Exists e key l1;
  let c1 := set_l1 l1' c in
  match r1 with
  | Ok true => Some (c1, Ok true)
  | _ =>
      l2 ← l2Cache c1;
      '(l2', r2) ← cache_Exists e key l2;
      Some (set_l2 l2' c1, r2)
  end.

(** The shard of a key with the slot it sits in, for the write-back of the
    backend's new state. *)
Definition no_shard (key : string) : string :=
  ("no shard available for key: " ++ key)%string.

Definition getDistributed (e : Env) (key : string) (c : CacheClient)
  : option (CacheClient * result V) :=
  match getShardIndex c key with
  | None => Some (c, Err (no_shard key))
  | Some i =>
      shard ← shards c !! i;
      let '(shard', r) := backend_Get e key shard in
      let c' := set_shards (<[i := shard']> (shards c)) c in
      match r with
      | Err err => Some (c', Err err)
      | Ok data => r' ← decode c' data; Some (c', r')
      end
  end.

Definition setDistributed (e : Env) (key : string) (value : V) (ttl : Duration)
    (c : CacheClient) : option (CacheClient * option string) :=
  match getShardIndex c key with
  | None => Some (c, Some (no_shard key))
  | Some i =>
      shard ← shards c !! i;
      r ← encode c value;
      match r with
      | Err err => Some (c, Some err)
      | Ok data =>
          let '(shard', err) := backend_Set e key data ttl shard in
          Some (set_shards (<[i := shard']> (shards c)) c, err)
      end
  end.

Definition deleteDistributed (e : Env) (key : string) (c : CacheClient)
  : option (CacheClient * option string) :=
  match getShardIndex c key with
  | None => Some (c, Some (no_shard key))
  | Some i =>
      shard ← shards c !! i;
      let '(shard', err) := backend_Delete e key shard in
      Some (set_shards (<[i := shard']> (shards c)) c, err)
  end.

Definition existsDistributed (e : Env) (key : string) (c : CacheClient)
  : option (CacheClient * result bool) :=
  match getShardIndex c key with
  | None => Some (c, Err (no_shard key))
  | Some i =>
      shard ← shards c !! i;
      let '(shard', r) := backend_Exists e key shard in
      Some (set_shards (<[i := shard']> (shards c)) c, r)
  end.

(** *** The methods of [CacheClient] *)

Definition Get (e : Env) (key : string) (c : CacheClient)
  : option (CacheClient * result V) :=
  if Hierarchical (config c) then getHierarchical e key c
  else if Distributed (config c) then getDistributed e key c
  else getSingle e key c.

Definition Set_ (e : Env) (key : string) (value : V) (ttl : Duration) (c : CacheClient)
  : option (CacheClient * option string) :=
  if Hierarchical (config c) then setHierarchical e key value ttl c
  else if Distributed (config c) then setDistributed e key value ttl c
  else setSingle e key value ttl c.

Definition Delete (e : Env) (key : string) (c : CacheClient)
  : option (CacheClient * option string) :=
  if Hierarchical (config c) then deleteHierarchical e key c
  else if Distributed (config c) then deleteDistributed e key c
  else deleteSingle e key c.

Definition Exists (e : Env) (key : string) (c : CacheClient)
  : option (CacheClient * result bool) :=
  if Hierarchical (config c) then existsHierarchical e key c
  else if Distributed (config c) then existsDistributed e key c
  else
    b ← backend c;
    let '(b', r) := backend_Exists e key b in
    Some (set_backend b' c, r).

Definition Increment (e : Env) (key : string) (delta : Z) (c : CacheClient)
  : option (CacheClient * result Z) :=
  if Hierarchical (config c) then
    l2 ← l2Cache c;
    '(l2', r) ← cache_Increment e key delta l2;
    Some (set_l2 l2' c, r)
  else if Distributed (config c) then
    i ← getShardIndex c key;
    shard ← shards c !! i;
    let '(shard', r) := backend_Increment e key delta shard in
    Some (set_shards (<[i := shard']> (shards c)) c, r)
  else
    b ← backend c;
    let '(b', r) := backend_Increment e key delta b in
    Some (set_backend b' c, r).

Definition Decrement (e : Env) (key : string) (delta : Z) (c : CacheClient)
  : option (CacheClient * result Z) :=
  if Hierarchical (config c) then
    l2 ← l2Cache c;
    '(l2', r) ← cache_Decrement e key delta l2;
    Some (set_l2 l2' c, r)
  else if Distributed (config c) then
    i ← getShardIndex c key;
    shard ← shards c !! i;
    let '(shard', r) := backend_Decrement e key delta shard in
    Some (set_shards (<[i := shard']> (shards c)) c, r)
  else
    b ← backend c;
    let '(b', r) := backend_Decrement e key delta b in
    Some (set_backend b' c, r).

Definition Expire (e : Env) (key : string) (ttl : Duration) (c : CacheClient)
  : option (CacheClient * option string) :=
  if Hierarchical (config c) || Distributed (config c)
  then Some (c, Some "expire operation not supported in hierarchical/distributed mode")
  else
    b ← backend c;
    let '(b', err) := backend_Expire e key ttl b in
    Some (set_backend b' c, err).

Definition TTL_ (e : Env) (key : string) (c : CacheClient)
  : option (CacheClient * result Duration) :=
  if Hierarchical (config c) || Distributed (config c)
  then Some (c, Err "ttl operation not supported in hierarchical/distributed mode")
  else
    b ← backend c;
    let '(b', r) := backend_TTL e key b in
    Some (set_backend b' c, r).

(** A loop [for _, shard := range c.shards] that stops at the first error,
    with the shards already visited written back. *)
Fixpoint each_shard (f : B -> B * option string) (done todo : list B)
  : list B * option string :=
  match todo with
  | [] => (done, None)
  | shard :: rest =>
      let '(shard', err) := f shard in
      match err with
      | Some _ => (done ++ shard' :: rest, err)
      | None => each_shard f (done ++ [shard']) rest
      end
  end.

Definition Clear (e : Env) (c : CacheClient) : option (CacheClient * option string) :=
  if Hierarchical (config c) then
    l1 ← l1Cache c;
    '(l1', err1) ← cache_Clear e l1;
    let c1 := set_l1 l1' c in
    match err1 with
    | Some err => Some (c1, Some err)
    | None =>
        l2 ← l2Cache c1;
        '(l2', err2) ← cache_Clear e l2;
        Some (set_l2 l2' c1, err2)
    end
  else if Distributed (config c) then
    let '(shards', err) := each_shard (backend_Clear e) [] (shards c) in
    Some (set_shards shards' c, err)
  else
    b ← backend c;
    let '(b', err) := backend_Clear e b in
    Some (set_backend b' c, err).

Definition Health (e : Env) (c : CacheClient) : option (CacheClient * option string) :=
  if Hierarchical (config c) then
    l1 ← l1Cache c;
    '(l1', err1) ← cache_Health e l1;
    let c1 := set_l1 l1' c in
    match err1 with
    | Some err => Some (c1, Some err)
    | None =>
        l2 ← l2Cache c1;
        '(l2', err2) ← cache_Health e l2;
        Some (set_l2 l2' c1, err2)
    end
  else if Distributed (config c) then
    let '(shards', err) := each_shard (backend_Health e) [] (shards c) in
    Some (set_shards shards' c, err)
  else
    b ← backend c;
    let '(b', err) := backend_Health e b in
    Some (set_backend b' c, err).

(** The loop of [Close] over the shards: every shard is closed, the errors
    are collected. *)
Fixpoint close_shards (todo : list B) : list B * list string :=
  match todo with
  | [] => ([], [])
  | shard :: rest =>
      let '(shard', err) := backend_Close shard in
      let '(rest', errors) := close_shards rest in
      (shard' :: rest', match err with Some x => x :: errors | None => errors end)
  end.

Definition append_error (errors : list string) (err : option string) : list string :=
  match err with
  | Some x => errors ++ [x]
  | None => errors
  end.

(** [fmt.Errorf("errors closing cache: %v", errors)]: the messages between
    brackets, separated by spaces. *)
Definition closing_error (errors : list string) : string :=
  ("errors closing cache: [" ++ String.concat " " errors ++ "]")%string.

Definition Close (c : CacheClient) : option (CacheClient * option string) :=
  '(c1, errors1) ←
    (if Hierarchical (config c) then
       l1 ← l1Cache c;
       '(l1', err1) ← cache_Close l1;
       let ca := set_l1 l1' c in
       l2 ← l2Cache ca;
       '(l2', err2) ← cache_Close l2;
       Some (set_l2 l2' ca, append_error (append_error [] err1) err2)
     else Some (c, []));
  let '(c2, errors2) :=
    if Distributed (config c1) then
      let '(shards', errs) := close_shards (shards c1) in
      (set_shards shards' c1, errors1 ++ errs)
    else (c1, errors1) in
  let '(c3, errors3) :=
    match backend c2 with
    | Some b =>
        let '(b', err) := backend_Close b in
        (set_backend b' c2, append_error errors2 err)
    | None => (c2, errors2)
    end in
  if (0 <? length errors3)%nat
  then Some (c3, Some (closing_error errors3))
  else Some (c3, None).

(** *** Construction *)

Definition zeroMemoryConfig : Memory.MemoryConfig := Memory.mkConfig "" 0 "" 0 0.
Definition zeroCacheConfig : CacheConfig := mkCacheConfig "" "" 0 zeroMemoryConfig.

(** [config.Config{Backend: ..., Memory: ..., Serializer: ..., Compression: ...}]
    of [initHierarchicalCache]; the other fields hold their zero value. *)
Definition tierConfig (t : CacheConfig) (c : Config) : Config :=
  mkConfig (TierBackend t) (Compression c) "" (Serializer c) false false (TierMemory t)
    (mkGRPC 0 []) zeroCacheConfig zeroCacheConfig
    (Sharding.mkShardingConfig false "" 0 0).

Definition initHierarchicalCache (e : Env) (c : CacheClient) : result CacheClient :=
  match cache_New e (tierConfig (L1 (config c)) (config c)) with
  | Err err => Err ("failed to initialize L1 cache: " ++ err)%string
  | Ok l1 =>
      let c1 := set_l1 l1 c in
      match cache_New e (tierConfig (L2 (config c1)) (config c1)) with
      | Err err => Err ("failed to initialize L2 cache: " ++ err)%string
      | Ok l2 => Ok (set_l2 l2 c1)
      end
  end.

(** The loop of [initSharding], on the client and the local [sharder]. *)
Fixpoint initSharding_loop (e : Env) (n : nat) (i : Z) (c : CacheClient)
    (sharder : Sharding.Sharder B) : result (CacheClient * Sharding.Sharder B) :=
  match n with
  | O => Ok (c, sharder)
  | S n' =>
      match backends_New e (Backend (config c)) (config c) with
      | Err err => Err ("failed to create shard " ++ Sprintf_d i ++ ": " ++ err)%string
      | Ok b =>
          let c' := set_shards (shards c ++ [b]) c in
          match Sharding.AddShard b sharder with
          | (_, Some err) => Err ("failed to add shard " ++ Sprintf_d i ++ ": " ++ err)%string
          | (sharder', None) => initSharding_loop e n' (i + 1) c' sharder'
          end
      end
  end.

(** [initSharding]: the sharder it builds is a local variable, which the
    function drops when it returns. *)
Definition initSharding (e : Env) (c : CacheClient) : result CacheClient :=
  let sharder := Sharding.NewSharder (Sharding (config c)) in
  let shardCount := if Sharding.Shards (Sharding (config c)) <=? 0 then 3
                    else Sharding.Shards (Sharding (config c)) in
  match initSharding_loop e (Z.to_nat shardCount) 0 c sharder with
  | Err err => Err err
  | Ok (c', _) => Ok c'
  end.

Definition New (e : Env) (cfg : Config) : result CacheClient :=
  match Validate cfg with
  | Err err => Err ("invalid configuration: " ++ err)%string
  | Ok cfg =>
      match NewSerializer (V := V) (Serializer cfg) with
      | Err err => Err ("failed to initialize serializer: " ++ err)%string
      | Ok ser =>
          let with_compressor :=
            if Compression cfg then
              match NewCompressor (V := V) (CompressionAlgorithm cfg) with
              | Err err => Err ("failed to initialize compressor: " ++ err)%string
              | Ok z => Ok (Some z)
              end
            else Ok None in
          match with_compressor with
          | Err err => Err err
          | Ok z =>
              let client := mkClient None cfg [] None None (Some ser) z in
              if Hierarchical cfg then
                match initHierarchicalCache e client with
                | Err err => Err ("failed to initialize hierarchical cache: " ++ err)%string
                | Ok client' => Ok client'
                end
              else
                match backends_New e (Backend cfg) cfg with
                | Err err => Err ("failed to initialize backend: " ++ err)%string
                | Ok b =>
                    let client' := set_backend b client in
                    if Distributed cfg then
                      match initSharding e client' with
                      | Err err => Err ("failed to initialize sharding: " ++ err)%string
                      | Ok client'' => Ok client''
                      end
                    else Ok client'
                end
          end
      end
  end.

#[export] Instance CacheClient_CacheI : CacheI V CacheClient := {
  cache_New := New;
  cache_Get := Get;
  cache_Set := Set_;
  cache_Delete := Delete;
  cache_Exists := Exists;
  cache_Increment := Increment;
  cache_Decrement := Decrement;
  cache_Expire := Expire;
  cache_TTL := TTL_;
  cache_Clear := Clear;
  cache_Health := Health;
  cache_Close := Close
}.

End Client.
Arguments CacheClient V B T1 T2 : clear implicits.

(** The tiers of a client that is not hierarchical: an interface nobody
    implements, whose constructor fails. *)
#[export] Instance NoTier_CacheI {V} : CacheI V Empty_set := {
  cache_New _ _ := Err "no tier";
  cache_Get _ _ t := match t with end;
  cache_Set _ _ _ _ t := match t with end;
  cache_Delete _ _ t := match t with end;
  cache_Exists _ _ t := match t with end;
  cache_Increment _ _ _ t := match t with end;
  cache_Decrement _ _ _ t := match t with end;
  cache_Expire _ _ _ t := match t with end;
  cache_TTL _ _ t := match t with end;
  cache_Clear _ t := match t with end;
  cache_Health _ t := match t with end;
  cache_Close t := match t with end
}.

(** *** The rest of the interfaces: batch operations and statistics *)

(** [backends.Backend]: [GetMulti], [SetMulti], [DeleteMulti] and [Stats]. *)
Class BackendBatchI (B : Type) : Type := {
  backend_GetMulti : Env -> list string -> B -> B * result (gmap string string);
  backend_SetMulti : Env -> gmap string string -> Duration -> B -> B * option string;
  backend_DeleteMulti : Env -> list string -> B -> B * option string;
  backend_Stats : Env -> B -> B * result Memory.Stats
}.

#[export] Instance MemoryBackend_BackendBatchI : BackendBatchI Memory.MemoryBackend := {
  backend_GetMulti := Memory.GetMulti;
  backend_SetMulti := Memory.SetMulti;
  backend_DeleteMulti := Memory.DeleteMulti;
  backend_Stats := Memory.Stats_
}.

(** The [Stats] of [cache.go]. *)
Record Stats : Type := mkCacheStats {
  Hits : Z;
  Misses : Z;
  Sets : Z;
  Deletes : Z;
  Evictions : Z;
  KeyCount : Z;
  MemoryUsage : Z;
  Uptime : Z
}.

(** [Stats] of the [Cache] interface, which the facade calls on its tiers. *)
Class CacheStatsI (T : Type) : Type := {
  cache_Stats : Env -> T -> option (T * result Stats)
}.

#[export] Instance NoTier_CacheStatsI : CacheStatsI Empty_set := {
  cache_Stats _ t := match t with end
}.

Definition max (a b : Z) : Z := if b <? a then a else b.

Section ClientBatch.
Context {V B T1 T2 : Type}.
Context `{!Codecs V, !BackendI B, !BackendBatchI B, !CacheI V T1, !CacheI V T2}.
Context `{!CacheStatsI T1, !CacheStatsI T2}.

(** The loop of [GetMulti] in hierarchical or distributed mode, on the
    client and [result]. *)
Fixpoint GetMulti_loop (e : Env) (keys : list string) (c : CacheClient V B T1 T2)
    (result : gmap string V) : option (CacheClient V B T1 T2 * gmap string V) :=
  match keys with
  | [] => Some (c, result)
  | key :: rest =>
      '(c', r) ← Get e key c;
      GetMulti_loop e rest c'
        match r with
        | Ok value => <[key := value]> result
        | Err _ => result
        end
  end.

(** The loop of [GetMulti] over [rawResult]: the values that deserialize. *)
Definition deserialize_all (ser : SerializerI V) (rawResult : gmap string string)
  : gmap string V :=
  omap (fun value => match Deserialize ser value with
                     | Ok v => Some v
                     | Err _ => None
                     end) rawResult.

(** [GetMulti]; the single-backend path deserializes and does not
    decompress. A nil serializer is called, and panics, when there is a
    value to read. *)
Definition GetMulti (e : Env) (keys : list string) (c : CacheClient V B T1 T2)
  : option (CacheClient V B T1 T2 * result (gmap string V)) :=
  if Hierarchical (config c) || Distributed (config c) then
    '(c', result) ← GetMulti_loop e keys c ∅;
    Some (c', Ok result)
  else
    b ← backend c;
    let '(b', r) := backend_GetMulti e keys b in
    let c' := set_backend b' c in
    match r with
    | Err err => Some (c', Err err)
    | Ok rawResult =>
        match serializer c' with
        | Some ser => Some (c', Ok (deserialize_all ser rawResult))
        | None => if decide (rawResult = ∅) then Some (c', Ok ∅) else None
        end
    end.

(** The loop of [SetMulti] in hierarchical or distributed mode. *)
Fixpoint SetMulti_loop (e : Env) (items : list (string * V)) (ttl : Duration)
    (c : CacheClient V B T1 T2) : option (CacheClient V B T1 T2 * option string) :=
  match items with
  | [] => Some (c, None)
  | (key, value) :: rest =>
      '(c', err) ← Set_ e key value ttl c;
      match err with
      | Some _ => Some (c', err)
      | None => SetMulti_loop e rest ttl c'
      end
  end.

(** The loop of the single-backend [SetMulti], on [serializedItems]. *)
Fixpoint serialize_all (ser : option (SerializerI V)) (items : list (string * V))
    (serializedItems : gmap string string) : option (result (gmap string string)) :=
  match items with
  | [] => Some (Ok serializedItems)
  | (key, value) :: rest =>
      s ← ser;
      match Serialize s value with
      | Err err => Some (Err err)
      | Ok serializedValue =>
          serialize_all ser rest (<[key := serializedValue]> serializedItems)
      end
  end.

(** [SetMulti]; the single-backend path serializes and does not compress. *)
Definition SetMulti (e : Env) (items : gmap string V) (ttl : Duration)
    (c : CacheClient V B T1 T2) : option (CacheClient V B T1 T2 * option string) :=
  if Hierarchical (config c) || Distributed (config c)
  then SetMulti_loop e (Memory.range e items) ttl c
  else
    r ← serialize_all (serializer c) (Memory.range e items) ∅;
    match r with
    | Err err => Some (c, Some err)
    | Ok serializedItems =>
        b ← backend c;
        let '(b', err) := backend_SetMulti e serializedItems ttl b in
        Some (set_backend b' c, err)
    end.

Fixpoint DeleteMulti_loop (e : Env) (keys : list string) (c : CacheClient V B T1 T2)
  : option (CacheClient V B T1 T2 * option string) :=
  match keys with
  | [] => Some (c, None)
  | key :: rest =>
      '(c', err) ← Delete e key c;
      match err with
      | Some _ => Some (c', err)
      | None => DeleteMulti_loop e rest c'
      end
  end.

Definition DeleteMulti (e : Env) (keys : list string) (c : CacheClient V B T1 T2)
  : option (CacheClient V B T1 T2 * option string) :=
  if Hierarchical (config c) || Distributed (config c) then DeleteMulti_loop e keys c
  else
    b ← backend c;
    let '(b', err) := backend_DeleteMulti e keys b in
    Some (set_backend b' c, err).

(** [SetNX]: the pair [(bool, error)] it returns has [false] beside every
    error. *)
Definition SetNX (e : Env) (key : string) (value : V) (ttl : Duration)
    (c : CacheClient V B T1 T2) : option (CacheClient V B T1 T2 * result bool) :=
  '(c1, r) ← Exists e key c;
  match r with
  | Err err => Some (c1, Err err)
  | Ok true => Some (c1, Ok false)
  | Ok false =>
      '(c2, err) ← Set_ e key value ttl c1;
      match err with
      | Some x => Some (c2, Err x)
      | None => Some (c2, Ok true)
      end
  end.

(** [GetSet]: the old value is [None] for the nil a failed [Get] leaves. *)
Definition GetSet (e : Env) (key : string) (value : V) (c : CacheClient V B T1 T2)
  : option (CacheClient V B T1 T2 * result (option V)) :=
  '(c1, r) ← Get e key c;
  let oldValue := match r with
                  | Ok v => Some v
                  | Err _ => None
                  end in
  '(c2, err) ← Set_ e key value 0 c1;
  match err with
  | Some x => Some (c2, Err x)
  | None => Some (c2, Ok oldValue)
  end.

Definition statsHierarchical (e : Env) (c : CacheClient V B T1 T2)
  : option (CacheClient V B T1 T2 * result Stats) :=
  l1 ← l1Cache c;
  '(l1', r1) ← cache_Stats e l1;
  let c1 := set_l1 l1' c in
  match r1 with
  | Err err => Some (c1, Err ("failed to get L1 stats: " ++ err)%string)
  | Ok l1Stats =>
      l2 ← l2Cache c1;
      '(l2', r2) ← cache_Stats e l2;
      let c2 := set_l2 l2' c1 in
      match r2 with
      | Err err => Some (c2, Err ("failed to get L2 stats: " ++ err)%string)
      | Ok l2Stats =>
          Some (c2, Ok {| Hits := int64 (Hits l1Stats + Hits l2Stats);
                          Misses := int64 (Misses l1Stats + Misses l2Stats);
                          Sets := int64 (Sets l1Stats + Sets l2Stats);
                          Deletes := int64 (Deletes l1Stats + Deletes l2Stats);
                          Evictions := int64 (Evictions l1Stats + Evictions l2Stats);
                          KeyCount := int64 (KeyCount l1Stats + KeyCount l2Stats);
                          MemoryUsage := int64 (MemoryUsage l1Stats + MemoryUsage l2Stats);
                          Uptime := max (Uptime l1Stats) (Uptime l2Stats) |})
      end
  end.

(** The body of the loop of [statsDistributed] for a shard that answers. *)
Definition add_shard_stats (combinedStats : Stats) (shardStats : Memory.Stats) : Stats :=
  {| Hits := int64 (Hits combinedStats + Memory.Hits shardStats);
     Misses := int64 (Misses combinedStats + Memory.Misses shardStats);
     Sets := int64 (Sets combinedStats + Memory.Sets shardStats);
     Deletes := int64 (Deletes combinedStats + Memory.Deletes shardStats);
     Evictions := int64 (Evictions combinedStats + Memory.Evictions shardStats);
     KeyCount := int64 (KeyCount combinedStats + Memory.KeyCount shardStats);
     MemoryUsage := int64 (MemoryUsage combinedStats + Memory.MemoryUsage shardStats);
     Uptime := if Uptime combinedStats <? Memory.Uptime shardStats
               then Memory.Uptime shardStats else Uptime combinedStats |}.

Fixpoint statsDistributed_loop (e : Env) (todo : list B) (combinedStats : Stats)
  : list B * Stats :=
  match todo with
  | [] => ([], combinedStats)
  | shard :: rest =>
      let '(shard', r) := backend_Stats e shard in
      let '(rest', combined) :=
        statsDistributed_loop e rest
          match r with
          | Ok shardStats => add_shard_stats combinedStats shardStats
          | Err _ => combinedStats
          end in
      (shard' :: rest', combined)
  end.

Definition statsDistributed (e : Env) (c : CacheClient V B T1 T2)
  : option (CacheClient V B T1 T2 * result Stats) :=
  let '(shards', combinedStats) :=
    statsDistributed_loop e (shards c) (mkCacheStats 0 0 0 0 0 0 0 0) in
  Some (set_shards shards' c, Ok combinedStats).

Definition Stats_ (e : Env) (c : CacheClient V B T1 T2)
  : option (CacheClient V B T1 T2 * result Stats) :=
  if Hierarchical (config c) then statsHierarchical e c
  else if Distributed (config c) then statsDistributed e c
  else
    b ← backend c;
    let '(b', r) := backend_Stats e b in
    let c' := set_backend b' c in
    match r with
    | Err err => Some (c', Err err)
    | Ok backendStats =>
        Some (c', Ok {| Hits := Memory.Hits backendStats;
                        Misses := Memory.Misses backendStats;
                        Sets := Memory.Sets backendStats;
                        Deletes := Memory.Deletes backendStats;
                        Evictions := Memory.Evictions backendStats;
                        KeyCount := Memory.KeyCount backendStats;
                        MemoryUsage := Memory.MemoryUsage backendStats;
                        Uptime := Memory.Uptime backendStats |})
    end.

#[export] Instance CacheClient_CacheStatsI : CacheStatsI (CacheClient V B T1 T2) := {
  cache_Stats := Stats_
}.

End ClientBatch.

End Facade.

(** ** Specification-side definitions *)

Module Spec.
Import Go.

(** The sum of the value sizes of the entries of a table. *)
Definition stored_size (d : gmap string Memory.memoryItem) : Z :=
  map_fold (fun _ item acc => acc + len (Memory.value item)) 0 d.

(** The sum of the value sizes of the entries that have not expired. *)
Definition live_size (e : Env) (d : gmap string Memory.memoryItem) : Z :=
  stored_size (filter (fun kv => Memory.expired e kv.2 = false) d).

(** The memory-usage invariant of the design document, on the gauge that
    [Stats] reports. *)
Definition usage_accounted (e : Env) (m : Memory.MemoryBackend) : Prop :=
  Memory.currentSize m = live_size e (Memory.data m).

(** "A base-10 integer", in the words of the design document: an optional
    sign followed by one or more decimal digits. *)
Definition is_base10_integer (s : string) : bool :=
  let digits := match s with
                | String c r => if Ascii.eqb c "-" || Ascii.eqb c "+" then r else s
                | EmptyString => s
                end in
  negb (String.eqb digits "") && all_digits digits.

(** The five counters of the store. *)
Definition counters (s : Memory.memoryStats) : list Z :=
  [Memory.hits s; Memory.misses s; Memory.sets s; Memory.deletes s; Memory.evictions s].

Definition counters_le (s t : Memory.memoryStats) : Prop :=
  Memory.hits s <= Memory.hits t /\
  Memory.misses s <= Memory.misses t /\
  Memory.sets s <= Memory.sets t /\
  Memory.deletes s <= Memory.deletes t /\
  Memory.evictions s <= Memory.evictions t.

(** Every counter is an [int64] that can still take [k] steps of the
    operations (a [Set] adds up to two evictions) before it wraps. *)
Definition headroom (k : Z) (s : Memory.memoryStats) : Prop :=
  Forall (fun c => int64_min <= c /\ c + 2 * k <= int64_max) (counters s).

(** A mathematical integer that is an [int64]. *)
Definition in_int64 (z : Z) : Prop := int64_min <= z <= int64_max.

(** Each counter of [t] is the one of [s] plus at most [2 * k]. *)
Definition within (k : Z) (s t : Memory.memoryStats) : Prop :=
  Memory.hits s <= Memory.hits t <= Memory.hits s + 2 * k /\
  Memory.misses s <= Memory.misses t <= Memory.misses s + 2 * k /\
  Memory.sets s <= Memory.sets t <= Memory.sets s + 2 * k /\
  Memory.deletes s <= Memory.deletes t <= Memory.deletes s + 2 * k /\
  Memory.evictions s <= Memory.evictions t <= Memory.evictions s + 2 * k.

(** One eviction at most. *)
Definition evicts (s t : Memory.memoryStats) : Prop := t = s \/ t = Memory.add_eviction s.

(** The recorded usage is the sum of the stored sizes, and fits [int64]. *)
Definition accounted (m : Memory.MemoryBackend) : Prop :=
  Memory.currentSize m = stored_size (Memory.data m) /\ stored_size (Memory.data m) <= int64_max.

(** An eviction leaves the table as it is or removes one key. *)
Definition shrinks (d d' : gmap string Memory.memoryItem) : Prop :=
  d' = d \/ exists k, d' = delete k d.

(** A text without the white space of JSON. *)
Fixpoint no_spaces (s : string) : bool :=
  match s with
  | String c r => negb (is_json_space c) && no_spaces r
  | EmptyString => true
  end.

(** The deadline a [Set] at [e] gives its entry: the TTL of the call from
    now, else the default TTL of the store from now, else none (zero). *)
Definition deadline (e : Env) (ttl : Duration) (m : Memory.MemoryBackend) : Time :=
  if 0 <? ttl then now e + ttl
  else if 0 <? Memory.DefaultTTL (Memory.config m)
       then now e + Memory.DefaultTTL (Memory.config m)
       else 0.

(** What a lookup at [e] can see under [key]: the value of an entry that is
    stored and has not expired. *)
Definition live (e : Env) (m : Memory.MemoryBackend) (key : string) : option string :=
  item ← Memory.data m !! key;
  if Memory.expired e item then None else Some (Memory.value item).

(** The time an entry with the given deadline has left at [e]: none to
    speak of ([-1]) without a deadline, and never less than zero. *)
Definition remaining (e : Env) (deadline : Time) : Duration :=
  if deadline =? 0 then -1 else Z.max 0 (deadline - now e).

(** The store with [item] removed as an eviction removes it. *)
Definition evicted (k : string) (item : Memory.memoryItem) (m : Memory.MemoryBackend)
  : Memory.MemoryBackend :=
  Memory.set_stats (Memory.add_eviction (Memory.stats m))
    (Memory.set_data (delete k (Memory.data m))
       (Memory.set_currentSize
          (int64 (Memory.currentSize m - len (Memory.value item))) m)).

(** The store has no size limit and no key limit, so that [Set] never
    evicts. *)
Definition unlimited (m : Memory.MemoryBackend) : Prop :=
  Memory.maxSize m <= 0 /\ Memory.MaxKeys (Memory.config m) <= 0.

(** The store with another cleanup interval in its settings. *)
Definition with_interval (d : Duration) (m : Memory.MemoryBackend) : Memory.MemoryBackend :=
  let cfg := Memory.config m in
  Memory.mkBackend (Memory.data m) (Memory.stats m)
    (Memory.mkConfig (Memory.MaxSize cfg) (Memory.MaxKeys cfg) (Memory.EvictionPolicy cfg)
       (Memory.DefaultTTL cfg) d)
    (Memory.stopCleanup m) (Memory.maxSize m) (Memory.currentSize m).

(** The text starts with a decimal digit. *)
Definition starts_with_digit (s : string) : bool :=
  match s with
  | String c _ => is_digit c
  | EmptyString => false
  end.

End Spec.

(** ** The operations of the store as data, for statements over all of them *)

Module Ops.
Import Go.

Inductive op : Type :=
  | OpGet (key : string)
  | OpSet (key value : string) (ttl : Duration)
  | OpDelete (key : string)
  | OpExists (key : string)
  | OpGetMulti (keys : list string)
  | OpSetMulti (items : gmap string string) (ttl : Duration)
  | OpDeleteMulti (keys : list string)
  | OpIncrement (key : string) (delta : Z)
  | OpDecrement (key : string) (delta : Z)
  | OpExpire (key : string) (ttl : Duration)
  | OpTTL (key : string)
  | OpClear
  | OpStats
  | OpHealth
  | OpClose
  | OpSweep.

(** The store after an operation. *)
Definition run (e : Env) (o : op) (m : Memory.MemoryBackend) : Memory.MemoryBackend :=
  match o with
  | OpGet key => (Memory.Get e key m).1
  | OpSet key value ttl => (Memory.Set_ e key value ttl m).1
  | OpDelete key => (Memory.Delete e key m).1
  | OpExists key => (Memory.Exists e key m).1
  | OpGetMulti keys => (Memory.GetMulti e keys m).1
  | OpSetMulti items ttl => (Memory.SetMulti e items ttl m).1
  | OpDeleteMulti keys => (Memory.DeleteMulti e keys m).1
  | OpIncrement key delta => (Memory.Increment e key delta m).1
  | OpDecrement key delta => (Memory.Decrement e key delta m).1
  | OpExpire key ttl => (Memory.Expire e key ttl m).1
  | OpTTL key => (Memory.TTL e key m).1
  | OpClear => (Memory.Clear e m).1
  | OpStats => (Memory.Stats_ e m).1
  | OpHealth => (Memory.Health e m).1
  | OpClose => (Memory.Close m).1
  | OpSweep => Memory.cleanupExpired e m
  end.

(** How many single-key calls an operation makes. *)
Definition calls (e : Env) (o : op) : Z :=
  match o with
  | OpGetMulti keys | OpDeleteMulti keys => Z.of_nat (length keys)
  | OpSetMulti items _ => Z.of_nat (length (Memory.range e items))
  | _ => 1
  end.

(** The bytes a batch of items brings. *)
Definition batch_size (items : list (string * string)) : Z :=
  foldr (fun kv acc => len kv.2 + acc) 0 items.

(** No expired entry is stored under [key]. *)
Definition fresh_at (e : Env) (m : Memory.MemoryBackend) (key : string) : Prop :=
  forall item, Memory.data m !! key = Some item -> Memory.expired e item = false.

(** What an operation needs in order to keep the size accounting: room in
    [int64] for the bytes it brings, and no expired entry under a key it
    looks up. [Increment] and [Decrement] never keep it. *)
Definition keeps_usage (e : Env) (o : op) (m : Memory.MemoryBackend) : Prop :=
  match o with
  | OpSet _ value _ => Spec.stored_size (Memory.data m) + len value <= int64_max
  | OpSetMulti items _ =>
      Spec.stored_size (Memory.data m) + batch_size (Memory.range e items) <= int64_max
  | OpGet key | OpExists key => fresh_at e m key
  | OpGetMulti keys => Forall (fresh_at e m) keys
  | OpIncrement _ _ | OpDecrement _ _ => False
  | _ => True
  end.

End Ops.

(** ** Rings that [AddShard] builds *)

Module ShardingSpec.
Import Go Sharding Sharding.Consistent.

Section Ring.
Context {B : Type}.

(** The ring positions [AddShard] computes for the next shard. *)
Definition new_nodes (c : ConsistentHashSharder B) : list Z :=
  (fun i => hashKey (node_label (Z.of_nat (length (shards c))) i))
    <$> seqZ 0 (replicas c).

(** A ring as [AddShard] alone builds it: sorted positions without
    repetition, one ring entry per position, each naming a shard. *)
Definition ring_ok (c : ConsistentHashSharder B) : Prop :=
  Sorted Z.le (keys c) /\ NoDup (keys c) /\
  (forall k, k ∈ keys c <-> is_Some (ring c !! k)) /\
  (forall k v, ring c !! k = Some v -> 0 <= v < Z.of_nat (length (shards c))).

(** The positions of the next shard are new to the ring and distinct. *)
Definition fresh_nodes (c : ConsistentHashSharder B) : Prop :=
  NoDup (new_nodes c) /\ forall h, h ∈ new_nodes c -> h ∉ keys c.

End Ring.

(** The ring position that serves a hash: the least position at or after
    the hash, and the least position of all when there is none (the ring
    wraps around). *)
Definition successor (keys : list Z) (hash node : Z) : Prop :=
  node ∈ keys /\
  ((hash <= node /\ forall k, k ∈ keys -> hash <= k -> node <= k) \/
   ((forall k, k ∈ keys -> k < hash) /\ forall k, k ∈ keys -> node <= k)).

(** A call that changes the shard list. *)
Inductive change (B : Type) : Type :=
  | Add (backend : B)
  | Remove (index : Z).
Arguments Add {B} backend.
Arguments Remove {B} index.

Definition change_range {B} (r : Range.RangeSharder B) (ch : change B) : Range.RangeSharder B :=
  match ch with
  | Add backend => (Range.AddShard backend r).1
  | Remove index => (Range.RemoveShard index r).1
  end.

Definition change_consistent {B} (c : Consistent.ConsistentHashSharder B) (ch : change B)
  : Consistent.ConsistentHashSharder B :=
  match ch with
  | Add backend => (Consistent.AddShard backend c).1
  | Remove index => (Consistent.RemoveShard index c).1
  end.

(** A sequence of bytes read as a number, the most significant byte
    first. *)
Definition big_endian (bytes : list Z) : Z :=
  fold_left (fun acc byte => acc * 256 + byte) bytes 0.

(** The first byte of a key as a number, zero for the empty key. *)
Definition first_letter (key : string) : Z := Z.of_N (Range.first_byte key).

(** The boundaries [AddShard] gives the shards of a range sharder from the
    [a]-th on. *)
Definition boundaries (a n : nat) : list string :=
  (fun i : nat => string_of_rune (97 + Z.of_nat i)) <$> seq a n.

(** A text of one-byte characters (ASCII). *)
Fixpoint is_ascii (s : string) : bool :=
  match s with
  | String c r => (byte_val c <? 128) && is_ascii r
  | EmptyString => true
  end.

(** A text without a colon. *)
Fixpoint no_colon (s : string) : bool :=
  match s with
  | String c r => negb (Ascii.eqb c ":") && no_colon r
  | EmptyString => true
  end.

(** The text ends with a colon. *)
Fixpoint last_is_colon (s : string) : bool :=
  match s with
  | String c r =>
      match r with
      | EmptyString => Ascii.eqb c ":"
      | String _ _ => last_is_colon r
      end
  | EmptyString => false
  end.

(** The text without its last character. *)
Fixpoint without_last (s : string) : string :=
  match s with
  | String c r =>
      match r with
      | EmptyString => EmptyString
      | String _ _ => String c (without_last r)
      end
  | EmptyString => EmptyString
  end.

(** The first loop of [ExtractOriginalKey] on a one-byte character. *)
Definition split_char (acc : list string * string) (c : ascii) : list string * string :=
  if Ascii.eqb c ":" then (acc.1 ++ [acc.2], "") else (acc.1, (acc.2 ++ String c "")%string).

End ShardingSpec.

(** ** Notions for the statements about the facade *)

Module FacadeSpec.
Import Go Facade.

Section AnyClient.
Context {V B T1 T2 : Type}.
Context `{!Codecs V, !BackendI B, !CacheI V T1, !CacheI V T2}.

Abbreviation Client := (CacheClient V B T1 T2).

(** The client with another sharding algorithm in its configuration. *)
Definition with_algorithm (a : string) (c : Client) : Client :=
  let cfg := config c in
  let sh := Sharding cfg in
  mkClient (backend c)
    (mkConfig (Backend cfg) (Compression cfg) (CompressionAlgorithm cfg)
       (Serializer cfg) (Distributed cfg) (Hierarchical cfg) (Memory cfg) (GRPC cfg)
       (L1 cfg) (L2 cfg)
       (Sharding.mkShardingConfig (Sharding.Enabled sh) a (Sharding.Replicas sh)
          (Sharding.Shards sh)))
    (shards c) (l1Cache c) (l2Cache c) (serializer c) (compressor c).

(** The shard [crc32(key) mod count]. *)
Definition route (key : string) (count : nat) : nat :=
  Z.to_nat (ChecksumIEEE key mod Z.of_nat count).

(** A backend method run on the shard in slot [i], the shard's new state
    written back. *)
Definition at_shard {R} (i : nat) (f : B -> B * R) (c : Client) : option (Client * R) :=
  shard ← shards c !! i;
  let '(shard', r) := f shard in
  Some (set_shards (<[i := shard']> (shards c)) c, r).

(** The number of shards [initSharding] creates. *)
Definition shardCount (c : Client) : nat :=
  Z.to_nat (if Sharding.Shards (Sharding (config c)) <=? 0 then 3
            else Sharding.Shards (Sharding (config c))).


(** The slot [getShard] picks for a key among the shards there are: the
    only one, or [route]. *)
Definition home (c : Client) (key : string) : nat :=
  if (length (shards c) =? 1)%nat then 0%nat else route key (length (shards c)).

(** The value the client's codecs read out of stored bytes, if any. *)
Definition decoded (c : Client) (data : string) : option V :=
  match decode c data with
  | Some (Ok v) => Some v
  | _ => None
  end.

(** The value a serializer reads out of stored bytes, if any. *)
Definition readable (ser : SerializerI V) (data : string) : option V :=
  match Deserialize ser data with
  | Ok v => Some v
  | Err _ => None
  end.

(** The bytes a serializer writes for a value, if any. *)
Definition written (ser : SerializerI V) (value : V) : option string :=
  match Serialize ser value with
  | Ok data => Some data
  | Err _ => None
  end.

(** A loop over the shards that stops at the first shard whose call fails:
    the shards up to that one with the state the call leaves them, the
    ones after it as they were, and the error. *)
Definition until_failure (f : B -> B * option string) (l : list B)
  : list B * option string :=
  match list_find (fun shard => is_Some (f shard).2) l with
  | Some (i, shard) =>
      (((fun s => (f s).1) <$> take (S i) l) ++ drop (S i) l, (f shard).2)
  | None => ((fun s => (f s).1) <$> l, None)
  end.

End AnyClient.

Section Statistics.
Context {B : Type} `{!BackendBatchI B}.

(** The statistics of the shards that answer [Stats], in the order of the
    shards. *)
Definition answers (e : Env) (l : list B) : list Memory.Stats :=
  omap (fun shard => match (backend_Stats e shard).2 with
                     | Ok st => Some st
                     | Err _ => None
                     end) l.

(** The sum of a counter over a list of statistics. *)
Definition total (f : Memory.Stats -> Z) (l : list Memory.Stats) : Z :=
  foldr (fun st acc => f st + acc) 0 l.

(** The longest uptime of a list of statistics, zero at least. *)
Definition longest (l : list Memory.Stats) : Z :=
  foldr (fun st acc => Z.max (Memory.Uptime st) acc) 0 l.

End Statistics.

Section MemoryL1.
Context {V B T2 : Type}.
Context `{!Codecs V, !BackendI B, !CacheI V T2}.

(** The TTL of a promotion: the one configured for L1, five minutes when
    none is. *)
Definition promotionTTL
    (c : CacheClient V B (CacheClient V Memory.MemoryBackend Empty_set Empty_set) T2)
  : Duration :=
  if TTL (L1 (config c)) =? 0 then 5 * Minute else TTL (L1 (config c)).

End MemoryL1.

End FacadeSpec.

(** ** Stand-ins for the external collaborators, for concrete runs *)

Module Doubles.
Import Go Facade.

(** A codec that stores a text as it is. *)
Definition plain : SerializerI string := mkSerializer string Ok Ok.

(** A codec that refuses every value. *)
Definition refusing : SerializerI string :=
  mkSerializer string (fun _ => Err "unsupported value") Ok.

#[export] Instance plain_Codecs : Codecs string := {
  NewSerializer name :=
    if contains ["json"; "gob"; "msgpack"] name then Ok plain
    else Err ("unsupported serializer type: " ++ name)%string;
  NewCompressor name :=
    if contains ["gzip"; "lz4"; "snappy"] name then Ok (mkCompressor Ok Ok)
    else Err ("unsupported compression algorithm: " ++ name)%string
}.

(** A tier that answers [Health] and [Close] as it is told and writes down
    the methods called on it; it holds no keys. *)
Record Stub : Type := mkStub {
  health_answer : option string;
  close_answer : option string;
  calls : list string
}.

Definition called (name : string) (t : Stub) : Stub :=
  mkStub (health_answer t) (close_answer t) (calls t ++ [name]).

#[export] Instance Stub_CacheI : CacheI string Stub := {
  cache_New _ _ := Ok (mkStub None None []);
  cache_Get _ _ t := Some (called "Get" t, Err "key not found");
  cache_Set _ _ _ _ t := Some (called "Set" t, None);
  cache_Delete _ _ t := Some (called "Delete" t, None);
  cache_Exists _ _ t := Some (called "Exists" t, Ok false);
  cache_Increment _ _ delta t := Some (called "Increment" t, Ok delta);
  cache_Decrement _ _ delta t := Some (called "Decrement" t, Ok (- delta));
  cache_Expire _ _ _ t := Some (called "Expire" t, Some "key not found");
  cache_TTL _ _ t := Some (called "TTL" t, Err "key not found");
  cache_Clear _ t := Some (called "Clear" t, None);
  cache_Health _ t := Some (called "Health" t, health_answer t);
  cache_Close t := Some (called "Close" t, close_answer t)
}.

(** A single-backend client over the memory store, as a tier. *)
Definition MemoryClient : Type :=
  CacheClient string Memory.MemoryBackend Empty_set Empty_set.

Definition hierarchicalConfig : Config :=
  mkConfig "memory" false "" "json" false true Facade.zeroMemoryConfig (mkGRPC 0 [])
    (mkCacheConfig "memory" "" 0 Facade.zeroMemoryConfig)
    (mkCacheConfig "memory" "" 0 Facade.zeroMemoryConfig)
    (Sharding.mkShardingConfig false "" 0 0).

(** A hierarchical client over two stubs, given their answers to [Health]
    and [Close]. *)
Definition stub_client (h1 c1 h2 c2 : option string)
  : CacheClient string Memory.MemoryBackend Stub Stub :=
  mkClient None hierarchicalConfig [] (Some (mkStub h1 c1 [])) (Some (mkStub h2 c2 []))
    (Some plain) None.

(** A fresh memory store and a single-backend client over it. *)
Definition fresh_store (cfg : Memory.MemoryConfig) : Memory.MemoryBackend :=
  Memory.mkBackend ∅ (Memory.mkStats 0 0 0 0 0 1) cfg false 0 0.

Definition memory_client (codec : SerializerI string) (m : Memory.MemoryBackend)
  : MemoryClient :=
  mkClient (Some m)
    (mkConfig "memory" false "" "json" false false (Memory.config m) (mkGRPC 0 [])
       Facade.zeroCacheConfig Facade.zeroCacheConfig
       (Sharding.mkShardingConfig false "" 0 0))
    [] None None (Some codec) None.

(** A hierarchical client over two memory-backed tiers: L1 empty, with the
    given codec, L2 holding the text "1" under the key "x". *)
Definition tiered_client (l1_codec : SerializerI string)
  : CacheClient string Memory.MemoryBackend MemoryClient MemoryClient :=
  let m := fresh_store (Memory.mkConfig "" 0 "lru" 0 0) in
  mkClient None hierarchicalConfig []
    (Some (memory_client l1_codec m))
    (Some (memory_client plain (Memory.Set_ (mkEnv 2 []) "x" "1" 0 m).1))
    (Some plain) None.

Definition shardedConfig (algorithm : string) : Config :=
  mkConfig "memory" false "" "json" true false
    (Memory.mkConfig "" 0 "" 0 0) (mkGRPC 0 ["peer:50051"])
    Facade.zeroCacheConfig Facade.zeroCacheConfig
    (Sharding.mkShardingConfig true algorithm 0 3).

End Doubles.

(** * Properties *)

(** ** The models of the Go library on known values *)

Example ChecksumIEEE_check_value : Go.ChecksumIEEE "123456789" = 3421780262.
Proof. vm_compute. reflexivity. Qed.

Example json_Unmarshal_int64_examples :
  Go.json_Unmarshal_int64 " -12 " = Some (-12) /\
  Go.json_Unmarshal_int64 "null" = Some 0 /\
  Go.json_Unmarshal_int64 "05" = None /\
  Go.json_Unmarshal_int64 "+5" = None /\
  Go.json_Unmarshal_int64 "1.0" = None /\
  Go.json_Unmarshal_int64 "9223372036854775807" = Some Go.int64_max /\
  Go.json_Unmarshal_int64 "9223372036854775808" = None.
Proof. vm_compute. repeat split; reflexivity. Qed.

Example Sprintf_d_examples :
  Go.Sprintf_d (-120) = "-120" /\ Go.Sprintf_d 0 = "0".
Proof. vm_compute. split; reflexivity. Qed.

Example sort_examples :
  Go.sort_Slice [3; 1; 2; 1] = [1; 1; 2; 3] /\
  Go.sort_Search 4 (fun i => 2 <=? nth i [1; 1; 2; 3] 0) = 2%nat.
Proof. vm_compute. split; reflexivity. Qed.

(** ** What [fmt.Sprintf("%d", n)] writes, [json.Unmarshal] reads back *)

Module GoProps.
Import Go Spec.

Lemma digit_no_space c : is_digit c = true -> is_json_space c = false.
Proof.
  unfold is_digit, is_json_space. intros H.
  apply andb_true_iff in H as [H1 H2].
  apply N.leb_le in H1. apply N.leb_le in H2.
  repeat (apply orb_false_iff; split); apply N.eqb_neq; lia.
Qed.

Lemma digit_not_minus c : is_digit c = true -> Ascii.eqb c "-" = false.
Proof.
  unfold is_digit. intros H. apply andb_true_iff in H as [H1 _].
  apply N.leb_le in H1. apply Ascii.eqb_neq. intros ->. vm_compute in H1.
  apply H1. reflexivity.
Qed.

Lemma all_digits_no_spaces s : all_digits s = true -> no_spaces s = true.
Proof.
  induction s as [|c r IH]; simpl; [reflexivity|].
  intros H. apply andb_true_iff in H as [Hc Hr].
  rewrite (digit_no_space c Hc), IH by assumption. reflexivity.
Qed.

Lemma trim_left_no_spaces s : no_spaces s = true -> trim_left s = s.
Proof.
  destruct s as [|c r]; simpl; [reflexivity|].
  intros H. apply andb_true_iff in H as [Hc _].
  apply negb_true_iff in Hc. rewrite Hc. reflexivity.
Qed.

Lemma trim_right_no_spaces s : no_spaces s = true -> trim_right s = s.
Proof.
  induction s as [|c r IH]; [reflexivity|].
  cbn [no_spaces trim_right]. intros H. apply andb_true_iff in H as [Hc Hr].
  apply negb_true_iff in Hc. rewrite (IH Hr), Hc. destruct r; reflexivity.
Qed.

Lemma trim_no_spaces s : no_spaces s = true -> trim s = s.
Proof.
  intros H. unfold trim. rewrite trim_left_no_spaces by assumption.
  apply trim_right_no_spaces, H.
Qed.

Lemma all_digits_string_of_uint d : all_digits (NilEmpty.string_of_uint d) = true.
Proof. induction d; simpl; auto. Qed.

(** The decimal digits of a positive number start with a digit that is not
    zero. *)
Lemma to_uint_head p :
  Pos.to_uint p <> Decimal.Nil /\ forall d, Pos.to_uint p <> Decimal.D0 d.
Proof.
  split; [apply DecimalPos.Unsigned.to_uint_nonnil|].
  intros d Hd.
  assert (Hn : Decimal.unorm (Pos.to_uint p) = Pos.to_uint p).
  { rewrite <- DecimalPos.Unsigned.to_of, DecimalPos.Unsigned.of_to. reflexivity. }
  assert (Hz : Decimal.nzhead (Pos.to_uint p) <> Decimal.Nil).
  { intros Hnil. apply DecimalFacts.unorm_0 in Hnil. rewrite Hn in Hnil.
    exact (DecimalPos.Unsigned.to_uint_nonzero p Hnil). }
  rewrite (DecimalFacts.unorm_nzhead _ Hz) in Hn.
  rewrite Hd in Hn. exact (DecimalFacts.nzhead_nonzero _ _ Hn).
Qed.

(** The text of a positive number is an integer literal of JSON, without
    spaces, and is not the word null. *)
Lemma positive_literal p :
  let s := NilEmpty.string_of_uint (Pos.to_uint p) in
  all_digits s = true /\ json_int_literal s = true /\ String.eqb s "null" = false.
Proof.
  destruct (to_uint_head p) as [Hnil Hzero].
  pose proof (all_digits_string_of_uint (Pos.to_uint p)) as Hall.
  destruct (Pos.to_uint p) as [|d|d|d|d|d|d|d|d|d|d];
    try (exfalso; apply Hnil; reflexivity);
    try (exfalso; apply (Hzero d); reflexivity);
    cbn zeta; (split; [exact Hall|]); split;
    solve [ exact Hall | reflexivity ].
Qed.

Lemma string_of_uint_nonnil d :
  d <> Decimal.Nil -> NilZero.string_of_uint d = NilEmpty.string_of_uint d.
Proof. destruct d; [intros H; exfalso; apply H|..]; reflexivity. Qed.

Lemma json_reads_Sprintf_d n :
  int64_min <= n <= int64_max -> json_Unmarshal_int64 (Sprintf_d n) = Some n.
Proof.
  intros Hn. unfold json_Unmarshal_int64, Sprintf_d.
  assert (Hisi : NilZero.int_of_string (NilZero.string_of_int (Z.to_int n))
                 = Some (Z.to_int n)).
  { apply NilZero.isi; destruct n; simpl; intros [= H];
      try discriminate; exact (proj1 (to_uint_head _) H). }
  assert (Hrange : (int64_min <=? n) && (n <=? int64_max) = true).
  { apply andb_true_iff. split; apply Z.leb_le; lia. }
  destruct n as [|p|p].
  - vm_compute. reflexivity.
  - destruct (positive_literal p) as (Hall & Hlit & Hnull).
    destruct (to_uint_head p) as [Hnil _].
    cbn [Z.to_int NilZero.string_of_int] in *.
    rewrite string_of_uint_nonnil in * by assumption.
    rewrite trim_no_spaces by (apply all_digits_no_spaces, Hall).
    rewrite Hnull, Hlit, Hisi. cbn [Z.of_int].
    change (Z.of_uint (Pos.to_uint p)) with (Z.of_int (Z.to_int (Z.pos p))).
    rewrite DecimalZ.of_to, Hrange. reflexivity.
  - destruct (positive_literal p) as (Hall & Hlit & Hnull).
    destruct (to_uint_head p) as [Hnil _].
    cbn [Z.to_int NilZero.string_of_int] in *.
    rewrite string_of_uint_nonnil in * by assumption.
    rewrite trim_no_spaces
      by (cbn [no_spaces]; rewrite (all_digits_no_spaces _ Hall); reflexivity).
    change (String.eqb (String "-" ?s) "null") with false.
    cbn [String.eqb Ascii.eqb Bool.eqb andb].
    assert (Hl : json_int_literal
                   (String "-" (NilEmpty.string_of_uint (Pos.to_uint p))) = true).
    { revert Hlit Hall. unfold json_int_literal.
      destruct (NilEmpty.string_of_uint (Pos.to_uint p)) as [|c r]; [discriminate|].
      cbn [all_digits]. intros H Hd. apply andb_true_iff in Hd as [Hc _].
      rewrite (digit_not_minus c Hc) in H. exact H. }
    rewrite Hl, Hisi.
    change (Z.of_int (Decimal.Neg (Pos.to_uint p)))
      with (Z.of_int (Z.to_int (Z.neg p))).
    rewrite DecimalZ.of_to, Hrange. reflexivity.
Qed.

(** The fuel of [sort_Search] is enough: the search has ended when the
    fuel is spent, and more fuel changes nothing. *)
Lemma search_loop_fuel f : forall fuel extra i j,
  (j - i <= fuel)%nat ->
  search_loop (fuel + extra) f i j = search_loop fuel f i j /\
  (i <= search_loop fuel f i j)%nat /\ (i <= j -> search_loop fuel f i j <= j)%nat.
Proof.
  induction fuel as [|fuel IH]; intros extra i j Hfuel.
  - cbn [search_loop Nat.add]. split; [|split; lia].
    destruct extra as [|extra]; cbn [search_loop]; [reflexivity|].
    destruct (Nat.ltb_spec i j); [lia | reflexivity].
  - cbn [search_loop Nat.add]. destruct (Nat.ltb_spec i j) as [Hlt|Hge];
      [|split; [reflexivity | lia]].
    assert (Hh : (i <= (i + j) / 2 < j)%nat).
    { split; [apply Nat.div_le_lower_bound; lia | apply Nat.Div0.div_lt_upper_bound; lia]. }
    cbn zeta. destruct (negb (f ((i + j) / 2)%nat)).
    + destruct (IH extra ((i + j) / 2 + 1)%nat j ltac:(lia)) as (H1 & H2 & H3).
      split; [exact H1 | lia].
    + destruct (IH extra i ((i + j) / 2)%nat ltac:(lia)) as (H1 & H2 & H3).
      split; [exact H1 | lia].
Qed.

Lemma sort_Search_fuel n f extra :
  search_loop (n + extra) f 0 n = sort_Search n f /\ (sort_Search n f <= n)%nat.
Proof.
  unfold sort_Search.
  destruct (search_loop_fuel f n extra 0%nat n ltac:(lia)) as (H1 & _ & H3).
  split; [exact H1 | lia].
Qed.

Lemma int64_cancel d : int64 (d + int64 (- d)) = 0.
Proof.
  unfold int64.
  replace (d + ((- d + 2 ^ 63) mod 2 ^ 64 - 2 ^ 63) + 2 ^ 63)
    with (d + (- d + 2 ^ 63) mod 2 ^ 64) by lia.
  rewrite Z.add_mod_idemp_r by lia.
  replace (d + (- d + 2 ^ 63)) with (2 ^ 63) by lia.
  reflexivity.
Qed.

End GoProps.

(** ** The memory store *)

Module MemoryProps.
Import Go Memory Spec Ops.

(** *** Arithmetic of [int64] *)


Lemma int64_id z : in_int64 z -> int64 z = z.
Proof.
  unfold in_int64, int64, int64_min, int64_max. intros H.
  rewrite Z.mod_small; lia.
Qed.

Lemma int64_range z : in_int64 (int64 z).
Proof.
  unfold in_int64, int64, int64_min, int64_max.
  pose proof (Z.mod_pos_bound (z + 2 ^ 63) (2 ^ 64) ltac:(lia)). lia.
Qed.

(** Removes the wrap-around where the bounds at hand show there is none. *)
Ltac unwrap :=
  repeat match goal with
         | |- context [int64 ?z] =>
             rewrite (int64_id z) by (unfold in_int64, int64_min, int64_max in *; lia)
         end.

(** *** The counters along the operations *)

Lemma headroom_unfold k s :
  headroom k s <->
  (int64_min <= hits s /\ hits s + 2 * k <= int64_max) /\
  (int64_min <= misses s /\ misses s + 2 * k <= int64_max) /\
  (int64_min <= sets s /\ sets s + 2 * k <= int64_max) /\
  (int64_min <= deletes s /\ deletes s + 2 * k <= int64_max) /\
  (int64_min <= evictions s /\ evictions s + 2 * k <= int64_max).
Proof.
  unfold headroom, counters. rewrite !Forall_cons, Forall_nil. tauto.
Qed.

Lemma within_refl k s : 0 <= k -> within k s s.
Proof. unfold within. lia. Qed.

Lemma within_trans j k s t u :
  within j s t -> within k t u -> within (j + k) s u.
Proof. unfold within. lia. Qed.

Lemma within_weaken j k s t : j <= k -> within j s t -> within k s t.
Proof. unfold within. lia. Qed.

Lemma headroom_after j k s t :
  headroom (j + k) s -> within j s t -> headroom k t.
Proof. rewrite !headroom_unfold. unfold within. lia. Qed.

Lemma headroom_weaken j k s : 0 <= k <= j -> headroom j s -> headroom k s.
Proof. rewrite !headroom_unfold. lia. Qed.

Lemma within_le k s t : within k s t -> counters_le s t.
Proof. unfold within, counters_le. lia. Qed.

Lemma evict_key_stats k m : evicts (stats m) (stats (evict_key k m)).
Proof. unfold evict_key, evicts. destruct (data m !! k); simpl; auto. Qed.

Lemma evictLRU_stats e m : evicts (stats m) (stats (evictLRU e m)).
Proof.
  unfold evictLRU. destruct (fold_left _ _ _) as [k t].
  destruct (negb _); [apply evict_key_stats | left; reflexivity].
Qed.

Lemma evictLFU_stats e m : evicts (stats m) (stats (evictLFU e m)).
Proof.
  unfold evictLFU. destruct (fold_left _ _ _) as [k t].
  destruct (negb _); [apply evict_key_stats | left; reflexivity].
Qed.

Lemma evictRandom_stats e m : evicts (stats m) (stats (evictRandom e m)).
Proof.
  unfold evictRandom. destruct (range e (data m)) as [|[k it] l];
    [left; reflexivity | apply evict_key_stats].
Qed.

Lemma evictItems_stats e n m : evicts (stats m) (stats (evictItems e n m)).
Proof.
  unfold evictItems.
  repeat destruct (String.eqb _ _);
    auto using evictLRU_stats, evictLFU_stats, evictRandom_stats.
Qed.

Lemma Get_within e key m :
  headroom 1 (stats m) -> within 1 (stats m) (stats (Get e key m).1).
Proof.
  rewrite headroom_unfold. unfold Get, within.
  destruct (data m !! key) as [item|]; [destruct (expired e item)|];
    simpl; intros; unwrap; lia.
Qed.

Lemma Set_stats e key v ttl m :
  exists s1 s2, evicts (stats m) s1 /\ evicts s1 s2 /\
    stats (Set_ e key v ttl m).1 = add_set s2.
Proof.
  unfold Set_. cbn zeta.
  match goal with |- context [evictLRU e ?x] => set (m1 := x) end.
  match goal with |- context [data ?x !! key] => set (m2 := x) end.
  exists (stats m1), (stats m2). repeat split.
  - clear m2. subst m1.
    match goal with |- context [if ?c then _ else _] => destruct c end;
      [apply evictItems_stats | left; reflexivity].
  - subst m2.
    match goal with |- context [if ?c then _ else _] => destruct c end;
      [apply evictLRU_stats | left; reflexivity].
  - destruct (data m2 !! key); reflexivity.
Qed.

Lemma Set_within e key v ttl m :
  headroom 1 (stats m) -> within 1 (stats m) (stats (Set_ e key v ttl m).1).
Proof.
  rewrite headroom_unfold. intros Hh.
  destruct (Set_stats e key v ttl m) as (s1 & s2 & H1 & H2 & ->).
  unfold within.
  destruct H1 as [-> | ->], H2 as [-> | ->]; simpl; unwrap; lia.
Qed.

Lemma Delete_within e key m :
  headroom 1 (stats m) -> within 1 (stats m) (stats (Delete e key m).1).
Proof.
  rewrite headroom_unfold. unfold Delete, within.
  destruct (data m !! key); simpl; intros; unwrap; lia.
Qed.

Lemma Exists_stats e key m : stats (Exists e key m).1 = stats m.
Proof.
  unfold Exists. destruct (data m !! key) as [item|]; [destruct (expired e item)|];
    reflexivity.
Qed.

Lemma Increment_stats e key delta m : stats (Increment e key delta m).1 = stats m.
Proof.
  unfold Increment.
  destruct (data m !! key) as [item|]; [destruct (json_Unmarshal_int64 _)|];
    reflexivity.
Qed.

Lemma Expire_stats e key ttl m : stats (Expire e key ttl m).1 = stats m.
Proof. unfold Expire. destruct (data m !! key); reflexivity. Qed.

Lemma TTL_stats e key m : stats (TTL e key m).1 = stats m.
Proof.
  unfold TTL. destruct (data m !! key) as [item|]; [|reflexivity].
  destruct (IsZero _); [reflexivity|]. destruct (_ <? 0); reflexivity.
Qed.

Lemma cleanupExpired_stats e m : stats (cleanupExpired e m) = stats m.
Proof.
  unfold cleanupExpired. generalize (range e (data m)). intros l.
  revert m. induction l as [|[k it] l IH]; intros m; simpl; [reflexivity|].
  rewrite IH. destruct (expired e it); reflexivity.
Qed.

Lemma GetMulti_within e keys m :
  headroom (Z.of_nat (length keys)) (stats m) ->
  within (Z.of_nat (length keys)) (stats m) (stats (GetMulti e keys m).1).
Proof.
  unfold GetMulti.
  set (f := fun (acc : MemoryBackend * gmap string string) key => _).
  assert (G : forall keys acc,
             headroom (Z.of_nat (length keys)) (stats acc.1) ->
             within (Z.of_nat (length keys)) (stats acc.1)
               (stats (fold_left f keys acc).1)).
  { clear keys m. induction keys as [|key keys IH]; intros acc Hh.
    - apply within_refl. simpl. lia.
    - cbn [fold_left length] in Hh |- *. rewrite Nat2Z.inj_succ in *.
      replace (Z.succ (Z.of_nat (length keys))) with (1 + Z.of_nat (length keys)) in * by lia.
      assert (H1 : within 1 (stats acc.1) (stats (f acc key).1)).
      { subst f. cbn beta.
        pose proof (Get_within e key acc.1
                      (headroom_weaken (1 + Z.of_nat (length keys)) 1 _ ltac:(lia) Hh)) as Hg.
        destruct (Get e key acc.1) as [m1 [v|err]]; exact Hg. }
      eapply within_trans; [exact H1|].
      apply IH. eapply headroom_after; eassumption. }
  intros Hh. specialize (G keys (m, ∅) Hh).
  destruct (fold_left f keys (m, ∅)) as [m' r]. exact G.
Qed.

Lemma SetMulti_loop_within e items ttl : forall m,
  headroom (Z.of_nat (length items)) (stats m) ->
  within (Z.of_nat (length items)) (stats m) (stats (SetMulti_loop e items ttl m).1).
Proof.
  induction items as [|[key v] items IH]; intros m Hh.
  - apply within_refl. simpl. lia.
  - cbn [SetMulti_loop length] in Hh |- *. rewrite Nat2Z.inj_succ in *.
    replace (Z.succ (Z.of_nat (length items))) with (1 + Z.of_nat (length items)) in * by lia.
    pose proof (Set_within e key v ttl m
                  (headroom_weaken (1 + Z.of_nat (length items)) 1 _ ltac:(lia) Hh)) as H1.
    destruct (Set_ e key v ttl m) as [m1 [err|]] eqn:E; simpl in H1 |- *.
    + eapply within_weaken; [|exact H1]. lia.
    + eapply within_trans; [exact H1|]. apply IH.
      eapply headroom_after; eassumption.
Qed.

Lemma DeleteMulti_within e keys : forall m,
  headroom (Z.of_nat (length keys)) (stats m) ->
  within (Z.of_nat (length keys)) (stats m) (stats (DeleteMulti e keys m).1).
Proof.
  induction keys as [|key keys IH]; intros m Hh.
  - apply within_refl. simpl. lia.
  - cbn [DeleteMulti length] in Hh |- *. rewrite Nat2Z.inj_succ in *.
    replace (Z.succ (Z.of_nat (length keys))) with (1 + Z.of_nat (length keys)) in * by lia.
    pose proof (Delete_within e key m
                  (headroom_weaken (1 + Z.of_nat (length keys)) 1 _ ltac:(lia) Hh)) as H1.
    destruct (Delete e key m) as [m1 [err|]] eqn:E; simpl in H1 |- *.
    + eapply within_weaken; [|exact H1]. lia.
    + eapply within_trans; [exact H1|]. apply IH.
      eapply headroom_after; eassumption.
Qed.

Lemma calls_nonneg e o : 0 <= calls e o.
Proof. destruct o; simpl; lia. Qed.

Lemma run_within e o m :
  headroom (calls e o) (stats m) ->
  within (calls e o) (stats m) (stats (run e o m)).
Proof.
  destruct o; cbn [run calls]; intros Hh;
    try (rewrite ?Exists_stats, ?Increment_stats, ?Expire_stats, ?TTL_stats,
           ?cleanupExpired_stats; apply within_refl; lia);
    auto using Get_within, Set_within, Delete_within, GetMulti_within,
      DeleteMulti_within.
  - apply SetMulti_loop_within. exact Hh.
  - unfold Decrement. rewrite Increment_stats. apply within_refl. lia.
Qed.

(** *** The size accounting along the operations that keep it *)

Lemma len_nonneg s : 0 <= len s.
Proof. unfold len. lia. Qed.

Lemma stored_size_comm (j1 j2 : string) (z1 z2 : memoryItem) (y : Z) :
  y + len (value z2) + len (value z1) = y + len (value z1) + len (value z2).
Proof. lia. Qed.

Lemma stored_size_empty : stored_size ∅ = 0.
Proof. unfold stored_size. apply map_fold_empty. Qed.

Lemma stored_size_insert_None d k it :
  d !! k = None -> stored_size (<[k := it]> d) = stored_size d + len (value it).
Proof.
  intros H. unfold stored_size.
  rewrite map_fold_insert_L; [reflexivity | | exact H].
  intros. apply stored_size_comm; assumption.
Qed.

Lemma stored_size_delete d k it :
  d !! k = Some it -> stored_size (delete k d) = stored_size d - len (value it).
Proof.
  intros H. rewrite <- (insert_delete_id d k it H) at 2.
  rewrite stored_size_insert_None by apply lookup_delete_eq. lia.
Qed.

Lemma stored_size_insert_Some d k old it :
  d !! k = Some old ->
  stored_size (<[k := it]> d) = stored_size d - len (value old) + len (value it).
Proof.
  intros H. rewrite <- insert_delete_eq.
  rewrite stored_size_insert_None by apply lookup_delete_eq.
  rewrite (stored_size_delete d k old H). reflexivity.
Qed.

Lemma stored_size_nonneg d : 0 <= stored_size d.
Proof.
  induction d as [|j x d Hj IH] using map_ind.
  - rewrite stored_size_empty. lia.
  - rewrite stored_size_insert_None by exact Hj.
    pose proof (len_nonneg (value x)). lia.
Qed.

Lemma stored_size_lookup d k it : d !! k = Some it -> len (value it) <= stored_size d.
Proof.
  intros H. rewrite <- (insert_delete_id d k it H).
  rewrite stored_size_insert_None by apply lookup_delete_eq.
  pose proof (stored_size_nonneg (delete k d)). lia.
Qed.

Lemma evict_key_accounted k m : accounted m -> accounted (evict_key k m).
Proof.
  intros [Hc Hb]. unfold evict_key. destruct (data m !! k) as [item|] eqn:Hk;
    [|split; assumption].
  pose proof (stored_size_lookup _ _ _ Hk). pose proof (len_nonneg (value item)).
  unfold accounted. cbn. rewrite (stored_size_delete _ _ _ Hk), Hc.
  unfold int64_max in *. split; [unwrap; reflexivity | lia].
Qed.

Lemma evictLRU_accounted e m : accounted m -> accounted (evictLRU e m).
Proof.
  intros H. unfold evictLRU. destruct (fold_left _ _ _) as [k t].
  destruct (negb _); [apply evict_key_accounted|]; exact H.
Qed.

Lemma evictLFU_accounted e m : accounted m -> accounted (evictLFU e m).
Proof.
  intros H. unfold evictLFU. destruct (fold_left _ _ _) as [k t].
  destruct (negb _); [apply evict_key_accounted|]; exact H.
Qed.

Lemma evictRandom_accounted e m : accounted m -> accounted (evictRandom e m).
Proof.
  intros H. unfold evictRandom. destruct (range e (data m)) as [|[k it] l];
    [|apply evict_key_accounted]; exact H.
Qed.

Lemma evictItems_accounted e n m : accounted m -> accounted (evictItems e n m).
Proof.
  intros H. unfold evictItems.
  repeat destruct (String.eqb _ _);
    auto using evictLRU_accounted, evictLFU_accounted, evictRandom_accounted.
Qed.

Lemma evict_key_size_le k m : stored_size (data (evict_key k m)) <= stored_size (data m).
Proof.
  unfold evict_key. destruct (data m !! k) as [item|] eqn:Hk; [|lia].
  cbn. rewrite (stored_size_delete _ _ _ Hk). pose proof (len_nonneg (value item)). lia.
Qed.

Lemma evictLRU_size_le e m : stored_size (data (evictLRU e m)) <= stored_size (data m).
Proof.
  unfold evictLRU. destruct (fold_left _ _ _) as [k t].
  destruct (negb _); [apply evict_key_size_le | lia].
Qed.

Lemma evictItems_size_le e n m :
  stored_size (data (evictItems e n m)) <= stored_size (data m).
Proof.
  unfold evictItems, evictLFU, evictRandom.
  repeat destruct (String.eqb _ _); try apply evictLRU_size_le.
  - destruct (fold_left _ _ _) as [k t].
    destruct (negb _); [apply evict_key_size_le | lia].
  - destruct (range e (data m)) as [|[k it] l]; [lia | apply evict_key_size_le].
Qed.

Lemma Set_accounted e key v ttl m :
  accounted m -> stored_size (data m) + len v <= int64_max ->
  accounted (Set_ e key v ttl m).1.
Proof.
  intros Ha Hroom. unfold Set_. cbn zeta.
  match goal with |- context [evictLRU e ?x] => set (m1 := x) end.
  match goal with |- context [data ?x !! key] => set (m2 := x) end.
  assert (H1 : accounted m1 /\ stored_size (data m1) <= stored_size (data m)).
  { clear m2. subst m1.
    match goal with |- context [if ?c then _ else _] => destruct c end;
      [split; [apply evictItems_accounted, Ha | apply evictItems_size_le]
      | split; [exact Ha | lia]]. }
  assert (H2 : accounted m2 /\ stored_size (data m2) <= stored_size (data m)).
  { destruct H1 as [H1 H1']. subst m2.
    match goal with |- context [if ?c then _ else _] => destruct c end;
      [split; [apply evictLRU_accounted, H1
              | pose proof (evictLRU_size_le e m1); lia]
      | split; [exact H1 | lia]]. }
  clearbody m1 m2. destruct H2 as [[Hc Hb] Hle].
  pose proof (stored_size_nonneg (data m2)). pose proof (len_nonneg v).
  unfold accounted. destruct (data m2 !! key) as [old|] eqn:Hk; cbn.
  - pose proof (stored_size_lookup _ _ _ Hk). pose proof (len_nonneg (value old)).
    rewrite (stored_size_insert_Some _ _ old _ Hk). cbn. rewrite Hc.
    unfold int64_max in *. split; [unwrap; reflexivity | lia].
  - rewrite (stored_size_insert_None _ _ _ Hk). cbn. rewrite Hc.
    unfold int64_max in *. split; [unwrap; reflexivity | lia].
Qed.

Lemma Delete_accounted e key m : accounted m -> accounted (Delete e key m).1.
Proof.
  intros [Hc Hb]. unfold Delete. destruct (data m !! key) as [item|] eqn:Hk;
    [|split; assumption].
  pose proof (stored_size_lookup _ _ _ Hk). pose proof (len_nonneg (value item)).
  unfold accounted. cbn. rewrite (stored_size_delete _ _ _ Hk), Hc.
  unfold int64_max in *. split; [unwrap; reflexivity | lia].
Qed.

Lemma Clear_accounted e m : accounted (Clear e m).1.
Proof.
  unfold accounted, Clear. cbn. rewrite stored_size_empty.
  split; [reflexivity | unfold int64_max; lia].
Qed.

Lemma cleanup_fold_accounted e l : forall m,
  NoDup l.*1 -> (forall k it, (k, it) ∈ l -> data m !! k = Some it) ->
  accounted m -> accounted (fold_left (cleanup_step e) l m).
Proof.
  induction l as [|[k it] l IH]; intros m Hnd Hin Ha; [exact Ha|].
  cbn [fold_left]. apply NoDup_cons in Hnd as [Hk Hnd]. apply IH; [exact Hnd| |].
  - intros k' it' Hin'. unfold cleanup_step.
    assert (k' <> k).
    { intros ->. apply Hk. apply list_elem_of_fmap. exists (k, it'). auto. }
    destruct (expired e it); cbn; [rewrite lookup_delete_ne by congruence|];
      apply Hin; right; exact Hin'.
  - unfold cleanup_step. destruct (expired e it); [|exact Ha].
    assert (Hl : data m !! k = Some it) by (apply Hin; left).
    destruct Ha as [Hc Hb].
    pose proof (stored_size_lookup _ _ _ Hl). pose proof (len_nonneg (value it)).
    unfold accounted. cbn. rewrite (stored_size_delete _ _ _ Hl), Hc.
    unfold int64_max in *. split; [unwrap; reflexivity | lia].
Qed.

Lemma range_spec {A} e (d : gmap string A) :
  NoDup (order e) ->
  NoDup (range e d).*1 /\ forall k it, (k, it) ∈ range e d -> d !! k = Some it.
Proof.
  unfold range. induction (order e) as [|k l IH]; intros Hnd; cbn.
  - split; [constructor | intros k it H; inversion H].
  - apply NoDup_cons in Hnd as [Hk Hnd]. destruct (IH Hnd) as [IH1 IH2].
    destruct (d !! k) as [it|] eqn:E; cbn; [|split; assumption].
    split.
    + constructor; [|exact IH1]. intros Hin.
      apply list_elem_of_fmap in Hin as ([k' it'] & -> & Hin).
      apply list_elem_of_omap in Hin as (k0 & Hk0 & Heq).
      destruct (d !! k0); cbn in Heq; [|discriminate].
      injection Heq as <- _. exact (Hk Hk0).
    + intros k' it' Hin. apply elem_of_cons in Hin as [[= -> ->]|Hin]; auto.
Qed.

Lemma cleanupExpired_accounted e m :
  NoDup (order e) -> accounted m -> accounted (cleanupExpired e m).
Proof.
  intros Hnd Ha. destruct (range_spec e (data m) Hnd) as [H1 H2].
  apply cleanup_fold_accounted; assumption.
Qed.

(** *** The key limit, when the empty string is not a key *)

Lemma evict_key_shrinks k m :
  shrinks (data m) (data (evict_key k m)) /\ config (evict_key k m) = config m.
Proof.
  unfold evict_key. destruct (data m !! k); cbn; split; try reflexivity;
    [right; eexists; reflexivity | left; reflexivity].
Qed.

Lemma evictLRU_shrinks e m :
  shrinks (data m) (data (evictLRU e m)) /\ config (evictLRU e m) = config m.
Proof.
  unfold evictLRU. destruct (fold_left _ _ _) as [k t].
  destruct (negb _); [apply evict_key_shrinks | split; [left|]; reflexivity].
Qed.

Lemma evictItems_shrinks e n m :
  shrinks (data m) (data (evictItems e n m)) /\ config (evictItems e n m) = config m.
Proof.
  unfold evictItems, evictLFU, evictRandom.
  repeat destruct (String.eqb _ _); try apply evictLRU_shrinks.
  - destruct (fold_left _ _ _) as [k t].
    destruct (negb _); [apply evict_key_shrinks | split; [left|]; reflexivity].
  - destruct (range e (data m)) as [|[k it] l];
      [split; [left|]; reflexivity | apply evict_key_shrinks].
Qed.

Lemma shrinks_lookup d d' k it : shrinks d d' -> d' !! k = Some it -> d !! k = Some it.
Proof.
  intros [-> | [j ->]]; [auto|]. rewrite lookup_delete.
  destruct (decide (j = k)); [discriminate | auto].
Qed.

Lemma shrinks_size d d' : shrinks d d' -> (size d' <= size d)%nat.
Proof.
  intros [-> | [j ->]]; [lia|]. rewrite map_size_delete.
  destruct (d !! j); cbn; lia.
Qed.

Lemma lru_fold_key l : forall k0 t0,
  (fold_left lru_step l (k0, t0)).1 = k0 \/ (fold_left lru_step l (k0, t0)).1 ∈ l.*1.
Proof.
  induction l as [|[k it] l IH]; intros k0 t0; cbn [fold_left]; [left; reflexivity|].
  assert (Hacc : lru_step (k0, t0) (k, it) = (k, accessTime it)
                 \/ lru_step (k0, t0) (k, it) = (k0, t0))
    by (unfold lru_step; destruct (_ || _); auto).
  destruct Hacc as [-> | ->].
  - right. cbn. apply elem_of_cons.
    destruct (IH k (accessTime it)) as [H | H]; [left | right]; exact H.
  - destruct (IH k0 t0) as [H | H]; [left; exact H|].
    right. cbn. apply elem_of_cons. right. exact H.
Qed.

(** On a table that is not empty, the loop of [evictLRU] ends on one of its
    keys. *)
Lemma lru_fold_picks l :
  l <> [] -> (fold_left lru_step l ("", 0)).1 ∈ l.*1.
Proof.
  destruct l as [|[k it] l]; [congruence|]. intros _. cbn [fold_left].
  change (lru_step ("", 0) (k, it)) with (k, accessTime it). cbn. apply elem_of_cons.
  destruct (lru_fold_key l k (accessTime it)) as [H | H]; [left | right]; exact H.
Qed.

Lemma range_nonempty {A} e (d : gmap string A) :
  order_covers e d -> (0 < size d)%nat -> range e d <> [].
Proof.
  intros [_ Hcov] Hsize Hnil.
  destruct (map_choose_or_empty d) as [(k & it & Hk) | ->];
    [|rewrite map_size_empty in Hsize; lia].
  assert (Hin : (k, it) ∈ range e d).
  { unfold range. apply list_elem_of_omap. exists k. split; [apply Hcov; eauto|].
    rewrite Hk. reflexivity. }
  rewrite Hnil in Hin. inversion Hin.
Qed.

Lemma evictLRU_removes_one e m :
  order_covers e (data m) -> data m !! "" = None -> (0 < size (data m))%nat ->
  size (data (evictLRU e m)) = pred (size (data m)).
Proof.
  intros Hcov Hempty Hsize.
  pose proof (lru_fold_picks _ (range_nonempty e (data m) Hcov Hsize)) as Hpick.
  unfold evictLRU. destruct (fold_left lru_step _ _) as [k t]. cbn [fst] in Hpick.
  apply list_elem_of_fmap in Hpick as ([k' it] & -> & Hin).
  apply (proj2 (range_spec e (data m) (proj1 Hcov))) in Hin. cbn [fst].
  destruct (String.eqb_spec k' "") as [-> | Hne]; [congruence|]. cbn [negb].
  unfold evict_key. rewrite Hin. cbn. apply map_size_delete_Some. eauto.
Qed.

(** As long as the empty string is not a key of the store, a [Set] keeps
    the number of keys within a limit of at least one. *)
Lemma Set_keeps_key_limit e key v ttl m :
  0 < MaxKeys (config m) ->
  order_covers e (data m) -> data m !! "" = None ->
  Z.of_nat (size (data m)) <= MaxKeys (config m) ->
  Z.of_nat (size (data (Set_ e key v ttl m).1)) <= MaxKeys (config m).
Proof.
  intros Hmax Hcov Hempty Hsize. unfold Set_. cbn zeta.
  match goal with |- context [evictLRU e ?x] => set (m1 := x) end.
  match goal with |- context [data ?x !! key] => set (m2 := x) end.
  assert (H1 : shrinks (data m) (data m1) /\ config m1 = config m).
  { clear m2. subst m1.
    match goal with |- context [if ?c then _ else _] => destruct c end;
      [apply evictItems_shrinks | split; [left|]; reflexivity]. }
  destruct H1 as [Hs1 Hc1].
  assert (Hcov1 : order_covers e (data m1)).
  { destruct Hcov as [Hnd Hcov]. split; [exact Hnd|].
    intros k [it Hk]. apply Hcov. exists it. eapply shrinks_lookup; eassumption. }
  assert (Hempty1 : data m1 !! "" = None).
  { destruct (data m1 !! "") as [it|] eqn:E; [|reflexivity].
    rewrite (shrinks_lookup _ _ _ _ Hs1 E) in Hempty. discriminate. }
  pose proof (shrinks_size _ _ Hs1) as Hsz1.
  assert (H2 : Z.of_nat (size (data m2)) < MaxKeys (config m)).
  { subst m2. rewrite Hc1.
    destruct (Z.ltb_spec 0 (MaxKeys (config m))); [|lia]. cbn [andb].
    destruct (Z.leb_spec (MaxKeys (config m)) (Z.of_nat (size (data m1)))); [|lia].
    rewrite evictLRU_removes_one by (assumption || lia). lia. }
  clearbody m1 m2.
  destruct (data m2 !! key) as [old|] eqn:Hk; cbn; rewrite map_size_insert, Hk; cbn; lia.
Qed.

(** C1. The store's memory usage is meant to be the sum of the sizes of the
    entries it holds, across every operation. [Increment] and the lazy
    deletion of [Get] and [Exists] do not keep it: from a fresh store,
    [Increment] of an absent key stores the one-byte value "5" and leaves
    the usage at 0; [Increment] of a stored "9" by 1 stores the two bytes
    "10" and leaves the usage at 1; [Get] and [Exists] of an expired
    three-byte entry delete the entry and leave the usage at 3. Before each
    of these calls the usage is the sum. *)
Theorem usage_drifts_on_Increment_and_lazy_expiry :
  exists m0, NewMemoryBackend (mkEnv 1 []) (mkConfig "" 0 "lru" 0 0) = Ok m0 /\
    let e := mkEnv 2 [] in
    let created := (Increment e "counter" 5 m0).1 in
    let nine := (Set_ e "n" "9" 0 m0).1 in
    let rewritten := (Increment e "n" 1 nine).1 in
    let short_lived := (Set_ e "k" "abc" 1 m0).1 in
    let later := mkEnv 9 ["k"] in
    let got := (Get later "k" short_lived).1 in
    let probed := (Exists later "k" short_lived).1 in
    (usage_accounted e m0 /\
     currentSize created = 0 /\ live_size e (data created) = 1) /\
    (usage_accounted e nine /\
     currentSize rewritten = 1 /\ live_size e (data rewritten) = 2) /\
    (currentSize short_lived = stored_size (data short_lived) /\
     currentSize got = 3 /\ stored_size (data got) = 0 /\
     currentSize probed = 3 /\ stored_size (data probed) = 0).
Proof.
  eexists. split; [reflexivity|].
  unfold usage_accounted. vm_compute. repeat split; reflexivity.
Qed.

(** C2. With a maximum size of 10 bytes and two one-byte entries stored, a
    [Set] of a 10-byte value (which fits the maximum by itself) evicts one
    entry only and leaves the recorded usage at 11, above the maximum:
    [evictItems] does not use the amount it is asked to free. With the
    policy set to "lfu" and a maximum of two keys, the key-count eviction
    of [Set] removes the least recently used entry "a", not the least
    frequently used entry "b". The amount [evictItems] is asked to free
    never changes what it does. *)
Theorem Set_evicts_one_entry_and_by_LRU_for_the_key_limit :
  (forall e n n' m, evictItems e n m = evictItems e n' m) /\
  (exists m0, NewMemoryBackend (mkEnv 1 []) (mkConfig "10" 0 "lru" 0 0) = Ok m0 /\
     let m1 := (Set_ (mkEnv 2 []) "a" "x" 0 m0).1 in
     let m2 := (Set_ (mkEnv 3 ["a"]) "b" "y" 0 m1).1 in
     let m3 := (Set_ (mkEnv 4 ["a"; "b"]) "c" "0123456789" 0 m2).1 in
     maxSize m3 = 10 /\ len "0123456789" <= maxSize m3 /\
     currentSize m2 = 2 /\ currentSize m3 = 11 /\
     evictions (stats m3) = 1 /\ size (data m3) = 2%nat) /\
  (exists m0, NewMemoryBackend (mkEnv 1 []) (mkConfig "" 2 "lfu" 0 0) = Ok m0 /\
     let m1 := (Set_ (mkEnv 2 []) "a" "x" 0 m0).1 in
     let m2 := (Get (mkEnv 3 ["a"]) "a" m1).1 in
     let m3 := (Set_ (mkEnv 4 ["a"]) "b" "y" 0 m2).1 in
     let m4 := (Set_ (mkEnv 5 ["a"; "b"]) "c" "z" 0 m3).1 in
     (accessCount <$> data m3 !! "a") = Some 1 /\
     (accessCount <$> data m3 !! "b") = Some 0 /\
     (evictLFU (mkEnv 5 ["a"; "b"]) m3).(data) !! "b" = None /\
     data m4 !! "a" = None /\ is_Some (data m4 !! "b")).
Proof.
  split; [reflexivity|].
  split; eexists; (split; [reflexivity|]); vm_compute;
    repeat split; try reflexivity; try discriminate; eauto.
Qed.

(** C6. With a limit of one key, [Set] of the empty key and then [Set] of
    the key "b" leave two keys in the store: [evictLRU] uses the empty
    string for "no key found yet", so it never evicts the empty key. *)
Theorem key_limit_exceeded_with_the_empty_key :
  exists m0, NewMemoryBackend (mkEnv 1 []) (mkConfig "" 1 "lru" 0 0) = Ok m0 /\
    let m1 := (Set_ (mkEnv 2 []) "" "x" 0 m0).1 in
    let m2 := (Set_ (mkEnv 3 [""]) "b" "y" 0 m1).1 in
    MaxKeys (config m2) = 1 /\
    evictLRU (mkEnv 3 [""]) m1 = m1 /\
    exists s, (Stats_ (mkEnv 4 []) m2).2 = Ok s /\ KeyCount s = 2.
Proof.
  eexists. split; [reflexivity|]. cbn zeta.
  split; [reflexivity|]. split; [vm_compute; reflexivity|].
  eexists. split; [reflexivity|]. vm_compute. reflexivity.
Qed.

(** C8, the claim as stated fails in both directions: the text "null" is no
    base-10 integer, yet [Increment] on a key that holds it succeeds and
    counts from zero; the text "007" is a base-10 integer, yet [Increment]
    on a key that holds it fails with the not-a-number error. *)
Lemma Increment_accepts_null_and_rejects_007 :
  exists m0, NewMemoryBackend (mkEnv 1 []) (mkConfig "" 0 "lru" 0 0) = Ok m0 /\
    let e := mkEnv 2 [] in
    let m1 := (Set_ e "k" "null" 0 m0).1 in
    let m2 := (Set_ e "k" "007" 0 m0).1 in
    ((value <$> data m1 !! "k") = Some "null" /\
     is_base10_integer "null" = false /\
     (Increment e "k" 5 m1).2 = Ok 5) /\
    ((value <$> data m2 !! "k") = Some "007" /\
     is_base10_integer "007" = true /\
     (Increment e "k" 5 m2).2 = Err "value is not a number").
Proof.
  eexists. split; [reflexivity|]. vm_compute. repeat split; reflexivity.
Qed.

(** C8, amended. [Increment] reads the stored value with the JSON decoder
    into an [int64]: an integer literal of JSON (white space around it
    allowed) counts as its number, the literal [null] as zero, and an
    absent key as zero. It adds the delta in [int64], writes the sum back
    as its decimal text, which the decoder reads back as the same number,
    and returns the sum. It fails, with the not-a-number error and without
    touching the store, exactly when a value is stored under the key and
    the decoder rejects it. On an absent key, [Increment] by [delta]
    returns [delta] and a [Decrement] by [delta] that follows returns 0. *)
Theorem Increment_counts_in_json_decimal e e' key delta m :
  in_int64 delta ->
  let r := Increment e key delta m in
  (data m !! key = None ->
     r.2 = Ok delta /\
     (value <$> data r.1 !! key) = Some (Sprintf_d delta) /\
     (Decrement e' key delta r.1).2 = Ok 0) /\
  (forall item n,
     data m !! key = Some item -> json_Unmarshal_int64 (value item) = Some n ->
     r.2 = Ok (int64 (n + delta)) /\
     (value <$> data r.1 !! key) = Some (Sprintf_d (int64 (n + delta)))) /\
  (forall n, in_int64 n -> json_Unmarshal_int64 (Sprintf_d n) = Some n) /\
  (is_err r.2 = true <->
     exists item, data m !! key = Some item /\
       json_Unmarshal_int64 (value item) = None) /\
  (is_err r.2 = true -> r = (m, Err "value is not a number")).
Proof.
  intros Hd r. subst r. repeat split.
  - unfold Increment. rewrite H. reflexivity.
  - unfold Increment. rewrite H. cbn. rewrite lookup_insert_eq. reflexivity.
  - unfold Decrement, Increment at 2. rewrite H. cbn [fst].
    unfold Increment. cbn [data set_data]. rewrite lookup_insert_eq. cbn [value].
    rewrite (GoProps.json_reads_Sprintf_d delta Hd). cbn [snd].
    rewrite GoProps.int64_cancel. reflexivity.
  - unfold Increment. rewrite H, H0. reflexivity.
  - unfold Increment. rewrite H, H0. cbn. rewrite lookup_insert_eq. reflexivity.
  - intros n Hn. apply GoProps.json_reads_Sprintf_d, Hn.
  - unfold Increment. destruct (data m !! key) as [item|]; [|discriminate].
    destruct (json_Unmarshal_int64 (value item)) eqn:E; [discriminate|].
    intros _. exists item. split; [reflexivity | exact E].
  - intros (item & Hk & Hj). unfold Increment. rewrite Hk, Hj. reflexivity.
  - unfold Increment. destruct (data m !! key) as [item|]; [|discriminate].
    destruct (json_Unmarshal_int64 (value item)); [discriminate|]. reflexivity.
Qed.

Lemma Increment_counts_in_json_decimal_witness :
  let m := mkBackend ∅ (mkStats 0 0 0 0 0 1) (mkConfig "" 0 "lru" 0 0) false 0 0 in
  let e := mkEnv 2 [] in
  in_int64 5 /\
  (Increment e "k" 5 m).2 = Ok 5 /\
  (Decrement e "k" 5 (Increment e "k" 5 m).1).2 = Ok 0.
Proof.
  intros m e.
  assert (Hd : in_int64 5) by (vm_compute; split; discriminate).
  pose proof (Increment_counts_in_json_decimal e e "k" 5 m Hd) as (Habsent & _).
  destruct (Habsent eq_refl) as (H1 & _ & H2).
  split; [exact Hd|]. split; [exact H1 | exact H2].
Defined.

(** C9, the claim as stated fails: after one [Set], [Clear] leaves the
    counter of sets at 1. *)
Lemma Clear_keeps_the_counters :
  exists m0, NewMemoryBackend (mkEnv 1 []) (mkConfig "" 0 "lru" 0 0) = Ok m0 /\
    let e := mkEnv 2 [] in
    let m1 := run e (OpSet "k" "v" 0) m0 in
    let m2 := run e OpClear m1 in
    sets (stats m1) = 1 /\ sets (stats m2) = 1 /\ sets (stats m2) <> 0.
Proof.
  eexists. split; [reflexivity|]. vm_compute. repeat split; discriminate.
Qed.

(** C9, amended. As long as no counter is about to wrap around, no
    operation of the store, the expiry sweep included, decreases a counter.
    [Clear] removes every entry and sets the recorded usage to zero, so
    that [Stats] then reports no key and no usage, and leaves every counter
    as it is; a store that has just been built has every counter at
    zero. *)
Theorem counters_never_decrease e o m :
  headroom (calls e o) (stats m) ->
  counters_le (stats m) (stats (run e o m)) /\
  stats (run e OpClear m) = stats m /\
  (forall cfg m0, NewMemoryBackend e cfg = Ok m0 -> counters (stats m0) = [0; 0; 0; 0; 0]) /\
  (Clear e m).2 = None /\
  data (run e OpClear m) = ∅ /\
  currentSize (run e OpClear m) = 0 /\
  (forall e2 snapshot,
     (Stats_ e2 (run e OpClear m)).2 = Ok snapshot ->
     KeyCount snapshot = 0 /\ MemoryUsage snapshot = 0 /\
     [Hits snapshot; Misses snapshot; Sets snapshot; Deletes snapshot; Evictions snapshot]
     = counters (stats m)).
Proof.
  intros Hh. split; [|split; [|split]].
  - eapply within_le, run_within, Hh.
  - reflexivity.
  - intros cfg m0. unfold NewMemoryBackend.
    destruct (parseSize _); [|discriminate]. intros [= <-]. reflexivity.
  - split; [reflexivity|]. split; [reflexivity|]. split; [reflexivity|].
    intros e2 snapshot. unfold Stats_. cbn [snd run Clear fst]. intros [= <-].
    cbn [KeyCount MemoryUsage Hits Misses Sets Deletes Evictions data currentSize stats
           set_currentSize set_data].
    rewrite map_size_empty. repeat split.
Qed.

Lemma counters_never_decrease_witness :
  let m := mkBackend ∅ (mkStats 0 0 7 0 0 1) (mkConfig "" 2 "lru" 0 0) false 0 0 in
  let e := mkEnv 2 ["a"; "b"] in
  let o := OpSetMulti (<["a" := "1"]> (<["b" := "2"]> ∅)) 0 in
  headroom (calls e o) (stats m) /\
  counters_le (stats m) (stats (run e o m)).
Proof.
  intros m e o.
  assert (Hh : headroom (calls e o) (stats m)).
  { apply headroom_unfold. vm_compute. repeat split; discriminate. }
  split; [exact Hh | exact (proj1 (counters_never_decrease e o m Hh))].
Defined.

(** *** The cleanup interval *)

Lemma evict_key_interval d k m :
  evict_key k (with_interval d m) = with_interval d (evict_key k m).
Proof. unfold evict_key. cbn [data with_interval]. destruct (data m !! k); reflexivity. Qed.

Lemma evictLRU_interval d e m :
  evictLRU e (with_interval d m) = with_interval d (evictLRU e m).
Proof.
  unfold evictLRU. cbn [data with_interval].
  destruct (fold_left lru_step _ _) as [k t].
  destruct (negb _); [apply evict_key_interval | reflexivity].
Qed.

Lemma evictItems_interval d e n m :
  evictItems e n (with_interval d m) = with_interval d (evictItems e n m).
Proof.
  unfold evictItems. cbn [config with_interval EvictionPolicy].
  destruct (String.eqb _ "lru"); [apply evictLRU_interval|].
  destruct (String.eqb _ "lfu").
  { unfold evictLFU. cbn [data with_interval].
    destruct (fold_left lfu_step _ _) as [k t].
    destruct (negb _); [apply evict_key_interval | reflexivity]. }
  destruct (String.eqb _ "random"); [|apply evictLRU_interval].
  unfold evictRandom. cbn [data with_interval].
  destruct (range e (data m)) as [|[k it] l]; [reflexivity | apply evict_key_interval].
Qed.

Lemma Set_interval d e key v ttl m :
  (Set_ e key v ttl (with_interval d m)).1 = with_interval d (Set_ e key v ttl m).1.
Proof.
  unfold Set_. cbv zeta. cbn [fst].
  change (maxSize (with_interval d m)) with (maxSize m).
  change (currentSize (with_interval d m)) with (currentSize m).
  change (DefaultTTL (config (with_interval d m))) with (DefaultTTL (config m)).
  match goal with
  | |- context [if ?c then evictItems e ?n (with_interval d m) else with_interval d m] =>
      replace (if c then evictItems e n (with_interval d m) else with_interval d m)
        with (with_interval d (if c then evictItems e n m else m))
        by (destruct c; [symmetry; apply evictItems_interval | reflexivity]);
      set (m1 := if c then evictItems e n m else m)
  end.
  change (MaxKeys (config (with_interval d m1))) with (MaxKeys (config m1)).
  change (data (with_interval d m1)) with (data m1).
  match goal with
  | |- context [if ?c then evictLRU e (with_interval d m1) else with_interval d m1] =>
      replace (if c then evictLRU e (with_interval d m1) else with_interval d m1)
        with (with_interval d (if c then evictLRU e m1 else m1))
        by (destruct c; [symmetry; apply evictLRU_interval | reflexivity]);
      set (m2 := if c then evictLRU e m1 else m1)
  end.
  change (data (with_interval d m2)) with (data m2).
  destruct (data m2 !! key); reflexivity.
Qed.

(** No operation reads the cleanup interval: the run of an operation on the
    store with another interval is its run on the store, with that
    interval. *)
Lemma run_ignores_the_cleanup_interval d e o m :
  run e o (with_interval d m) = with_interval d (run e o m).
Proof.
  assert (HGet : forall key m, (Get e key (with_interval d m)).1 = with_interval d (Get e key m).1
                               /\ (Get e key (with_interval d m)).2 = (Get e key m).2).
  { intros key m0. unfold Get. cbn [data with_interval].
    destruct (data m0 !! key) as [item|]; [|split; reflexivity].
    destruct (expired e item); split; reflexivity. }
  assert (HDelete : forall key m, (Delete e key (with_interval d m)).1
                                  = with_interval d (Delete e key m).1).
  { intros key m0. unfold Delete. cbn [data with_interval].
    destruct (data m0 !! key); reflexivity. }
  destruct o; cbn [run].
  - apply HGet.
  - apply Set_interval.
  - apply HDelete.
  - unfold Exists. cbn [data with_interval]. destruct (data m !! key) as [item|]; [|reflexivity].
    destruct (expired e item); reflexivity.
  - unfold GetMulti.
    assert (H : forall keys m r,
              (fold_left (fun (acc : MemoryBackend * gmap string string) key =>
                            match Get e key acc.1 with
                            | (m1, Ok value) => (m1, <[key := value]> acc.2)
                            | (m1, Err _) => (m1, acc.2)
                            end) keys (with_interval d m, r)).1
              = with_interval d
                  (fold_left (fun (acc : MemoryBackend * gmap string string) key =>
                                match Get e key acc.1 with
                                | (m1, Ok value) => (m1, <[key := value]> acc.2)
                                | (m1, Err _) => (m1, acc.2)
                                end) keys (m, r)).1).
    { induction keys0 as [|key keys0 IH]; intros m0 r; [reflexivity|]. cbn [fold_left fst snd].
      destruct (HGet key m0) as [H1 H2].
      destruct (Get e key (with_interval d m0)) as [ma ra], (Get e key m0) as [mb rb].
      cbn [fst snd] in *. subst ma ra. destruct rb; apply IH. }
    specialize (H keys m ∅).
    destruct (fold_left _ keys (with_interval d m, ∅)) as [ma ra].
    destruct (fold_left _ keys (m, ∅)) as [mb rb]. exact H.
  - unfold SetMulti. generalize (range e items). intros l. revert m.
    induction l as [|[key v] l IH]; intros m; [reflexivity|]. cbn [SetMulti_loop].
    pose proof (Set_interval d e key v ttl m) as Hs.
    destruct (Set_ e key v ttl (with_interval d m)) as [ma ea] eqn:Ea.
    destruct (Set_ e key v ttl m) as [mb eb] eqn:Eb. cbn [fst] in Hs.
    assert (ea = None) as -> by exact (eq_sym (f_equal snd Ea)).
    assert (eb = None) as -> by exact (eq_sym (f_equal snd Eb)).
    subst ma. apply IH.
  - revert m. induction keys as [|key keys IH]; intros m; [reflexivity|]. cbn [DeleteMulti].
    pose proof (HDelete key m) as Hs.
    assert (Hn : forall m0, (Delete e key m0).2 = None)
      by (intros m0; unfold Delete; destruct (data m0 !! key); reflexivity).
    pose proof (Hn (with_interval d m)) as Ha. pose proof (Hn m) as Hb.
    destruct (Delete e key (with_interval d m)) as [ma ea].
    destruct (Delete e key m) as [mb eb]. cbn [fst snd] in *. subst ma ea eb. apply IH.
  - unfold Increment. cbn [data with_interval]. destruct (data m !! key) as [item|]; [|reflexivity].
    destruct (json_Unmarshal_int64 _); reflexivity.
  - unfold Decrement, Increment. cbn [data with_interval].
    destruct (data m !! key) as [item|]; [|reflexivity].
    destruct (json_Unmarshal_int64 _); reflexivity.
  - unfold Expire. cbn [data with_interval]. destruct (data m !! key); reflexivity.
  - unfold TTL. cbn [data with_interval]. destruct (data m !! key) as [item|]; [|reflexivity].
    destruct (IsZero _); [reflexivity|]. destruct (_ <? 0); reflexivity.
  - reflexivity.
  - reflexivity.
  - reflexivity.
  - reflexivity.
  - unfold cleanupExpired. cbn [data with_interval]. generalize (range e (data m)).
    intros l. revert m. induction l as [|[k it] l IH]; intros m; [reflexivity|].
    cbn [fold_left]. rewrite <- IH. f_equal. unfold cleanup_step.
    destruct (expired e it); reflexivity.
Qed.

(** [NewMemoryBackend] copies the interval into the store and reads nothing
    of it either, so a run that starts from a new store goes the same way
    whatever the interval, the one of a store whose goroutine gets its ticker
    included. *)
Lemma NewMemoryBackend_interval d e cfg m0 :
  NewMemoryBackend e cfg = Ok m0 ->
  NewMemoryBackend e (mkConfig (MaxSize cfg) (MaxKeys cfg) (EvictionPolicy cfg)
                        (DefaultTTL cfg) d)
  = Ok (with_interval d m0).
Proof.
  unfold NewMemoryBackend. cbn [MaxSize]. destruct (parseSize (MaxSize cfg)); [|discriminate].
  intros [= <-]. reflexivity.
Qed.

End MemoryProps.

(** ** The shard router *)

Module ShardingProps.
Import Go Sharding Sharding.Consistent ShardingSpec.

Section Restore.
Context {B : Type}.

Abbreviation CH := (ConsistentHashSharder B).

Lemma filter_ext_in (P Q : Z -> Prop)
    `{!forall x, Decision (P x), !forall x, Decision (Q x)} (l : list Z) :
  (forall x, x ∈ l -> P x <-> Q x) -> filter P l = filter Q l.
Proof.
  induction l as [|x l IH]; intros Hall; [reflexivity|].
  rewrite !filter_cons.
  rewrite IH by (intros y Hy; apply Hall; right; exact Hy).
  destruct (decide (P x)) as [Hp|Hp], (decide (Q x)) as [Hq|Hq]; try reflexivity;
    exfalso; [apply Hq | apply Hp]; apply (Hall x ltac:(left)); assumption.
Qed.

Lemma filter_all (P : Z -> Prop) `{!forall x, Decision (P x)} (l : list Z) :
  (forall x, x ∈ l -> P x) -> filter P l = l.
Proof.
  induction l as [|x l IH]; intros Hall; [reflexivity|].
  rewrite filter_cons_True by (apply Hall; left).
  rewrite IH by (intros y Hy; apply Hall; right; exact Hy). reflexivity.
Qed.

Lemma filter_none (P : Z -> Prop) `{!forall x, Decision (P x)} (l : list Z) :
  (forall x, x ∈ l -> ~ P x) -> filter P l = [].
Proof.
  induction l as [|x l IH]; intros Hall; [reflexivity|].
  rewrite filter_cons_False by (apply Hall; left).
  apply IH. intros y Hy. apply Hall. right. exact Hy.
Qed.

Lemma add_fold n (f : Z -> Z) (ixs : list Z) : forall (r : gmap Z Z) (ks : list Z),
  let res := fold_left (fun (acc : gmap Z Z * list Z) i =>
                          (<[f i := n]> acc.1, acc.2 ++ [f i])) ixs (r, ks) in
  res.2 = ks ++ (f <$> ixs) /\
  (forall k, k ∈ f <$> ixs -> res.1 !! k = Some n) /\
  (forall k, k ∉ f <$> ixs -> res.1 !! k = r !! k).
Proof.
  induction ixs as [|i ixs IH]; intros r ks; cbn [fold_left].
  - cbn. rewrite app_nil_r. split; [reflexivity|]. split; [|reflexivity].
    intros k Hk. inversion Hk.
  - specialize (IH (<[f i := n]> r) (ks ++ [f i])). cbn zeta in IH.
    cbn [fst snd] in *. destruct IH as (IH1 & IH2 & IH3).
    split; [rewrite IH1, <- app_assoc; reflexivity|]. split.
    + intros k Hk. destruct (decide (k ∈ f <$> ixs)) as [Hin|Hnin]; [auto|].
      rewrite IH3 by exact Hnin. rewrite fmap_cons in Hk.
      apply elem_of_cons in Hk as [-> | Hk]; [apply lookup_insert_eq | contradiction].
    + intros k Hk. rewrite fmap_cons in Hk. apply not_elem_of_cons in Hk as [Hne Hk].
      rewrite IH3 by exact Hk. apply lookup_insert_ne. congruence.
Qed.

Lemma drop_fold n (l : list Z) : forall (out : list Z) (r : gmap Z Z),
  NoDup l -> (forall k, k ∈ l -> is_Some (r !! k)) ->
  let res := fold_left (drop_node n) l (out, r) in
  res.1 = out ++ filter (fun k => r !! k <> Some n) l /\
  (forall k, k ∈ l -> r !! k = Some n -> res.2 !! k = None) /\
  (forall k, ~ (k ∈ l /\ r !! k = Some n) -> res.2 !! k = r !! k).
Proof.
  induction l as [|k1 l IH]; intros out r Hnd Hsome; cbn [fold_left].
  - cbn. rewrite app_nil_r. split; [reflexivity|]. split; [|reflexivity].
    intros k Hk. inversion Hk.
  - cbn zeta in IH. apply NoDup_cons in Hnd as [Hk1 Hnd].
    destruct (Hsome k1 ltac:(left)) as [v Hv].
    assert (Hstep : drop_node n (out, r) k1
                    = if v =? n then (out, delete k1 r) else (out ++ [k1], r)).
    { unfold drop_node, ring_get. cbn [fst snd]. rewrite Hv. cbn.
      destruct (v =? n); reflexivity. }
    cbn zeta. rewrite Hstep. clear Hstep.
    destruct (Z.eqb_spec v n) as [-> | Hne].
    + assert (Hsame : forall k, k ∈ l -> delete k1 r !! k = r !! k).
      { intros k Hk. apply lookup_delete_ne. intros ->. contradiction. }
      destruct (IH out (delete k1 r) Hnd) as (IH1 & IH2 & IH3).
      { intros k Hk. rewrite Hsame by exact Hk. apply Hsome. right. exact Hk. }
      split; [|split].
      * rewrite IH1. f_equal. rewrite filter_cons_False by (intros H; apply H, Hv).
        apply filter_ext_in. intros k Hk. rewrite Hsame by exact Hk. reflexivity.
      * intros k Hk Hn. apply elem_of_cons in Hk as [-> | Hk].
        -- rewrite IH3; [apply lookup_delete_eq|]. intros [Hin _]. contradiction.
        -- apply IH2; [exact Hk|]. rewrite Hsame by exact Hk. exact Hn.
      * intros k Hk. destruct (decide (k = k1)) as [-> | Hkne].
        -- exfalso. apply Hk. split; [left | exact Hv].
        -- rewrite IH3; [apply lookup_delete_ne; congruence|].
           intros [Hin Hn]. apply Hk. split; [right; exact Hin|].
           rewrite lookup_delete_ne in Hn by congruence. exact Hn.
    + destruct (IH (out ++ [k1]) r Hnd) as (IH1 & IH2 & IH3).
      { intros k Hk. apply Hsome. right. exact Hk. }
      split; [|split].
      * rewrite IH1, <- app_assoc. f_equal.
        rewrite filter_cons_True by (rewrite Hv; congruence). reflexivity.
      * intros k Hk Hn. apply elem_of_cons in Hk as [-> | Hk]; [congruence|].
        apply IH2; assumption.
      * intros k Hk. apply IH3. intros [Hin Hn]. apply Hk. split; [right|]; assumption.
Qed.

Lemma filter_sorted (P : Z -> Prop) `{!forall x, Decision (P x)} (l : list Z) :
  Sorted Z.le l -> Sorted Z.le (filter P l).
Proof.
  intros Hs. apply Sorted_StronglySorted in Hs; [|intros x y z; lia].
  apply StronglySorted_Sorted.
  induction Hs as [|x l Hl IH Hx]; [constructor|].
  rewrite filter_cons. destruct (decide (P x)); [|exact IH].
  constructor; [exact IH|].
  apply Forall_forall. intros y Hy. apply list_elem_of_filter in Hy as [_ Hy].
  rewrite Forall_forall in Hx. apply Hx, Hy.
Qed.

Lemma NewConsistentHashSharder_ring_ok r :
  ring_ok (NewConsistentHashSharder r : CH).
Proof.
  unfold ring_ok. cbn. split; [constructor|]. split; [constructor|]. split.
  - intros k. split; [intros Hk; inversion Hk|].
    intros [v Hv]. rewrite lookup_empty in Hv. discriminate.
  - intros k v Hv. rewrite lookup_empty in Hv. discriminate.
Qed.

(** [AddShard] keeps the ring well formed when the new positions are new
    and distinct. *)
Lemma AddShard_ring_ok (backend : B) (c : CH) :
  ring_ok c -> fresh_nodes c -> ring_ok (AddShard backend c).1.
Proof.
  intros (Hsorted & Hnd & Hdom & Hval) (Hfnd & Hfresh).
  set (n := Z.of_nat (length (shards c))) in *.
  unfold AddShard. cbn [fst].
  pose proof (add_fold n (fun i => hashKey (node_label n i)) (seqZ 0 (replicas c))
                (ring c) (keys c)) as Hadd.
  cbn zeta in Hadd.
  change (fold_left (add_node n) (seqZ 0 (replicas c)) (ring c, keys c))
    with (fold_left (fun (acc : gmap Z Z * list Z) i =>
                       (<[hashKey (node_label n i) := n]> acc.1,
                        acc.2 ++ [hashKey (node_label n i)]))
            (seqZ 0 (replicas c)) (ring c, keys c)).
  destruct (fold_left _ (seqZ 0 (replicas c)) (ring c, keys c)) as [ring1 keys1].
  cbn [fst snd] in Hadd. destruct Hadd as (-> & Hnew & Hold).
  set (hs := (fun i => hashKey (node_label n i)) <$> seqZ 0 (replicas c)) in *.
  change (new_nodes c) with hs in *.
  unfold ring_ok. cbn [shards keys ring fst snd].
  assert (Hperm : sort_Slice (keys c ++ hs) ≡ₚ keys c ++ hs)
    by apply merge_sort_Permutation.
  split; [apply (Sorted_merge_sort Z.le)|]. split; [|split].
  - rewrite Hperm. apply NoDup_app. split; [exact Hnd|]. split; [|exact Hfnd].
    intros k Hk Hk'. exact (Hfresh k Hk' Hk).
  - intros k. rewrite Hperm, elem_of_app.
    destruct (decide (k ∈ hs)) as [Hin|Hnin].
    + rewrite Hnew by exact Hin. split; eauto.
    + rewrite Hold by exact Hnin. rewrite <- Hdom. tauto.
  - intros k v Hv. rewrite length_app. cbn [length].
    destruct (decide (k ∈ hs)) as [Hin|Hnin].
    + rewrite Hnew in Hv by exact Hin. injection Hv as <-. lia.
    + rewrite Hold in Hv by exact Hnin. apply Hval in Hv. lia.
Qed.

(** On a ring built by [AddShard], whenever the positions of the next shard
    are new and distinct, [AddShard] followed by [RemoveShard] of the shard
    just added gives the sharder back as it was; every key is then routed
    as before. *)
Lemma AddShard_RemoveShard_restores (backend : B) (c : CH) :
  ring_ok c -> fresh_nodes c ->
  RemoveShard (Z.of_nat (length (shards c))) (AddShard backend c).1 = (c, None) /\
  forall key,
    GetShardIndex key (RemoveShard (Z.of_nat (length (shards c))) (AddShard backend c).1).1
    = GetShardIndex key c.
Proof.
  intros (Hsorted & Hnd & Hdom & Hval) (Hfnd & Hfresh).
  assert (Hmain : RemoveShard (Z.of_nat (length (shards c))) (AddShard backend c).1
                  = (c, None)); [|split; [exact Hmain | intros key; rewrite Hmain; reflexivity]].
  set (n := Z.of_nat (length (shards c))) in *.
  unfold AddShard. cbn [fst].
  pose proof (add_fold n (fun i => hashKey (node_label n i)) (seqZ 0 (replicas c))
                (ring c) (keys c)) as Hadd.
  cbn zeta in Hadd.
  change (fold_left (add_node n) (seqZ 0 (replicas c)) (ring c, keys c))
    with (fold_left (fun (acc : gmap Z Z * list Z) i =>
                       (<[hashKey (node_label n i) := n]> acc.1,
                        acc.2 ++ [hashKey (node_label n i)]))
            (seqZ 0 (replicas c)) (ring c, keys c)).
  destruct (fold_left _ (seqZ 0 (replicas c)) (ring c, keys c)) as [ring1 keys1].
  cbn [fst snd] in Hadd. destruct Hadd as (-> & Hnew & Hold).
  unfold RemoveShard. cbn [shards keys ring replicas fst snd].
  rewrite length_app. cbn [length].
  destruct (Z.ltb_spec n 0) as [Hlt|_]; [lia|].
  destruct (Z.leb_spec (Z.of_nat (length (shards c) + 1)) n) as [Hle|_]; [lia|].
  cbn [orb].
  set (hs := (fun i => hashKey (node_label n i)) <$> seqZ 0 (replicas c)) in *.
  change (hs) with hs in *.
  set (sorted := sort_Slice (keys c ++ hs)).
  assert (Hperm : sorted ≡ₚ keys c ++ hs) by apply merge_sort_Permutation.
  assert (Hsnd : NoDup sorted).
  { rewrite Hperm. apply NoDup_app. split; [exact Hnd|]. split; [|exact Hfnd].
    intros k Hk Hk'. exact (Hfresh k Hk' Hk). }
  assert (Hring1 : forall k, k ∈ sorted -> is_Some (ring1 !! k)).
  { intros k Hk. rewrite Hperm in Hk. apply elem_of_app in Hk as [Hk | Hk].
    - destruct (decide (k ∈ hs)) as [Hin|Hnin]; [rewrite Hnew; eauto|].
      rewrite Hold by exact Hnin. apply Hdom, Hk.
    - rewrite Hnew by exact Hk. eauto. }
  destruct (drop_fold n sorted [] ring1 Hsnd Hring1) as (Hkeys & Hgone & Hkept).
  destruct (fold_left (drop_node n) sorted ([], ring1)) as [keys2 ring2].
  cbn [fst snd app] in Hkeys, Hgone, Hkept.
  assert (Hk2 : keys2 = keys c).
  { subst keys2. apply (Sorted_unique Z.le).
    - apply filter_sorted. apply (Sorted_merge_sort Z.le).
    - exact Hsorted.
    - rewrite Hperm, filter_app.
      assert (H1 : filter (fun k => ring1 !! k <> Some n) (keys c) = keys c).
      { apply filter_all. intros k Hk.
        assert (Hnin : k ∉ hs) by (intros Hin; exact (Hfresh k Hin Hk)).
        rewrite Hold by exact Hnin. intros Hn. apply Hval in Hn. lia. }
      assert (H2 : filter (fun k => ring1 !! k <> Some n) (hs) = []).
      { apply filter_none. intros k Hk Hn.
        apply Hn, Hnew, Hk. }
      rewrite H1, H2, app_nil_r. reflexivity. }
  assert (Hr2 : renumber n <$> ring2 = ring c).
  { apply map_eq. intros k. rewrite lookup_fmap.
    destruct (decide (k ∈ hs)) as [Hin|Hnin].
    - rewrite Hgone; [| rewrite Hperm; apply elem_of_app; right; exact Hin
                      | apply Hnew, Hin].
      cbn. symmetry. apply eq_None_not_Some. intros Hs. apply Hdom in Hs.
      exact (Hfresh k Hin Hs).
    - rewrite Hkept.
      + rewrite Hold by exact Hnin. destruct (ring c !! k) as [v|] eqn:Hv; [|reflexivity].
        cbn. f_equal. unfold renumber. apply Hval in Hv.
        destruct (Z.ltb_spec n v); [lia | reflexivity].
      + intros [_ Hn]. rewrite Hold in Hn by exact Hnin. apply Hval in Hn. lia. }
  cbn [fst snd]. rewrite Hk2, Hr2. f_equal.
  assert (Hsh : remove_at n (shards c ++ [backend]) = shards c).
  { unfold remove_at, n. rewrite Nat2Z.id, take_app_length.
    rewrite drop_ge by (rewrite length_app; cbn; lia). apply app_nil_r. }
  rewrite Hsh. destruct c; reflexivity.
Qed.

End Restore.

(** C5. A sharder with three replicas per shard gets three shards, then
    loses the middle one. From that state, [AddShard] of a new shard
    followed by [RemoveShard] of that shard (index 2) succeeds and leaves
    the shard list and the ring positions as they were, yet the key
    "user:22", served by index 1 before, is served by index 0 after: the
    new shard's nodes are labelled by its index, which the renumbered old
    shard's nodes already carry, so the ring entries of the old shard are
    overwritten and then deleted. Lookups do not change the sharder. *)
Theorem AddShard_RemoveShard_loses_renumbered_nodes :
  let c0 : ConsistentHashSharder string := NewConsistentHashSharder 3 in
  let c3 := (AddShard "C" (AddShard "B" (AddShard "A" c0).1).1).1 in
  let before := (RemoveShard 1 c3).1 in
  let added := (AddShard "D" before).1 in
  let after := (RemoveShard 2 added).1 in
  (RemoveShard 1 c3).2 = None /\ (AddShard "D" before).2 = None /\
  (RemoveShard 2 added).2 = None /\
  shards before = ["A"; "C"] /\ shards after = ["A"; "C"] /\
  keys after = keys before /\
  GetShardIndex "user:22" before = Some 1 /\
  GetShardIndex "user:22" after = Some 0 /\
  GetShard "user:22" before = Some (Some "C") /\
  GetShard "user:22" after = Some (Some "A").
Proof. vm_compute. repeat split; reflexivity. Qed.

(** The ring of scenario B of the design document (three shards, three
    replicas) is such a well-formed ring, and the positions of a fourth
    shard are new to it. *)
Example three_shard_ring_ok :
  let c0 : ConsistentHashSharder string := NewConsistentHashSharder 3 in
  let c3 := (AddShard "C" (AddShard "B" (AddShard "A" c0).1).1).1 in
  keys c3 = [746037760; 766887991; 804484718; 1492403960; 1521678497;
             1534104214; 3032258957; 3044996026; 3069847508] /\
  new_nodes c3 = [1496722639; 774970457; 3073920483] /\
  GetShardIndex "user:42" c3 = Some 1.
Proof. vm_compute. repeat split; reflexivity. Qed.

End ShardingProps.

(** ** The cache facade *)

Module FacadeProps.
Import Go Facade FacadeSpec Doubles.

Section AnyClient.
Context {V B T1 T2 : Type}.
Context `{!Codecs V, !BackendI B, !CacheI V T1, !CacheI V T2}.

Abbreviation Client := (CacheClient V B T1 T2).

(** *** Routing *)

Lemma lxor_bound a b : 0 <= a < 2 ^ 32 -> 0 <= b < 2 ^ 32 -> 0 <= Z.lxor a b < 2 ^ 32.
Proof.
  intros Ha Hb. split; [apply Z.lxor_nonneg; lia|].
  destruct (Z.eq_dec (Z.lxor a b) 0) as [->|Hne]; [lia|].
  apply Z.log2_lt_pow2; [pose proof (Z.lxor_nonneg a b); lia|].
  eapply Z.le_lt_trans; [apply Z.log2_lxor; lia|].
  apply Z.max_lub_lt.
  - destruct (Z.eq_dec a 0) as [->|Hn0]; [reflexivity | apply Z.log2_lt_pow2; lia].
  - destruct (Z.eq_dec b 0) as [->|Hn0]; [reflexivity | apply Z.log2_lt_pow2; lia].
Qed.

Lemma crc32_shift_bound x : 0 <= x < 2 ^ 32 -> 0 <= crc32_shift x < 2 ^ 32.
Proof.
  intros Hx. unfold crc32_shift, crc32_poly.
  assert (Hs : 0 <= Z.shiftr x 1 < 2 ^ 32).
  { rewrite Z.shiftr_div_pow2 by lia. change (2 ^ 1) with 2.
    split; [apply Z.div_pos; lia | apply Z.div_lt_upper_bound; lia]. }
  destruct (Z.testbit x 0); [apply lxor_bound; lia | exact Hs].
Qed.

Lemma crc32_byte_bound crc b : 0 <= crc < 2 ^ 32 -> 0 <= crc32_byte crc b < 2 ^ 32.
Proof.
  intros Hc. unfold crc32_byte. cbn zeta.
  do 8 apply crc32_shift_bound. apply lxor_bound; [exact Hc|].
  pose proof (N_ascii_bounded b). lia.
Qed.

Lemma crc32_update_bound s : forall crc,
  0 <= crc < 2 ^ 32 -> 0 <= crc32_update crc s < 2 ^ 32.
Proof.
  induction s as [|b r IH]; intros crc Hc; simpl; [exact Hc|].
  apply IH, crc32_byte_bound, Hc.
Qed.

(** A checksum is a [uint32]. *)
Lemma ChecksumIEEE_bound key : 0 <= ChecksumIEEE key < 2 ^ 32.
Proof.
  unfold ChecksumIEEE. apply lxor_bound; [apply crc32_update_bound|]; lia.
Qed.

Lemma ShardKey_route key (n : nat) :
  (0 < n)%nat ->
  Z.to_nat (Sharding.ShardKey key (Z.of_nat n)) = route key n /\ (route key n < n)%nat.
Proof.
  intros Hn. unfold Sharding.ShardKey, route.
  destruct (Z.leb_spec (Z.of_nat n) 0) as [H0|H0]; [lia|].
  pose proof (ChecksumIEEE_bound key) as Hb.
  rewrite Z.rem_mod_nonneg by lia. split; [reflexivity|].
  pose proof (Z.mod_pos_bound (ChecksumIEEE key) (Z.of_nat n) ltac:(lia)). lia.
Qed.

Lemma getShardIndex_route (c : Client) key :
  (1 < length (shards c))%nat ->
  getShardIndex c key = Some (route key (length (shards c))).
Proof.
  intros Hn. unfold getShardIndex.
  destruct (Nat.eqb_spec (length (shards c)) 0); [lia|].
  destruct (Nat.eqb_spec (length (shards c)) 1); [lia|].
  rewrite (proj1 (ShardKey_route key (length (shards c)) ltac:(lia))). reflexivity.
Qed.

(** [initSharding] adds as many shards as the configuration asks for and
    leaves the configuration alone, whatever sharder it feeds. *)
Lemma initSharding_loop_shards e n : forall i (c c' : Client) s s',
  initSharding_loop e n i c s = Ok (c', s') ->
  length (shards c') = (length (shards c) + n)%nat /\ config c' = config c.
Proof.
  induction n as [|n IH]; intros i c c' s s'; cbn [initSharding_loop].
  - intros [= <- <-]. split; [lia | reflexivity].
  - destruct (backends_New e (Backend (config c)) (config c)) as [b|err]; [|discriminate].
    destruct (Sharding.AddShard b s) as [s1 [err|]]; [discriminate|].
    intros H. apply IH in H as [Hl Hc]. cbn in Hl, Hc.
    rewrite length_app in Hl. cbn in Hl. split; [lia | exact Hc].
Qed.

Lemma initSharding_shards e (c c' : Client) :
  initSharding e c = Ok c' ->
  length (shards c') = (length (shards c) + shardCount c)%nat /\ config c' = config c.
Proof.
  unfold initSharding, shardCount.
  destruct (initSharding_loop e _ 0 c _) as [[c1 s1]|err] eqn:E; [|discriminate].
  intros [= <-]. eapply initSharding_loop_shards, E.
Qed.

(** C4. In distributed mode with more than one shard, the shard of a key is
    the one in slot [crc32(key) mod count], and [Get], [Set], [Delete],
    [Exists], [Increment] and [Decrement] run the backend method on that
    shard and on no other. The sharding algorithm of the configuration has
    no part in it: a client that differs in the algorithm alone routes
    every key to the same slot, and so do two clients that [initSharding]
    builds from configurations that differ in the algorithm alone. *)
Theorem sharded_routing_is_crc32_mod_count e key (c : Client) :
  Hierarchical (config c) = false ->
  Distributed (config c) = true ->
  (1 < length (shards c))%nat ->
  let i := route key (length (shards c)) in
  (i < length (shards c))%nat /\
  getShardIndex c key = Some i /\
  getShard c key = shards c !! i /\
  (forall a, getShardIndex (with_algorithm a c) key = Some i) /\
  (forall a (c0 c1 c2 : Client) k,
     initSharding e c0 = Ok c1 -> initSharding e (with_algorithm a c0) = Ok c2 ->
     getShardIndex c2 k = getShardIndex c1 k) /\
  Get e key c =
    ('(c', r) ← at_shard i (backend_Get e key) c;
     match r with
     | Err err => Some (c', Err err)
     | Ok data => r' ← decode c' data; Some (c', r')
     end) /\
  (forall value ttl,
     Set_ e key value ttl c =
       (r ← encode c value;
        match r with
        | Err err => Some (c, Some err)
        | Ok data => at_shard i (backend_Set e key data ttl) c
        end)) /\
  Delete e key c = at_shard i (backend_Delete e key) c /\
  Exists e key c = at_shard i (backend_Exists e key) c /\
  (forall delta, Increment e key delta c = at_shard i (backend_Increment e key delta) c) /\
  (forall delta, Decrement e key delta c = at_shard i (backend_Decrement e key delta) c).
Proof.
  intros Hh Hd Hn i.
  pose proof (getShardIndex_route c key Hn) as Hi. fold i in Hi.
  assert (Hlt : (i < length (shards c))%nat)
    by (apply (ShardKey_route key (length (shards c))); lia).
  destruct (lookup_lt_is_Some_2 (shards c) i Hlt) as [shard Hs].
  split; [exact Hlt|]. split; [exact Hi|].
  split; [unfold getShard; rewrite Hi; reflexivity|].
  split; [intros a; exact (getShardIndex_route (with_algorithm a c) key Hn)|].
  split.
  { intros a c0 c1 c2 k H1 H2.
    apply initSharding_shards in H1 as [L1 _]. apply initSharding_shards in H2 as [L2 _].
    unfold getShardIndex. rewrite L1, L2. reflexivity. }
  unfold Get, Set_, Delete, Exists, Increment, Decrement,
    getDistributed, setDistributed, deleteDistributed, existsDistributed, at_shard.
  rewrite Hh, Hd, Hi, Hs. cbn [mbind option_bind]. rewrite !Hs. cbn [mbind option_bind].
  split; [destruct (backend_Get e key shard) as [shard' [data|err]]; reflexivity|].
  repeat split; reflexivity.
Qed.

(** *** The operations without a meaning across tiers or shards *)

(** C10. In hierarchical or distributed mode, [Expire] and [TTL] return
    their unsupported-operation error for every key and every duration, and
    leave the client, its tiers and its shards as they were. *)
Theorem Expire_and_TTL_are_unsupported e key ttl (c : Client) :
  Hierarchical (config c) || Distributed (config c) = true ->
  Expire e key ttl c =
    Some (c, Some "expire operation not supported in hierarchical/distributed mode") /\
  TTL_ e key c =
    Some (c, Err "ttl operation not supported in hierarchical/distributed mode").
Proof.
  intros H. unfold Expire, TTL_. rewrite H. split; reflexivity.
Qed.

(** *** [Health] and [Close] over two tiers *)

(** A hierarchical client, as [New] builds it, has its two tiers and neither
    a backend of its own nor shards. *)
Lemma New_hierarchical_shape e cfg (c : Client) :
  New e cfg = Ok c -> Hierarchical (config c) = true ->
  backend c = None /\ shards c = [] /\ is_Some (l1Cache c) /\ is_Some (l2Cache c).
Proof.
  unfold New. destruct (Validate cfg) as [cfg'|err]; [|discriminate].
  destruct (NewSerializer (Serializer cfg')) as [ser|err]; [|discriminate].
  match goal with
  | |- match ?x with Ok _ => _ | Err _ => _ end = _ -> _ =>
      destruct x as [z|err]; [|discriminate]
  end.
  destruct (Hierarchical cfg') eqn:Hh.
  - unfold initHierarchicalCache. cbn [config].
    destruct (cache_New e (tierConfig (L1 cfg') cfg')) as [l1|err]; [|discriminate].
    cbn [config set_l1].
    destruct (cache_New e (tierConfig (L2 cfg') cfg')) as [l2|err]; [|discriminate].
    intros [= <-] _. cbn. eauto.
  - destruct (backends_New e (Backend cfg') cfg') as [b|err]; [|discriminate].
    destruct (Distributed cfg').
    + destruct (initSharding e _) as [c'|err] eqn:E; [|discriminate].
      intros [= <-]. apply initSharding_shards in E as [_ Hc]. rewrite Hc. cbn.
      congruence.
    + intros [= <-]. cbn. congruence.
Qed.


(** *** Promotion *)

(** In hierarchical mode, over any two tiers: an L1 miss followed by an L2
    hit returns L2's value and leaves L1 as the promoting [Set] leaves it,
    whatever error that [Set] reports. *)
Lemma getHierarchical_promotes e key v x (c : Client) l1 l1a l2 l2a l1b perr :
  Hierarchical (config c) = true ->
  l1Cache c = Some l1 -> l2Cache c = Some l2 ->
  cache_Get e key l1 = Some (l1a, Err x) ->
  cache_Get e key l2 = Some (l2a, Ok v) ->
  cache_Set e key v
    (if TTL (L1 (config c)) =? 0 then 5 * Minute else TTL (L1 (config c))) l1a
    = Some (l1b, perr) ->
  Get e key c = Some (set_l1 l1b (set_l2 l2a (set_l1 l1a c)), Ok v).
Proof.
  intros Hh H1 H2 Hmiss Hhit Hset. unfold Get, getHierarchical.
  rewrite Hh, H1. cbn [mbind option_bind]. rewrite Hmiss. cbn [mbind option_bind].
  cbn [l2Cache set_l1]. rewrite H2. cbn [mbind option_bind]. rewrite Hhit.
  cbv zeta. cbn [mbind option_bind config set_l2 set_l1]. unfold Duration in *.
  rewrite Hset. reflexivity.
Qed.

End AnyClient.

(** *** Promotion into a memory-backed L1 *)

Section MemoryL1.
Context {V B T2 : Type}.
Context `{!Codecs V, !BackendI B, !CacheI V T2}.

Abbreviation MemoryTier := (CacheClient V Memory.MemoryBackend Empty_set Empty_set).
Abbreviation TieredClient := (CacheClient V B MemoryTier T2).

Lemma encode_set_backend (l : MemoryTier) b v : encode (set_backend b l) v = encode l v.
Proof. reflexivity. Qed.

Lemma decode_set_backend (l : MemoryTier) b data :
  decode (set_backend b l) data = decode l data.
Proof. reflexivity. Qed.

(** A [Get] leaves the settings of the store, and so the deadline a
    [Set] gives, as they are. *)
Lemma deadline_after_Get e0 ttl e key m :
  Spec.deadline e0 ttl (Memory.Get e key m).1 = Spec.deadline e0 ttl m.
Proof.
  unfold Memory.Get. destruct (Memory.data m !! key) as [item|]; [|reflexivity].
  destruct (Memory.expired e item); reflexivity.
Qed.

(** A [Set] on a single-backend memory client leaves the key with the
    deadline the store gives the TTL, and a [Get] up to that deadline (at
    any time when there is none) gives the value back when the codecs do. *)
Lemma memory_Set_then_Get_until e e2 key v ttl (l : MemoryTier) m l' :
  Hierarchical (config l) = false -> Distributed (config l) = false ->
  backend l = Some m ->
  (forall data, encode l v = Some (Ok data) -> decode l data = Some (Ok v)) ->
  Set_ e key v ttl l = Some (l', None) ->
  (exists m' item, backend l' = Some m' /\ Memory.data m' !! key = Some item /\
     Memory.expireTime item = Spec.deadline e ttl m) /\
  (Spec.deadline e ttl m = 0 \/ now e2 <= Spec.deadline e ttl m ->
   exists l'', Get e2 key l' = Some (l'', Ok v)).
Proof.
  intros Hh Hd Hb Hrt. unfold Set_, setSingle. rewrite Hh, Hd.
  destruct (encode l v) as [[data|err]|] eqn:Henc; cbn [mbind option_bind];
    [|discriminate..].
  rewrite Hb. cbn [mbind option_bind backend_Set MemoryBackend_BackendI].
  unfold Memory.Set_. cbn zeta.
  match goal with
  | |- Some (set_backend ?x l, None) = _ -> _ => set (m' := x)
  end.
  intros [= <-].
  assert (Hitem : Memory.data m' !! key
                  = Some (Memory.mkItem data (Spec.deadline e ttl m) (now e) 0)).
  { subst m'. cbn [Memory.data Memory.set_stats Memory.set_data].
    apply lookup_insert_eq. }
  clearbody m'.
  split.
  - eexists _, _. split; [reflexivity|]. split; [exact Hitem | reflexivity].
  - intros Hfresh. unfold Get, getSingle. cbn [config set_backend backend]. rewrite Hh, Hd.
    cbn [mbind option_bind backend_Get MemoryBackend_BackendI].
    unfold Memory.Get. rewrite Hitem.
    assert (Hexp : Memory.expired e2 (Memory.mkItem data (Spec.deadline e ttl m) (now e) 0)
                   = false).
    { unfold Memory.expired, After, IsZero. cbn [Memory.expireTime].
      destruct (Z.eqb_spec (Spec.deadline e ttl m) 0) as [H0|H0]; [reflexivity|].
      destruct (Z.ltb_spec (Spec.deadline e ttl m) (now e2)); [lia|].
      apply andb_false_r. }
    rewrite Hexp. cbn [Memory.value].
    rewrite !decode_set_backend, (Hrt data eq_refl).
    cbn. eexists. reflexivity.
Qed.

(** A [Set] on a single-backend memory client, then a [Get] before the
    entry expires, gives the value back when the codecs do. *)
Lemma memory_Set_then_Get e e2 key v ttl (l : MemoryTier) m l' :
  Hierarchical (config l) = false -> Distributed (config l) = false ->
  backend l = Some m ->
  (forall data, encode l v = Some (Ok data) -> decode l data = Some (Ok v)) ->
  0 < ttl -> now e2 <= now e + ttl ->
  Set_ e key v ttl l = Some (l', None) ->
  (exists m' item, backend l' = Some m' /\ Memory.data m' !! key = Some item /\
     Memory.expireTime item = now e + ttl) /\
  exists l'', Get e2 key l' = Some (l'', Ok v).
Proof.
  intros Hh Hd Hb Hrt Httl Hnow Hset.
  assert (Hdl : Spec.deadline e ttl m = now e + ttl).
  { unfold Spec.deadline. destruct (Z.ltb_spec 0 ttl); [reflexivity | lia]. }
  destruct (memory_Set_then_Get_until e e2 key v ttl l m l' Hh Hd Hb Hrt Hset)
    as [Hitem Hget].
  rewrite Hdl in Hitem, Hget. split; [exact Hitem|]. apply Hget. right. exact Hnow.
Qed.

(** C7. In hierarchical mode with a memory-backed L1, when L1 misses and L2
    has the value, [Get] returns L2's value whatever the outcome of the
    write into L1, whose error is dropped. The write is a [Set] on L1 with
    the TTL configured for L1, whatever its sign, and with five minutes
    when none is configured (a TTL of zero). When it succeeds, L1 holds the
    key with the deadline the memory store gives that TTL, which is that
    long from now when the configured TTL is not negative, and a lookup in
    L1 alone up to that deadline finds the value. *)
Theorem Get_promotes_to_L1 e e2 key v x (c : TieredClient) (l1 l1a : MemoryTier) m l2 l2a :
  Hierarchical (config c) = true ->
  l1Cache c = Some l1 -> l2Cache c = Some l2 ->
  Hierarchical (config l1) = false -> Distributed (config l1) = false ->
  backend l1 = Some m -> is_Some (serializer l1) ->
  (forall data, encode l1 v = Some (Ok data) -> decode l1 data = Some (Ok v)) ->
  Get e key l1 = Some (l1a, Err x) ->
  cache_Get e key l2 = Some (l2a, Ok v) ->
  exists l1b perr,
    Set_ e key v (promotionTTL c) l1a = Some (l1b, perr) /\
    Get e key c = Some (set_l1 l1b (set_l2 l2a (set_l1 l1a c)), Ok v) /\
    (0 <= TTL (L1 (config c)) ->
       Spec.deadline e (promotionTTL c) m = now e + promotionTTL c) /\
    (perr = None ->
       (exists m' item, backend l1b = Some m' /\ Memory.data m' !! key = Some item /\
          Memory.expireTime item = Spec.deadline e (promotionTTL c) m) /\
       (Spec.deadline e (promotionTTL c) m = 0 \/
        now e2 <= Spec.deadline e (promotionTTL c) m ->
        exists l1c, Get e2 key l1b = Some (l1c, Ok v))).
Proof.
  intros Hh H1 H2 Hh1 Hd1 Hb [ser Hser] Hrt Hmiss Hhit.
  assert (Hl1a : exists ma, l1a = set_backend ma l1 /\ ma = (Memory.Get e key m).1).
  { revert Hmiss. cbn. unfold Get, getSingle. rewrite Hh1, Hd1, Hb. cbn.
    destruct (Memory.Get e key m) as [ma [data|err]].
    - destruct (decode _ data) as [r|]; cbn; [|discriminate].
      intros [= <- _]. eexists. split; reflexivity.
    - intros [= <- _]. eexists. split; reflexivity. }
  destruct Hl1a as (ma & -> & Hma).
  assert (Hset : exists l1b perr,
             Set_ e key v (promotionTTL c) (set_backend ma l1) = Some (l1b, perr)).
  { cbn. unfold Set_, setSingle. cbn [config set_backend backend]. rewrite Hh1, Hd1.
    unfold encode. cbn [serializer set_backend compressor]. rewrite Hser. cbn.
    destruct (Serialize ser v) as [data|err]; [|eauto].
    destruct (compressor l1) as [z|]; [destruct (Compress z data)|]; cbn; eauto. }
  destruct Hset as (l1b & perr & Hset).
  exists l1b, perr. split; [exact Hset|]. split; [|split].
  - eapply getHierarchical_promotes; try eassumption.
  - intros Httl. unfold Spec.deadline, promotionTTL.
    destruct (Z.eqb_spec (TTL (L1 (config c))) 0) as [H0|H0].
    + reflexivity.
    + destruct (Z.ltb_spec 0 (TTL (L1 (config c)))); [reflexivity | lia].
  - intros ->.
    assert (Hdl : Spec.deadline e (promotionTTL c) ma = Spec.deadline e (promotionTTL c) m)
      by (rewrite Hma; apply deadline_after_Get).
    rewrite <- Hdl.
    eapply (memory_Set_then_Get_until e e2 key v (promotionTTL c) (set_backend ma l1) ma);
      try eassumption; try reflexivity.
Qed.

End MemoryL1.

(** *** Concrete runs *)

Lemma Expire_and_TTL_are_unsupported_witness :
  let c := Doubles.stub_client None None None None in
  let e := mkEnv 1 [] in
  Hierarchical (config c) || Distributed (config c) = true /\
  Expire e "k" Minute c =
    Some (c, Some "expire operation not supported in hierarchical/distributed mode") /\
  TTL_ e "k" c =
    Some (c, Err "ttl operation not supported in hierarchical/distributed mode").
Proof.
  intros c e.
  assert (H : Hierarchical (config c) || Distributed (config c) = true) by reflexivity.
  split; [exact H|]. exact (Expire_and_TTL_are_unsupported e "k" Minute c H).
Defined.



Lemma sharded_routing_is_crc32_mod_count_witness :
  let e := mkEnv 1 [] in
  exists c : Doubles.MemoryClient,
    New e (Doubles.shardedConfig "range") = Ok c /\
    Hierarchical (config c) = false /\ Distributed (config c) = true /\
    (1 < length (shards c))%nat /\
    getShardIndex c "user:22" = Some (route "user:22" 3) /\
    route "user:22" 3 = 0%nat.
Proof.
  intros e. eexists. split; [vm_compute; reflexivity|].
  match goal with |- context [config ?x] => set (c := x) end.
  assert (Hh : Hierarchical (config c) = false) by reflexivity.
  assert (Hd : Distributed (config c) = true) by reflexivity.
  assert (Hn : (1 < length (shards c))%nat) by (vm_compute; lia).
  destruct (sharded_routing_is_crc32_mod_count e "user:22" c Hh Hd Hn) as (_ & Hi & _).
  split; [exact Hh|]. split; [exact Hd|]. split; [exact Hn|].
  split; [exact Hi | vm_compute; reflexivity].
Defined.

Lemma Get_promotes_to_L1_witness :
  let c := Doubles.tiered_client Doubles.plain in
  let e := mkEnv 10 [] in
  let e2 := mkEnv (10 + 5 * Minute) [] in
  exists c' l1b l1c,
    Get e "x" c = Some (c', Ok "1") /\
    l1Cache c' = Some l1b /\
    Get e2 "x" l1b = Some (l1c, Ok "1").
Proof.
  intros c e e2.
  destruct (Get_promotes_to_L1 e e2 "x" "1" "key not found" c
              (Doubles.memory_client Doubles.plain
                 (Doubles.fresh_store (Memory.mkConfig "" 0 "lru" 0 0)))
              _ _ _ _
              eq_refl eq_refl eq_refl eq_refl eq_refl eq_refl
              (ex_intro _ _ eq_refl)
              ltac:(intros data [= <-]; reflexivity)
              eq_refl eq_refl)
    as (l1b & perr & Hset & Hget & _ & Hlookup).
  assert (Hperr : perr = None).
  { vm_compute in Hset. injection Hset as _ <-. reflexivity. }
  destruct (Hlookup Hperr) as (_ & Hl1).
  destruct Hl1 as (l1c & Hl1); [right; vm_compute; discriminate|].
  eexists _, l1b, l1c. split; [exact Hget|]. split; [reflexivity | exact Hl1].
Defined.

(** With an L1 whose codec refuses the value, the write into L1 fails, L1
    stays empty, and [Get] returns L2's value all the same. *)
Example Get_returns_L2_value_when_promotion_fails :
  let c := Doubles.tiered_client Doubles.refusing in
  let e := mkEnv 10 [] in
  exists c' l1' m,
    Get e "x" c = Some (c', Ok "1") /\
    l1Cache c' = Some l1' /\ backend l1' = Some m /\ Memory.data m = ∅ /\
    Set_ e "x" "1" (5 * Minute) l1'
      = Some (l1', Some "failed to serialize data: unsupported value").
Proof.
  eexists _, _, _. split; [vm_compute; reflexivity|].
  split; [reflexivity|]. split; [reflexivity|]. split; reflexivity.
Qed.

End FacadeProps.

(** ** More of the memory store *)

Module MemoryLaws.
Import Go Memory Spec Ops MemoryProps.

(** A walk covers a table when it has no repetition and holds every key
    of the table, which can be computed on a given table. *)
Lemma order_covers_keys {A} e (d : gmap string A) :
  NoDup (order e) /\ Forall (fun k => k ∈ order e) (map_to_list d).*1 ->
  order_covers e d.
Proof.
  intros [Hnd Hall]. split; [exact Hnd|]. intros k [v Hk].
  rewrite Forall_forall in Hall. apply Hall.
  apply list_elem_of_fmap. exists (k, v). split; [reflexivity|].
  apply elem_of_map_to_list, Hk.
Qed.

(** Settles a decidable statement about given values by computing it. *)
Ltac by_compute := apply (bool_decide_unpack _); vm_compute; exact I.

(** *** Single keys *)

Lemma Set_stores e key v ttl m :
  (Set_ e key v ttl m).2 = None /\
  data (Set_ e key v ttl m).1 !! key = Some (mkItem v (deadline e ttl m) (now e) 0).
Proof.
  split; [reflexivity|]. unfold Set_. cbn zeta. cbn [fst data set_stats set_data].
  apply lookup_insert_eq.
Qed.

Lemma expired_mkItem e v d t n :
  expired e (mkItem v d t n) = negb (d =? 0) && (d <? now e).
Proof. reflexivity. Qed.

(** X1. A value just stored is read back. [Set] never fails and leaves the
    key holding the value, not yet accessed, with the deadline the TTL
    gives. A [Get] up to the deadline (at any time when there is none)
    returns the value; a [Get] after it fails with the key-expired error
    and removes the key, and the next [Get] reports the key as not found. *)
Theorem Set_then_Get e e2 e3 key v ttl m :
  let m1 := (Set_ e key v ttl m).1 in
  let d := deadline e ttl m in
  (Set_ e key v ttl m).2 = None /\
  data m1 !! key = Some (mkItem v d (now e) 0) /\
  (d = 0 \/ now e2 <= d -> (Get e2 key m1).2 = Ok v) /\
  (d <> 0 /\ d < now e2 ->
     (Get e2 key m1).2 = Err "key expired" /\
     (Get e3 key (Get e2 key m1).1).2 = Err "key not found").
Proof.
  intros m1 d. destruct (Set_stores e key v ttl m) as [Hnone Hitem].
  fold m1 d in Hitem. split; [exact Hnone|]. split; [exact Hitem|]. split.
  - intros Hd. unfold Get. rewrite Hitem, expired_mkItem.
    destruct (Z.eqb_spec d 0) as [H0|H0]; [reflexivity|].
    destruct (Z.ltb_spec d (now e2)); [lia | reflexivity].
  - intros [H0 Hlt].
    assert (Hget : Get e2 key m1
                   = (set_stats (add_miss (stats m1)) (set_data (delete key (data m1)) m1),
                      Err "key expired")).
    { unfold Get. rewrite Hitem, expired_mkItem.
      destruct (Z.eqb_spec d 0) as [|_]; [contradiction|].
      destruct (Z.ltb_spec d (now e2)); [reflexivity | lia]. }
    rewrite Hget. split; [reflexivity|]. unfold Get. cbn [fst data set_stats set_data].
    rewrite lookup_delete_eq. reflexivity.
Qed.

(** X2. [Exists] answers true exactly when a [Get] at the same instant
    returns a value, which is then the live value of the key. [Exists]
    counts neither a hit nor a miss and leaves a live entry as it is, its
    access time and access count included; both [Exists] and [Get] remove
    an entry they find expired. *)
Theorem Exists_agrees_with_Get e key m :
  (Exists e key m).2 = Ok (bool_decide (is_Some (live e m key))) /\
  (Get e key m).2 =
    match live e m key with
    | Some v => Ok v
    | None => Err match data m !! key with
                  | Some _ => "key expired"
                  | None => "key not found"
                  end
    end /\
  stats (Exists e key m).1 = stats m /\
  (is_Some (live e m key) \/ data m !! key = None -> (Exists e key m).1 = m) /\
  (live e m key = None ->
     data (Exists e key m).1 !! key = None /\ data (Get e key m).1 !! key = None).
Proof.
  unfold Exists, Get, live.
  destruct (data m !! key) as [item|] eqn:Hk; cbn [mbind option_bind].
  - destruct (expired e item) eqn:Hx; cbn [fst snd data set_data set_stats].
    + repeat split; try reflexivity.
      * intros [[v Hv] | Hn]; discriminate.
      * apply lookup_delete_eq.
      * apply lookup_delete_eq.
    + repeat split; try reflexivity; discriminate.
  - cbn [fst snd data set_stats]. repeat split; try reflexivity; exact Hk.
Qed.

(** X3. [Delete] never fails and removes the key and nothing else: lookups
    of the key then miss, other keys keep their entries, and a second
    [Delete] changes nothing. A deletion is counted only when the key was
    stored. *)
Theorem Delete_removes_the_key e e2 key m :
  let m1 := (Delete e key m).1 in
  (Delete e key m).2 = None /\
  data m1 = delete key (data m) /\
  (Get e2 key m1).2 = Err "key not found" /\
  (Exists e2 key m1).2 = Ok false /\
  Delete e2 key m1 = (m1, None) /\
  deletes (stats m1) =
    match data m !! key with
    | Some _ => int64 (deletes (stats m) + 1)
    | None => deletes (stats m)
    end.
Proof.
  intros m1.
  assert (Hd : data m1 = delete key (data m)).
  { subst m1. unfold Delete. destruct (data m !! key) eqn:Hk; [reflexivity|].
    cbn [fst]. symmetry. apply delete_id, Hk. }
  assert (Hk1 : data m1 !! key = None) by (rewrite Hd; apply lookup_delete_eq).
  split; [unfold Delete; destruct (data m !! key); reflexivity|].
  split; [exact Hd|].
  split; [unfold Get; rewrite Hk1; reflexivity|].
  split; [unfold Exists; rewrite Hk1; reflexivity|].
  split; [unfold Delete at 1; rewrite Hk1; reflexivity|].
  subst m1. unfold Delete. destruct (data m !! key); reflexivity.
Qed.

(** X4. [Expire] and [TTL] on a stored key. [Expire] never looks at the
    old deadline: with a positive TTL the key expires that long from now,
    otherwise it stops expiring; the value stays. [TTL] changes nothing and
    reports the time left, zero once the deadline has passed and [-1] when
    there is no deadline; after a [Set] it reports the time left to the
    deadline of the [Set]. On a key that is not stored, both fail with the
    key-not-found error and change nothing. *)
Theorem Expire_then_TTL e e2 key ttl m :
  0 <= now e ->
  (forall item, data m !! key = Some item ->
     let m1 := (Expire e key ttl m).1 in
     (Expire e key ttl m).2 = None /\
     (value <$> data m1 !! key) = Some (value item) /\
     TTL e2 key m1 = (m1, Ok (if 0 <? ttl then Z.max 0 (now e + ttl - now e2) else -1)) /\
     TTL e2 key m = (m, Ok (remaining e2 (expireTime item)))) /\
  (forall v, TTL e2 key (Set_ e key v ttl m).1
             = ((Set_ e key v ttl m).1, Ok (remaining e2 (deadline e ttl m)))) /\
  (data m !! key = None ->
     Expire e key ttl m = (m, Some "key not found") /\
     TTL e key m = (m, Err "key not found")).
Proof.
  intros Hnow. split; [|split].
  - intros item Hk m1. subst m1. unfold Expire. rewrite Hk. cbn [fst snd].
    split; [reflexivity|].
    cbn [data set_data]. rewrite lookup_insert_eq. split; [reflexivity|].
    split.
    + unfold TTL. cbn [data set_data]. rewrite lookup_insert_eq.
      cbn [expireTime]. unfold IsZero, Add.
      destruct (Z.ltb_spec 0 ttl) as [Hpos|Hle]; [|reflexivity].
      destruct (Z.eqb_spec (now e + ttl) 0); [lia|].
      destruct (Z.ltb_spec (now e + ttl - now e2) 0);
        f_equal; f_equal; lia.
    + unfold TTL, remaining. rewrite Hk. unfold IsZero.
      destruct (expireTime item =? 0); [reflexivity|].
      destruct (Z.ltb_spec (expireTime item - now e2) 0);
        f_equal; f_equal; lia.
  - intros v. destruct (Set_stores e key v ttl m) as [_ Hitem].
    unfold TTL, remaining. rewrite Hitem. cbn [expireTime]. unfold IsZero.
    destruct (deadline e ttl m =? 0); [reflexivity|].
    destruct (Z.ltb_spec (deadline e ttl m - now e2) 0);
      f_equal; f_equal; lia.
  - intros Hk. unfold Expire, TTL. rewrite Hk. split; reflexivity.
Qed.

Lemma Expire_then_TTL_witness :
  let m := (Set_ (mkEnv 5 []) "k" "v" 0 (Doubles.fresh_store (mkConfig "" 0 "lru" 0 0))).1 in
  let e := mkEnv 10 [] in
  let e2 := mkEnv 12 [] in
  0 <= now e /\
  (TTL e2 "k" m).2 = Ok (-1) /\
  (TTL e2 "k" (Expire e "k" 7 m).1).2 = Ok 5 /\
  (TTL (mkEnv 20 []) "k" (Set_ e "k" "w" 7 m).1).2 = Ok 0.
Proof.
  intros m e e2.
  assert (Hnow : 0 <= now e) by (vm_compute; discriminate).
  split; [exact Hnow|].
  destruct (Expire_then_TTL e e2 "k" 7 m Hnow) as (Hstored & _ & _).
  destruct (Hstored _ eq_refl) as (_ & _ & H1 & H2).
  destruct (Expire_then_TTL e (mkEnv 20 []) "k" 7 m Hnow) as (_ & Hset & _).
  split; [rewrite H2; reflexivity|].
  split; [rewrite H1; reflexivity|].
  rewrite Hset. reflexivity.
Defined.

(** *** Batches *)

(** A [Get] changes nothing of what a lookup at the same instant sees. *)
Lemma Get_live e key m k : live e (Get e key m).1 k = live e m k.
Proof.
  unfold Get, live. destruct (data m !! key) as [item|] eqn:Hk; [|reflexivity].
  destruct (expired e item) eqn:Hx; cbn [fst data set_stats set_data].
  - destruct (decide (k = key)) as [->|Hne].
    + rewrite lookup_delete_eq, Hk. cbn. rewrite Hx. reflexivity.
    + rewrite lookup_delete_ne by congruence. reflexivity.
  - destruct (decide (k = key)) as [->|Hne].
    + rewrite lookup_insert_eq, Hk. cbn. unfold expired in *. cbn. rewrite Hx. reflexivity.
    + rewrite lookup_insert_ne by congruence. reflexivity.
Qed.

Lemma Get_result e key m :
  (Get e key m).2 = match live e m key with
                    | Some v => Ok v
                    | None => Err match data m !! key with
                                  | Some _ => "key expired"
                                  | None => "key not found"
                                  end
                    end.
Proof.
  unfold Get, live. destruct (data m !! key) as [item|]; [|reflexivity].
  cbn. destruct (expired e item); reflexivity.
Qed.

Lemma GetMulti_fold e keys : forall m r,
  let f := fun (acc : MemoryBackend * gmap string string) key =>
             match Get e key acc.1 with
             | (m1, Ok value) => (m1, <[key := value]> acc.2)
             | (m1, Err _) => (m1, acc.2)
             end in
  forall k,
    (fold_left f keys (m, r)).2 !! k =
      if decide (k ∈ keys)
      then match live e m k with Some v => Some v | None => r !! k end
      else r !! k.
Proof.
  induction keys as [|key keys IH]; intros m r f k; cbn [fold_left].
  - destruct (decide (k ∈ [])) as [H|_]; [inversion H | reflexivity].
  - pose proof (Get_result e key m) as Hres. pose proof (Get_live e key m) as Hlive.
    assert (Hstep : f (m, r) key
                    = ((Get e key m).1,
                       match live e m key with
                       | Some v => <[key := v]> r
                       | None => r
                       end)).
    { subst f. cbn [fst snd]. destruct (Get e key m) as [m1 res]. cbn [fst snd] in *.
      rewrite Hres. destruct (live e m key); reflexivity. }
    rewrite Hstep. subst f. rewrite IH. clear IH Hstep Hres.
    rewrite Hlive.
    destruct (decide (k ∈ keys)) as [Hin|Hnin].
    + rewrite decide_True by (right; exact Hin).
      destruct (live e m k) as [v|] eqn:Hk; [reflexivity|].
      destruct (live e m key) as [v'|] eqn:Hkey; [|reflexivity].
      rewrite lookup_insert_ne; [reflexivity|]. intros ->. congruence.
    + destruct (decide (k = key)) as [->|Hne].
      * rewrite decide_True by left.
        destruct (live e m key); [apply lookup_insert_eq | reflexivity].
      * rewrite decide_False by (rewrite elem_of_cons; intros [|]; contradiction).
        destruct (live e m key); [apply lookup_insert_ne; congruence | reflexivity].
Qed.

(** X5. [GetMulti] never fails, and its result holds exactly the requested
    keys that are stored and have not expired, each with its value; a key
    that is missing or expired is left out without an error, and asking
    for a key twice changes nothing. *)
Theorem GetMulti_returns_the_live_keys e keys m :
  exists r, (GetMulti e keys m).2 = Ok r /\
    forall k, r !! k = if decide (k ∈ keys) then live e m k else None.
Proof.
  unfold GetMulti.
  pose proof (GetMulti_fold e keys m ∅) as H. cbn zeta in H.
  destruct (fold_left _ keys (m, ∅)) as [m' r]. cbn [snd] in *.
  exists r. split; [reflexivity|]. intros k. rewrite H.
  destruct (decide (k ∈ keys)); [|apply lookup_empty].
  destruct (live e m k); [reflexivity | apply lookup_empty].
Qed.

(** Without limits, a [Set] inserts its entry and touches nothing else of
    the table or of the settings. *)
Lemma Set_unlimited e key v ttl m :
  unlimited m ->
  data (Set_ e key v ttl m).1 = <[key := mkItem v (deadline e ttl m) (now e) 0]> (data m) /\
  config (Set_ e key v ttl m).1 = config m /\
  maxSize (Set_ e key v ttl m).1 = maxSize m.
Proof.
  intros [Hs Hk]. unfold Set_. cbn zeta.
  destruct (Z.ltb_spec 0 (maxSize m)) as [|_]; [lia|]. cbn [andb].
  destruct (Z.ltb_spec 0 (MaxKeys (config m))) as [|_]; [lia|]. cbn [andb].
  destruct (data m !! key); repeat split; reflexivity.
Qed.

Lemma SetMulti_loop_unlimited e ttl items : forall m,
  unlimited m -> NoDup items.*1 ->
  (SetMulti_loop e items ttl m).2 = None /\
  forall k,
    data (SetMulti_loop e items ttl m).1 !! k =
      match list_find (fun kv => kv.1 = k) items with
      | Some (_, (_, v)) => Some (mkItem v (deadline e ttl m) (now e) 0)
      | None => data m !! k
      end.
Proof.
  induction items as [|[key v] items IH]; intros m Hu Hnd.
  - split; [reflexivity|]. intros k. reflexivity.
  - cbn [SetMulti_loop].
    destruct (Set_unlimited e key v ttl m Hu) as (Hd & Hc & Hs).
    destruct (Set_ e key v ttl m) as [m1 err] eqn:E.
    assert (err = None) as -> by exact (eq_sym (f_equal snd E)).
    cbn [fst] in *.
    assert (Hu1 : unlimited m1) by (destruct Hu; split; rewrite ?Hs, ?Hc; assumption).
    apply NoDup_cons in Hnd as [Hkey Hnd].
    destruct (IH m1 Hu1 Hnd) as [IH1 IH2]. split; [exact IH1|].
    intros k. rewrite IH2. cbn [list_find]. cbn [fst].
    assert (Hdl : deadline e ttl m1 = deadline e ttl m)
      by (unfold deadline; rewrite Hc; reflexivity).
    destruct (decide (key = k)) as [->|Hne].
    + destruct (list_find _ items) as [[i [k' v']]|] eqn:Hf.
      * exfalso. apply list_find_Some in Hf as (Hi & Hk' & _). cbn in Hk'. subst k'.
        apply Hkey. apply list_elem_of_fmap. exists (k, v'). split; [reflexivity|].
        eapply list_elem_of_lookup_2, Hi.
      * cbn. rewrite Hd. apply lookup_insert_eq.
    + destruct (list_find _ items) as [[i [k' v']]|] eqn:Hf; cbn.
      * rewrite Hdl. reflexivity.
      * rewrite Hd. apply lookup_insert_ne. exact Hne.
Qed.

Lemma range_lookup {A} e (d : gmap string A) k :
  order_covers e d ->
  (fun kv => kv.2.2) <$> list_find (fun kv => kv.1 = k) (range e d) = d !! k.
Proof.
  intros [Hnd Hcov]. destruct (range_spec e d Hnd) as [Hnd' Hin].
  destruct (list_find _ (range e d)) as [[i [k' v']]|] eqn:Hf; cbn.
  - apply list_find_Some in Hf as (Hi & Hk' & _). cbn in Hk'. subst k'.
    symmetry. apply Hin. eapply list_elem_of_lookup_2, Hi.
  - destruct (d !! k) as [v|] eqn:Hk; [|reflexivity]. exfalso.
    apply list_find_None in Hf. rewrite Forall_forall in Hf.
    apply (Hf (k, v)); [|reflexivity].
    unfold range. apply list_elem_of_omap. exists k.
    split; [apply Hcov; eauto | rewrite Hk; reflexivity].
Qed.

(** X6. On a store without limits, [SetMulti] never fails and stores every
    item of the map, each as a [Set] with the same TTL stores it; keys that
    are not in the map keep their entries. *)
Theorem SetMulti_stores_every_item e items ttl m :
  unlimited m -> order_covers e items ->
  let m1 := (SetMulti e items ttl m).1 in
  (SetMulti e items ttl m).2 = None /\
  forall k,
    data m1 !! k =
      match items !! k with
      | Some v => Some (mkItem v (deadline e ttl m) (now e) 0)
      | None => data m !! k
      end.
Proof.
  intros Hu Hcov m1. subst m1. unfold SetMulti.
  destruct (range_spec e items (proj1 Hcov)) as [Hnd _].
  destruct (SetMulti_loop_unlimited e ttl (range e items) m Hu Hnd) as [H1 H2].
  split; [exact H1|]. intros k. rewrite H2.
  pose proof (range_lookup e items k Hcov) as Hl.
  destruct (list_find _ (range e items)) as [[i [k' v']]|]; cbn in Hl;
    rewrite <- Hl; reflexivity.
Qed.

Lemma SetMulti_stores_every_item_witness :
  let m := Doubles.fresh_store (mkConfig "" 0 "lru" 0 0) in
  let e := mkEnv 3 ["b"; "a"] in
  let items : gmap string string := <["a" := "1"]> (<["b" := "2"]> ∅) in
  unlimited m /\ order_covers e items /\
  (value <$> data (SetMulti e items 0 m).1 !! "a") = Some "1" /\
  (value <$> data (SetMulti e items 0 m).1 !! "b") = Some "2".
Proof.
  intros m e items.
  assert (Hu : unlimited m) by (split; vm_compute; discriminate).
  assert (Hcov : order_covers e items) by (apply order_covers_keys; by_compute).
  split; [exact Hu|]. split; [exact Hcov|].
  destruct (SetMulti_stores_every_item e items 0 m Hu Hcov) as [_ H].
  split; rewrite H; reflexivity.
Defined.

(** X7. [DeleteMulti] never fails and removes exactly the listed keys: a
    listed key is gone, whether or not it was stored, and every other key
    keeps its entry. *)
Theorem DeleteMulti_removes_the_listed_keys e keys m :
  let m1 := (DeleteMulti e keys m).1 in
  (DeleteMulti e keys m).2 = None /\
  forall k, data m1 !! k = if decide (k ∈ keys) then None else data m !! k.
Proof.
  cbn zeta. revert m. induction keys as [|key keys IH]; intros m.
  - split; [reflexivity|]. intros k.
    destruct (decide (k ∈ [])) as [H|_]; [inversion H | reflexivity].
  - cbn [DeleteMulti].
    assert (Hdel : Delete e key m = ((Delete e key m).1, None))
      by (unfold Delete; destruct (data m !! key); reflexivity).
    assert (Hd : data (Delete e key m).1 = delete key (data m)).
    { unfold Delete. destruct (data m !! key) eqn:Hk; [reflexivity|].
      cbn [fst]. symmetry. apply delete_id, Hk. }
    rewrite Hdel. destruct (IH (Delete e key m).1) as [IH1 IH2].
    split; [exact IH1|]. intros k. rewrite IH2, Hd.
    destruct (decide (k ∈ keys)) as [Hin|Hnin].
    + rewrite decide_True by (right; exact Hin). reflexivity.
    + destruct (decide (k = key)) as [->|Hne].
      * rewrite decide_True by left. apply lookup_delete_eq.
      * rewrite decide_False by (rewrite elem_of_cons; intros [|]; contradiction).
        apply lookup_delete_ne. congruence.
Qed.

(** *** The expiry sweep *)

Lemma cleanup_fold_data e l : forall m,
  NoDup l.*1 -> (forall k it, (k, it) ∈ l -> data m !! k = Some it) ->
  forall k,
    data (fold_left (cleanup_step e) l m) !! k =
      match data m !! k with
      | Some it => if bool_decide (k ∈ l.*1) && expired e it then None else Some it
      | None => None
      end.
Proof.
  induction l as [|[k1 it1] l IH]; intros m Hnd Hin k.
  - cbn. destruct (data m !! k); reflexivity.
  - cbn [fold_left]. apply NoDup_cons in Hnd as [Hk1 Hnd].
    assert (H1 : data m !! k1 = Some it1) by (apply Hin; left).
    assert (Hstep : data (cleanup_step e m (k1, it1))
                    = if expired e it1 then delete k1 (data m) else data m)
      by (unfold cleanup_step; destruct (expired e it1); reflexivity).
    rewrite IH; [|exact Hnd|].
    + rewrite Hstep. cbn [fmap list_fmap fst].
      destruct (decide (k = k1)) as [->|Hne].
      * rewrite (bool_decide_eq_false_2 (k1 ∈ l.*1)) by exact Hk1.
        rewrite bool_decide_eq_true_2 by left. rewrite H1. cbn [andb].
        destruct (expired e it1); [rewrite lookup_delete_eq | rewrite H1]; reflexivity.
      * assert (Hl : (if expired e it1 then delete k1 (data m) else data m) !! k
                     = data m !! k)
          by (destruct (expired e it1); [apply lookup_delete_ne; congruence | reflexivity]).
        rewrite Hl. destruct (data m !! k) as [it|]; [|reflexivity].
        assert (Hb : bool_decide (k ∈ k1 :: l.*1) = bool_decide (k ∈ l.*1)).
        { apply bool_decide_ext. rewrite elem_of_cons. tauto. }
        rewrite Hb. reflexivity.
    + intros k' it' Hin'. rewrite Hstep.
      assert (k' <> k1).
      { intros ->. apply Hk1. apply list_elem_of_fmap. exists (k1, it'). auto. }
      destruct (expired e it1); [rewrite lookup_delete_ne by congruence|];
        apply Hin; right; exact Hin'.
Qed.

Lemma filter_filter_live e (d : gmap string memoryItem) :
  filter (fun kv => expired e kv.2 = false) (filter (fun kv => expired e kv.2 = false) d)
  = filter (fun kv => expired e kv.2 = false) d.
Proof.
  apply map_eq. intros k. rewrite !map_lookup_filter.
  destruct (d !! k) as [it|]; cbn; [|reflexivity].
  destruct (decide (expired e it = false)) as [H|H].
  - rewrite option_guard_True by exact H. cbn. rewrite option_guard_True by exact H. reflexivity.
  - rewrite option_guard_False by exact H. reflexivity.
Qed.

(** X8. The expiry sweep removes exactly the entries that have expired:
    when its walk over the table visits every key once, the table it
    leaves is the old one without its expired entries. It keeps the size
    accounting, and the usage it leaves is the sum of the sizes of the live
    entries. *)
Theorem cleanupExpired_removes_exactly_the_expired e m :
  order_covers e (data m) ->
  data (cleanupExpired e m) = filter (fun kv => expired e kv.2 = false) (data m) /\
  (accounted m -> accounted (cleanupExpired e m) /\ usage_accounted e (cleanupExpired e m)).
Proof.
  intros [Hnd Hcov]. destruct (range_spec e (data m) Hnd) as [Hnd' Hin].
  assert (Hdata : data (cleanupExpired e m)
                  = filter (fun kv => expired e kv.2 = false) (data m)).
  { apply map_eq. intros k. unfold cleanupExpired.
    rewrite (cleanup_fold_data e _ m Hnd' Hin), map_lookup_filter.
    destruct (data m !! k) as [it|] eqn:Hk; [|reflexivity]. cbn.
    assert (Hmem : k ∈ (range e (data m)).*1).
    { apply list_elem_of_fmap. exists (k, it). split; [reflexivity|].
      unfold range. apply list_elem_of_omap. exists k.
      split; [apply Hcov; eauto | rewrite Hk; reflexivity]. }
    rewrite bool_decide_eq_true_2 by exact Hmem. cbn [andb].
    destruct (expired e it) eqn:Hx.
    - rewrite option_guard_False by discriminate. reflexivity.
    - rewrite option_guard_True by reflexivity. reflexivity. }
  split; [exact Hdata|]. intros Ha.
  pose proof (cleanupExpired_accounted e m Hnd Ha) as Ha'.
  split; [exact Ha'|]. unfold usage_accounted, live_size.
  rewrite (proj1 Ha'), Hdata. symmetry. f_equal. apply filter_filter_live.
Qed.

Lemma cleanupExpired_removes_exactly_the_expired_witness :
  let m0 := Doubles.fresh_store (mkConfig "" 0 "lru" 0 0) in
  let m := (Set_ (mkEnv 2 ["a"]) "b" "stay" 0 (Set_ (mkEnv 1 []) "a" "go" 1 m0).1).1 in
  let e := mkEnv 9 ["b"; "a"] in
  order_covers e (data m) /\ accounted m /\
  currentSize m = 6 /\ currentSize (cleanupExpired e m) = 4 /\
  data (cleanupExpired e m) !! "a" = None /\
  usage_accounted e (cleanupExpired e m).
Proof.
  intros m0 m e.
  assert (Hcov : order_covers e (data m)) by (apply order_covers_keys; by_compute).
  assert (Ha : accounted m) by (split; vm_compute; [reflexivity | discriminate]).
  destruct (cleanupExpired_removes_exactly_the_expired e m Hcov) as [Hdata Hacc].
  split; [exact Hcov|]. split; [exact Ha|].
  split; [reflexivity|]. split; [vm_compute; reflexivity|].
  split; [vm_compute; reflexivity | exact (proj2 (Hacc Ha))].
Defined.

(** *** Eviction *)

Lemma lru_fold_min l : forall k0 t0,
  k0 <> "" -> (forall k it, (k, it) ∈ l -> k <> "") ->
  let r := fold_left lru_step l (k0, t0) in
  r.2 <= t0 /\ (forall k it, (k, it) ∈ l -> r.2 <= accessTime it) /\
  (r = (k0, t0) \/ exists it, (r.1, it) ∈ l /\ r.2 = accessTime it) /\ r.1 <> "".
Proof.
  induction l as [|[k it] l IH]; intros k0 t0 Hk0 Hne; cbn [fold_left].
  - cbn. split; [lia|]. split; [intros k it H; inversion H|]. split; [left; reflexivity | exact Hk0].
  - assert (Hk : k <> "") by (apply (Hne k it); left).
    assert (Hne' : forall k' it', (k', it') ∈ l -> k' <> "")
      by (intros k' it' H; apply (Hne k' it'); right; exact H).
    assert (Hstep : lru_step (k0, t0) (k, it)
                    = if accessTime it <? t0 then (k, accessTime it) else (k0, t0)).
    { unfold lru_step, Before. apply String.eqb_neq in Hk0 as ->. reflexivity. }
    rewrite Hstep. clear Hstep.
    destruct (Z.ltb_spec (accessTime it) t0) as [Hlt|Hge].
    + destruct (IH k (accessTime it) Hk Hne') as (H1 & H2 & H3 & H4). cbn zeta.
      split; [lia|]. split; [|split; [|exact H4]].
      * intros k' it' Hin. apply elem_of_cons in Hin as [[= -> ->]|Hin]; [exact H1 | eauto].
      * right. destruct H3 as [-> | (it' & Hin & Ht)].
        -- exists it. split; [left | reflexivity].
        -- exists it'. split; [right; exact Hin | exact Ht].
    + destruct (IH k0 t0 Hk0 Hne') as (H1 & H2 & H3 & H4). cbn zeta.
      split; [exact H1|]. split; [|split; [|exact H4]].
      * intros k' it' Hin. apply elem_of_cons in Hin as [[= -> ->]|Hin]; [lia | eauto].
      * destruct H3 as [-> | (it' & Hin & Ht)]; [left; reflexivity|].
        right. exists it'. split; [right; exact Hin | exact Ht].
Qed.

Lemma lfu_fold_min l : forall k0 n0,
  0 <= n0 -> (forall k it, (k, it) ∈ l -> 0 <= accessCount it) ->
  let r := fold_left lfu_step l (k0, n0) in
  0 <= r.2 <= n0 /\ (forall k it, (k, it) ∈ l -> r.2 <= accessCount it) /\
  (r = (k0, n0) \/ exists it, (r.1, it) ∈ l /\ r.2 = accessCount it).
Proof.
  induction l as [|[k it] l IH]; intros k0 n0 Hn0 Hpos; cbn [fold_left].
  - cbn. split; [lia|]. split; [intros k it H; inversion H | left; reflexivity].
  - assert (Hit : 0 <= accessCount it) by (apply (Hpos k it); left).
    assert (Hpos' : forall k' it', (k', it') ∈ l -> 0 <= accessCount it')
      by (intros k' it' H; apply (Hpos k' it'); right; exact H).
    assert (Hstep : lfu_step (k0, n0) (k, it)
                    = if accessCount it <? n0 then (k, accessCount it) else (k0, n0)).
    { unfold lfu_step. destruct (Z.eqb_spec n0 (-1)) as [|_]; [lia | reflexivity]. }
    rewrite Hstep. clear Hstep.
    destruct (Z.ltb_spec (accessCount it) n0) as [Hlt|Hge].
    + destruct (IH k (accessCount it) Hit Hpos') as (H1 & H2 & H3). cbn zeta.
      split; [lia|]. split.
      * intros k' it' Hin. apply elem_of_cons in Hin as [[= -> ->]|Hin]; [lia | eauto].
      * right. destruct H3 as [-> | (it' & Hin & Ht)].
        -- exists it. split; [left | reflexivity].
        -- exists it'. split; [right; exact Hin | exact Ht].
    + destruct (IH k0 n0 Hn0 Hpos') as (H1 & H2 & H3). cbn zeta.
      split; [exact H1|]. split.
      * intros k' it' Hin. apply elem_of_cons in Hin as [[= -> ->]|Hin]; [lia | eauto].
      * destruct H3 as [-> | (it' & Hin & Ht)]; [left; reflexivity|].
        right. exists it'. split; [right; exact Hin | exact Ht].
Qed.

(** The walk of a table that is covered meets every entry, and only
    entries of the table. *)
Lemma range_entries {A} e (d : gmap string A) :
  order_covers e d -> forall k it, (k, it) ∈ range e d <-> d !! k = Some it.
Proof.
  intros [Hnd Hcov] k it. split; [apply (range_spec e d Hnd)|].
  intros Hk. unfold range. apply list_elem_of_omap. exists k.
  split; [apply Hcov; eauto | rewrite Hk; reflexivity].
Qed.

Lemma evict_key_evicted k item m : data m !! k = Some item -> evict_key k m = evicted k item m.
Proof. intros H. unfold evict_key. rewrite H. reflexivity. Qed.

(** X9. On a table that is not empty and does not hold the empty string as
    a key, [evictLRU] removes one entry, the one whose last access is the
    oldest (no entry has an older one), subtracts its size from the usage
    and counts one eviction. [evictItems] does the same under the policy
    "lru" and under every policy that is neither "lfu" nor "random". *)
Theorem evictLRU_evicts_the_least_recently_used e m :
  order_covers e (data m) -> data m !! "" = None -> data m <> ∅ ->
  exists k item,
    data m !! k = Some item /\
    (forall k' item', data m !! k' = Some item' -> accessTime item <= accessTime item') /\
    evictLRU e m = evicted k item m /\
    (forall n, EvictionPolicy (config m) <> "lfu" -> EvictionPolicy (config m) <> "random" ->
       evictItems e n m = evicted k item m).
Proof.
  intros Hcov Hempty Hne.
  pose proof (range_entries e (data m) Hcov) as Hent.
  assert (Hkeys : forall k it, (k, it) ∈ range e (data m) -> k <> "").
  { intros k it Hin ->. apply Hent in Hin. congruence. }
  assert (Hpick : exists k item, data m !! k = Some item /\
            (forall k' item', data m !! k' = Some item' -> accessTime item <= accessTime item') /\
            fold_left lru_step (range e (data m)) ("", 0) = (k, accessTime item) /\ k <> "").
  { destruct (range e (data m)) as [|[k1 it1] l] eqn:Hr.
    - exfalso. apply Hne. apply map_empty. intros k.
      destruct (data m !! k) as [it|] eqn:Hk; [|reflexivity].
      apply Hent in Hk. inversion Hk.
    - cbn [fold_left]. change (lru_step ("", 0) (k1, it1)) with (k1, accessTime it1).
      assert (Hk1 : k1 <> "") by (apply (Hkeys k1 it1); left).
      destruct (lru_fold_min l k1 (accessTime it1) Hk1) as (H1 & H2 & H3 & H4).
      { intros k it Hin. apply (Hkeys k it). right. exact Hin. }
      cbn zeta in *. destruct (fold_left lru_step l (k1, accessTime it1)) as [k t].
      cbn [fst snd] in *.
      assert (Hk : exists item, data m !! k = Some item /\ t = accessTime item).
      { destruct H3 as [[= -> ->] | (it & Hin & Ht)].
        - exists it1. split; [apply Hent; left | reflexivity].
        - exists it. split; [apply Hent; right; exact Hin | exact Ht]. }
      destruct Hk as (item & Hk & ->). exists k, item. split; [exact Hk|].
      split; [|split; [reflexivity | exact H4]].
      intros k' item' Hk'. apply Hent in Hk'.
      apply elem_of_cons in Hk' as [[= -> ->]|Hin]; [exact H1 | eauto]. }
  destruct Hpick as (k & item & Hk & Hmin & Hfold & Hkne).
  assert (Hlru : evictLRU e m = evicted k item m).
  { unfold evictLRU. rewrite Hfold. apply String.eqb_neq in Hkne. rewrite Hkne. cbn [negb].
    apply evict_key_evicted, Hk. }
  exists k, item. split; [exact Hk|]. split; [exact Hmin|]. split; [exact Hlru|].
  intros n Hlfu Hrandom. unfold evictItems.
  apply String.eqb_neq in Hlfu, Hrandom. rewrite Hlfu, Hrandom.
  destruct (String.eqb _ "lru"); exact Hlru.
Qed.

Lemma evictLRU_evicts_the_least_recently_used_witness :
  let m0 := Doubles.fresh_store (mkConfig "" 0 "lru" 0 0) in
  let m1 := (Set_ (mkEnv 1 []) "a" "x" 0 m0).1 in
  let m2 := (Set_ (mkEnv 2 ["a"]) "b" "yy" 0 m1).1 in
  let m := (Get (mkEnv 3 ["a"; "b"]) "a" m2).1 in
  let e := mkEnv 4 ["a"; "b"] in
  order_covers e (data m) /\ data m !! "" = None /\ data m <> ∅ /\
  data (evictLRU e m) !! "b" = None /\ is_Some (data (evictLRU e m) !! "a") /\
  currentSize m = 3 /\ currentSize (evictLRU e m) = 1.
Proof.
  intros m0 m1 m2 m e.
  assert (Hcov : order_covers e (data m))
    by (apply order_covers_keys; by_compute).
  assert (Hempty : data m !! "" = None) by (vm_compute; reflexivity).
  assert (Hne : data m <> ∅).
  { intros H. assert (Hb : data m !! "b" = None) by (rewrite H; apply lookup_empty).
    vm_compute in Hb. discriminate. }
  destruct (evictLRU_evicts_the_least_recently_used e m Hcov Hempty Hne)
    as (k & item & _ & _ & _ & _).
  split; [exact Hcov|]. split; [exact Hempty|]. split; [exact Hne|].
  vm_compute. repeat split; try reflexivity. eauto.
Defined.

(** X10. Under the policy "lfu", on a table that is not empty and does not
    hold the empty string as a key, [evictItems] removes one entry, one
    with the fewest accesses; under the policy "random", on a table that is
    not empty, it removes the entry its walk over the table meets first.
    Either way the entry's size leaves the usage and one eviction is
    counted. *)
Theorem evictItems_evicts_by_frequency_or_at_random e n m :
  order_covers e (data m) -> data m <> ∅ ->
  (EvictionPolicy (config m) = "lfu" ->
   data m !! "" = None ->
   (forall k item, data m !! k = Some item -> 0 <= accessCount item) ->
   exists k item,
     data m !! k = Some item /\
     (forall k' item', data m !! k' = Some item' -> accessCount item <= accessCount item') /\
     evictItems e n m = evicted k item m) /\
  (EvictionPolicy (config m) = "random" ->
   exists k item rest,
     range e (data m) = (k, item) :: rest /\ data m !! k = Some item /\
     evictItems e n m = evicted k item m).
Proof.
  intros Hcov Hne.
  pose proof (range_entries e (data m) Hcov) as Hent.
  assert (Hrange : exists k1 it1 l, range e (data m) = (k1, it1) :: l).
  { destruct (range e (data m)) as [|[k1 it1] l] eqn:Hr; [|eauto].
    exfalso. apply Hne. apply map_empty. intros k.
    destruct (data m !! k) as [it|] eqn:Hk; [|reflexivity].
    apply Hent in Hk. inversion Hk. }
  destruct Hrange as (k1 & it1 & l & Hr). split.
  - intros Hpol Hempty Hpos. unfold evictItems, evictLFU. rewrite Hpol. cbn [String.eqb].
    change (String.eqb "lfu" "lru") with false. change (String.eqb "lfu" "lfu") with true.
    cbn iota.
    assert (Hposl : forall k it, (k, it) ∈ range e (data m) -> 0 <= accessCount it)
      by (intros k it Hin; apply (Hpos k it), Hent, Hin).
    rewrite Hr in *. cbn [fold_left].
    change (lfu_step ("", -1) (k1, it1)) with (k1, accessCount it1).
    destruct (lfu_fold_min l k1 (accessCount it1)) as (H1 & H2 & H3).
    { apply (Hposl k1 it1). left. }
    { intros k it Hin. apply (Hposl k it). right. exact Hin. }
    cbn zeta in *. destruct (fold_left lfu_step l (k1, accessCount it1)) as [k t].
    cbn [fst snd] in *.
    assert (Hk : exists item, data m !! k = Some item /\ t = accessCount item).
    { destruct H3 as [[= -> ->] | (it & Hin & Ht)].
      - exists it1. split; [apply Hent; left | reflexivity].
      - exists it. split; [apply Hent; right; exact Hin | exact Ht]. }
    destruct Hk as (item & Hk & ->). exists k, item. split; [exact Hk|]. split.
    + intros k' item' Hk'. apply Hent in Hk'.
      apply elem_of_cons in Hk' as [[= -> ->]|Hin]; [lia | eauto].
    + assert (Hkne : k <> "") by (intros ->; congruence).
      apply String.eqb_neq in Hkne. rewrite Hkne. cbn [negb].
      apply evict_key_evicted, Hk.
  - intros Hpol. unfold evictItems, evictRandom. rewrite Hpol.
    change (String.eqb "random" "lru") with false.
    change (String.eqb "random" "lfu") with false.
    change (String.eqb "random" "random") with true. cbn iota. rewrite Hr.
    assert (Hk1 : data m !! k1 = Some it1) by (apply Hent; rewrite Hr; left).
    exists k1, it1, l. split; [reflexivity|]. split; [exact Hk1|].
    apply evict_key_evicted, Hk1.
Qed.

Lemma evictItems_evicts_by_frequency_or_at_random_witness :
  let m0 := Doubles.fresh_store (mkConfig "" 0 "lfu" 0 0) in
  let m1 := (Set_ (mkEnv 1 []) "a" "x" 0 m0).1 in
  let m2 := (Set_ (mkEnv 2 ["a"]) "b" "yy" 0 m1).1 in
  let m := (Get (mkEnv 3 ["a"; "b"]) "a" m2).1 in
  let e := mkEnv 4 ["a"; "b"] in
  order_covers e (data m) /\ data m <> ∅ /\
  data (evictItems e 1 m) !! "b" = None /\ is_Some (data (evictItems e 1 m) !! "a").
Proof.
  intros m0 m1 m2 m e.
  assert (Hcov : order_covers e (data m))
    by (apply order_covers_keys; by_compute).
  assert (Hne : data m <> ∅).
  { intros H. assert (Hb : data m !! "b" = None) by (rewrite H; apply lookup_empty).
    vm_compute in Hb. discriminate. }
  destruct (evictItems_evicts_by_frequency_or_at_random e 1 m Hcov Hne) as [_ _].
  split; [exact Hcov|]. split; [exact Hne|].
  vm_compute. split; [reflexivity | eauto].
Defined.

(** *** Sizes as text *)

Lemma of_uint_acc_le d : forall acc, (acc <= Pos.of_uint_acc d acc)%positive.
Proof.
  induction d; intros acc; cbn [Pos.of_uint_acc]; try lia;
    match goal with
    | |- (_ <= Pos.of_uint_acc _ ?a)%positive => specialize (IHd a); lia
    end.
Qed.

(** One digit of the loop of [parseInt]. *)
Lemma parseInt_loop_digit result c r :
  is_digit c = true ->
  parseInt_loop result (String c r)
  = parseInt_loop (int64 (int64 (result * 10) + (Z.of_N (N_of_ascii c) - 48))) r.
Proof. intros H. cbn [parseInt_loop]. rewrite H. reflexivity. Qed.

Ltac read_digit d rest :=
  change (String ?c (NilEmpty.string_of_uint d) ++ rest)%string
    with (String c (NilEmpty.string_of_uint d ++ rest));
  rewrite parseInt_loop_digit by reflexivity;
  match goal with
  | |- context [Z.of_N (N_of_ascii ?c) - 48] =>
      let v := eval vm_compute in (Z.of_N (N_of_ascii c) - 48) in
      change (Z.of_N (N_of_ascii c) - 48) with v
  end.

Lemma parseInt_loop_acc d : forall acc rest,
  Z.pos (Pos.of_uint_acc d acc) <= int64_max ->
  parseInt_loop (Z.pos acc) (NilEmpty.string_of_uint d ++ rest)
  = parseInt_loop (Z.pos (Pos.of_uint_acc d acc)) rest.
Proof.
  induction d; intros acc rest Hmax; cbn [Pos.of_uint_acc NilEmpty.string_of_uint];
    [reflexivity|..];
    cbn [Pos.of_uint_acc] in Hmax; read_digit d rest;
    rewrite <- (IHd _ rest Hmax); f_equal;
    match type of Hmax with
    | Z.pos (Pos.of_uint_acc _ ?a) <= _ => pose proof (of_uint_acc_le d a)
    end;
    unfold int64_max in *; unwrap; lia.
Qed.

Lemma parseInt_loop_zero d : forall rest,
  Z.of_N (Pos.of_uint d) <= int64_max ->
  parseInt_loop 0 (NilEmpty.string_of_uint d ++ rest)
  = parseInt_loop (Z.of_N (Pos.of_uint d)) rest.
Proof.
  induction d; intros rest Hmax; cbn [Pos.of_uint NilEmpty.string_of_uint] in *;
    [reflexivity|..]; read_digit d rest;
    [apply IHd, Hmax | apply (parseInt_loop_acc d _ rest), Hmax ..].
Qed.

Lemma parseInt_loop_stops n rest : starts_with_digit rest = false -> parseInt_loop n rest = n.
Proof. destruct rest as [|c r]; [reflexivity|]. cbn. intros ->. reflexivity. Qed.

Lemma Sprintf_d_digits n :
  0 <= n -> exists d, Sprintf_d n = NilEmpty.string_of_uint d /\ Z.of_N (Pos.of_uint d) = n /\
                      Sprintf_d n <> "".
Proof.
  intros Hn. destruct n as [|p|p]; [| |lia].
  - exists (Decimal.D0 Decimal.Nil). repeat split. discriminate.
  - exists (Pos.to_uint p). unfold Sprintf_d. cbn [Z.to_int NilZero.string_of_int].
    destruct (GoProps.to_uint_head p) as [Hnil _].
    rewrite GoProps.string_of_uint_nonnil by exact Hnil.
    split; [reflexivity|]. split; [rewrite DecimalPos.Unsigned.of_to; reflexivity|].
    destruct (Pos.to_uint p); [contradiction|..]; discriminate.
Qed.

Lemma parseInt_Sprintf_d n rest :
  0 <= n <= int64_max -> starts_with_digit rest = false ->
  parseInt (Sprintf_d n ++ rest) = n.
Proof.
  intros Hn Hrest. destruct (Sprintf_d_digits n (proj1 Hn)) as (d & -> & Hd & _).
  unfold parseInt. rewrite parseInt_loop_zero by lia.
  rewrite Hd. apply parseInt_loop_stops, Hrest.
Qed.

Lemma append_cons c r t : (String c r ++ t)%string = String c (r ++ t).
Proof. reflexivity. Qed.

Lemma append_nil_r s : (s ++ "")%string = s.
Proof. induction s as [|c r IH]; [|rewrite append_cons, IH]; reflexivity. Qed.

Lemma length_append s t : String.length (s ++ t) = (String.length s + String.length t)%nat.
Proof.
  induction s as [|c r IH]; [reflexivity|]. rewrite append_cons. cbn. rewrite IH. reflexivity.
Qed.

Lemma size_suffix_unit s a b :
  size_suffix (s ++ String a (String b "")) = String a (String b "") /\
  size_prefix (s ++ String a (String b "")) = s.
Proof.
  unfold size_suffix, size_prefix. rewrite length_append. cbn [String.length].
  replace (String.length s + 2 - 2)%nat with (String.length s) by lia.
  induction s as [|c r [IH1 IH2]]; [split; reflexivity|].
  rewrite append_cons. cbn. rewrite IH1, IH2. split; reflexivity.
Qed.

Lemma all_digits_substring s : forall n m, all_digits s = true -> all_digits (substring n m s) = true.
Proof.
  induction s as [|c r IH]; intros n m H.
  - destruct n, m; reflexivity.
  - cbn in H. apply andb_true_iff in H as [Hc Hr].
    destruct n as [|n]; cbn.
    + destruct m as [|m]; [reflexivity|]. cbn. rewrite Hc. apply IH, Hr.
    + apply IH, Hr.
Qed.

Lemma parseSize_digits s :
  all_digits s = true -> s <> "" -> parseSize s = Ok (parseInt s).
Proof.
  intros Hs Hne. unfold parseSize.
  destruct (String.eqb_spec s "") as [|_]; [contradiction|].
  pose proof (all_digits_substring s (String.length s - 2) 2 Hs) as Hsuf.
  fold (size_suffix s) in Hsuf.
  assert (Hno : forall u, all_digits u = false -> String.eqb (size_suffix s) u = false).
  { intros u Hu. apply String.eqb_neq. intros Heq. congruence. }
  rewrite !Hno by reflexivity. rewrite !andb_false_r. reflexivity.
Qed.

Lemma parseSize_unit s a b :
  s <> "" ->
  parseSize (s ++ String a (String b "")) =
    if String.eqb (String a (String b "")) "KB" then Ok (int64 (parseInt s * 1024))
    else if String.eqb (String a (String b "")) "MB"
    then Ok (int64 (int64 (parseInt s * 1024) * 1024))
    else if String.eqb (String a (String b "")) "GB"
    then Ok (int64 (int64 (int64 (parseInt s * 1024) * 1024) * 1024))
    else Ok (parseInt (s ++ String a (String b ""))).
Proof.
  intros Hne. unfold parseSize. destruct (size_suffix_unit s a b) as [-> ->].
  assert (Hlen : (2 <? len (s ++ String a (String b ""))) = true).
  { apply Z.ltb_lt. unfold len. rewrite length_append. cbn [String.length].
    destruct s; [contradiction | cbn [String.length]; lia]. }
  rewrite Hlen. cbn [andb].
  destruct (String.eqb_spec (s ++ String a (String b "")) "") as [H|_]; [|reflexivity].
  destruct s; [contradiction | discriminate].
Qed.

(** The sweeps of [cleanup] leave a store without entries as it is. *)
Lemma sweeps_of_an_empty_store ticks m :
  data m = ∅ -> fold_left (fun m tick => cleanupExpired tick m) ticks m = m.
Proof.
  intros Hd. induction ticks as [|tick ticks IH]; [reflexivity|]. cbn [fold_left].
  assert (Hsweep : cleanupExpired tick m = m).
  { unfold cleanupExpired. rewrite Hd. unfold range.
    induction (order tick) as [|k l IHl]; [reflexivity|].
    cbn [omap list_omap]. rewrite lookup_empty. cbn. exact IHl. }
  rewrite Hsweep. exact IH.
Qed.

(** X11. [parseSize] reads a size written as a decimal number of bytes, or
    as a decimal number followed by "KB", "MB" or "GB", which multiply it
    by 1024, 1024 * 1024 and 1024 * 1024 * 1024; [parseInt] reads the
    digits a text starts with and ignores the rest. [parseSize] accepts
    every text, so that the call of [NewMemoryBackend] never returns an
    error: it returns an empty store with the usage at zero and the
    settings it was given. The goroutine it starts panics, and ends the
    process, exactly when the cleanup interval of the settings is not
    positive; with a positive interval its sweeps leave the new store as
    it is. *)
Theorem parseSize_reads_decimal_sizes n :
  0 <= n -> n * 1024 * 1024 * 1024 <= int64_max ->
  parseSize (Sprintf_d n) = Ok n /\
  parseSize (Sprintf_d n ++ "KB") = Ok (n * 1024) /\
  parseSize (Sprintf_d n ++ "MB") = Ok (n * 1024 * 1024) /\
  parseSize (Sprintf_d n ++ "GB") = Ok (n * 1024 * 1024 * 1024) /\
  (forall rest, starts_with_digit rest = false -> parseInt (Sprintf_d n ++ rest) = n) /\
  (forall s, exists size, parseSize s = Ok size) /\
  (forall e cfg, exists m,
     NewMemoryBackend e cfg = Ok m /\ data m = ∅ /\ currentSize m = 0 /\ config m = cfg /\
     forall ticks,
       cleanup ticks m = if 0 <? CleanupInterval cfg then Some m else None).
Proof.
  intros Hn Hmax. unfold int64_max in *.
  assert (Hrange : 0 <= n <= int64_max) by (unfold int64_max; lia).
  pose proof (parseInt_Sprintf_d n "" Hrange eq_refl) as Hint.
  rewrite append_nil_r in Hint.
  destruct (Sprintf_d_digits n Hn) as (d & Hd & _ & Hne).
  assert (Htotal : forall s, exists size, parseSize s = Ok size).
  { intros s. unfold parseSize. repeat destruct (_ && _); destruct (String.eqb s ""); eauto. }
  split; [|split; [|split; [|split; [|split; [|split]]]]].
  - rewrite parseSize_digits; [rewrite Hint; reflexivity| |exact Hne].
    rewrite Hd. apply GoProps.all_digits_string_of_uint.
  - rewrite parseSize_unit by exact Hne. cbn [String.eqb Ascii.eqb Bool.eqb andb].
    rewrite Hint. unwrap. reflexivity.
  - rewrite parseSize_unit by exact Hne. cbn [String.eqb Ascii.eqb Bool.eqb andb].
    rewrite Hint. unwrap. reflexivity.
  - rewrite parseSize_unit by exact Hne. cbn [String.eqb Ascii.eqb Bool.eqb andb].
    rewrite Hint. unwrap. reflexivity.
  - intros rest Hrest. apply parseInt_Sprintf_d; assumption.
  - exact Htotal.
  - intros e cfg. unfold NewMemoryBackend.
    destruct (Htotal (MaxSize cfg)) as [size ->]. eexists.
    split; [reflexivity|]. split; [reflexivity|]. split; [reflexivity|].
    split; [reflexivity|]. intros ticks. unfold cleanup, NewTicker. cbn [config].
    destruct (0 <? CleanupInterval cfg); [|reflexivity]. cbn [mbind option_bind].
    f_equal. apply sweeps_of_an_empty_store. reflexivity.
Qed.

Lemma parseSize_reads_decimal_sizes_witness :
  0 <= 100 /\ 100 * 1024 * 1024 * 1024 <= int64_max /\
  parseSize "100MB" = Ok 104857600 /\ parseInt "100mb" = 100 /\
  exists m, NewMemoryBackend (mkEnv 1 []) (mkConfig "100MB" 0 "lru" 0 0) = Ok m /\
            cleanup [] m = None.
Proof.
  assert (H0 : 0 <= 100) by discriminate.
  assert (Hmax : 100 * 1024 * 1024 * 1024 <= int64_max) by (vm_compute; discriminate).
  destruct (parseSize_reads_decimal_sizes 100 H0 Hmax)
    as (_ & _ & Hmb & _ & Hrest & _ & Hnew).
  split; [exact H0|]. split; [exact Hmax|]. split; [exact Hmb|].
  split; [exact (Hrest "mb" eq_refl)|].
  destruct (Hnew (mkEnv 1 []) (mkConfig "100MB" 0 "lru" 0 0)) as (m & Hm & _ & _ & _ & Hgo).
  exists m. split; [exact Hm | exact (Hgo [])].
Defined.

(** *** The size accounting, operation by operation *)

Lemma Get_fresh_accounted e key m :
  fresh_at e m key -> accounted m ->
  accounted (Get e key m).1 /\ forall k, fresh_at e m k -> fresh_at e (Get e key m).1 k.
Proof.
  intros Hf [Hc Hb]. unfold Get. destruct (data m !! key) as [item|] eqn:Hk.
  - rewrite (Hf item Hk). cbn [fst]. split.
    + unfold accounted. cbn [data currentSize set_stats set_data].
      rewrite (stored_size_insert_Some _ _ item _ Hk). cbn [value].
      split; [lia | lia].
    + intros k Hfk item' Hk'. cbn [data set_stats set_data] in Hk'.
      destruct (decide (k = key)) as [->|Hne].
      * rewrite lookup_insert_eq in Hk'. injection Hk' as <-.
        exact (Hfk item Hk).
      * rewrite lookup_insert_ne in Hk' by congruence. exact (Hfk item' Hk').
  - cbn [fst]. split; [split; assumption|]. intros k Hfk. exact Hfk.
Qed.

Lemma GetMulti_fresh_accounted e keys : forall m (r : gmap string string),
  Forall (fresh_at e m) keys -> accounted m ->
  accounted (fold_left (fun (acc : MemoryBackend * gmap string string) key =>
                          match Get e key acc.1 with
                          | (m1, Ok value) => (m1, <[key := value]> acc.2)
                          | (m1, Err _) => (m1, acc.2)
                          end) keys (m, r)).1.
Proof.
  induction keys as [|key keys IH]; intros m r Hall Ha; [exact Ha|].
  cbn [fold_left]. apply Forall_cons in Hall as [Hkey Hall].
  destruct (Get_fresh_accounted e key m Hkey Ha) as [Ha1 Hf1].
  cbn [fst snd]. destruct (Get e key m) as [m1 [v|err]]; cbn [fst] in *;
    (apply IH; [|exact Ha1]); eapply Forall_impl; eauto.
Qed.

Lemma Set_size_le e key v ttl m :
  stored_size (data (Set_ e key v ttl m).1) <= stored_size (data m) + len v.
Proof.
  unfold Set_. cbn zeta.
  match goal with |- context [evictLRU e ?x] => set (m1 := x) end.
  match goal with |- context [data ?x !! key] => set (m2 := x) end.
  assert (H1 : stored_size (data m1) <= stored_size (data m)).
  { clear m2. subst m1.
    match goal with |- context [if ?c then _ else _] => destruct c end;
      [apply evictItems_size_le | lia]. }
  assert (H2 : stored_size (data m2) <= stored_size (data m)).
  { subst m2.
    match goal with |- context [if ?c then _ else _] => destruct c end;
      [pose proof (evictLRU_size_le e m1); lia | lia]. }
  clearbody m1 m2. pose proof (len_nonneg v).
  destruct (data m2 !! key) as [old|] eqn:Hk; cbn.
  - rewrite (stored_size_insert_Some _ _ old _ Hk). cbn.
    pose proof (len_nonneg (value old)). lia.
  - rewrite (stored_size_insert_None _ _ _ Hk). cbn. lia.
Qed.

Lemma SetMulti_loop_accounted e ttl items : forall m,
  accounted m -> stored_size (data m) + batch_size items <= int64_max ->
  accounted (SetMulti_loop e items ttl m).1.
Proof.
  induction items as [|[key v] items IH]; intros m Ha Hroom; [exact Ha|].
  cbn [SetMulti_loop batch_size foldr snd] in *.
  assert (Hpos : 0 <= batch_size items).
  { clear. induction items as [|[k v] items IH]; cbn; [lia|].
    pose proof (len_nonneg v). unfold batch_size in IH. lia. }
  pose proof (Set_accounted e key v ttl m Ha ltac:(unfold batch_size in *; lia)) as Ha1.
  pose proof (Set_size_le e key v ttl m) as Hle.
  destruct (Set_ e key v ttl m) as [m1 [err|]]; cbn [fst] in *; [exact Ha1|].
  apply IH; [exact Ha1 | unfold batch_size in *; lia].
Qed.

Lemma DeleteMulti_accounted e keys : forall m,
  accounted m -> accounted (DeleteMulti e keys m).1.
Proof.
  induction keys as [|key keys IH]; intros m Ha; [exact Ha|].
  cbn [DeleteMulti]. pose proof (Delete_accounted e key m Ha) as Ha1.
  destruct (Delete e key m) as [m1 [err|]]; cbn [fst] in *; [exact Ha1 | apply IH, Ha1].
Qed.

Lemma Expire_accounted e key ttl m : accounted m -> accounted (Expire e key ttl m).1.
Proof.
  intros [Hc Hb]. unfold Expire. destruct (data m !! key) as [item|] eqn:Hk;
    [|split; assumption].
  unfold accounted. cbn [fst data currentSize set_data].
  rewrite (stored_size_insert_Some _ _ item _ Hk). cbn [value]. split; lia.
Qed.

(** X12. The size accounting (the recorded usage is the sum of the sizes
    of the stored values) is kept by every operation of the store other
    than [Increment] and [Decrement], the expiry sweep included, as long as
    the bytes a [Set] or [SetMulti] brings fit [int64] and no [Get],
    [Exists] or [GetMulti] meets an expired entry under a key it asks
    for. *)
Theorem usage_kept_by_all_but_Increment e o m :
  NoDup (order e) -> accounted m -> keeps_usage e o m -> accounted (run e o m).
Proof.
  intros Hnd Ha Hk. destruct o; cbn [run keeps_usage] in *.
  - apply Get_fresh_accounted; assumption.
  - apply Set_accounted; assumption.
  - apply Delete_accounted, Ha.
  - unfold Exists. destruct (data m !! key) as [item|] eqn:Hkey; [|exact Ha].
    rewrite (Hk item Hkey). exact Ha.
  - unfold GetMulti.
    pose proof (GetMulti_fresh_accounted e keys m ∅ Hk Ha) as H.
    destruct (fold_left _ keys (m, ∅)) as [m' r]. exact H.
  - apply SetMulti_loop_accounted; assumption.
  - apply DeleteMulti_accounted, Ha.
  - contradiction.
  - contradiction.
  - apply Expire_accounted, Ha.
  - unfold TTL. destruct (data m !! key) as [item|]; [|exact Ha].
    destruct (IsZero _); [exact Ha|]. destruct (_ <? 0); exact Ha.
  - apply Clear_accounted.
  - exact Ha.
  - exact Ha.
  - exact Ha.
  - apply cleanupExpired_accounted; assumption.
Qed.

Lemma usage_kept_by_all_but_Increment_witness :
  let m := (Set_ (mkEnv 1 []) "a" "go" 1 (Doubles.fresh_store (mkConfig "" 0 "lru" 0 0))).1 in
  let e := mkEnv 9 ["a"] in
  let o := OpSetMulti (<["b" := "stay"]> ∅) 0 in
  NoDup (order e) /\ accounted m /\ keeps_usage e o m /\
  accounted (run e o m) /\ accounted (run e OpSweep (run e o m)).
Proof.
  intros m e o.
  assert (Hnd : NoDup (order e)) by (apply NoDup_singleton).
  assert (Ha : accounted m) by (split; vm_compute; [reflexivity | discriminate]).
  assert (Hk : keeps_usage e o m) by (vm_compute; discriminate).
  pose proof (usage_kept_by_all_but_Increment e o m Hnd Ha Hk) as H1.
  pose proof (usage_kept_by_all_but_Increment e OpSweep _ Hnd H1 I) as H2.
  split; [exact Hnd|]. split; [exact Ha|]. split; [exact Hk|]. split; assumption.
Defined.

End MemoryLaws.

(** ** More of the shard router *)

Module ShardingLaws.
Import Go Sharding ShardingSpec ShardingProps.

Module Ring.
Import Sharding.Consistent.

(** *** The binary search *)

(** On a predicate that stays true once it is true, [sort.Search] returns
    the least index at which it is true, and the length when there is none. *)
Lemma search_loop_least (f : nat -> bool) (n : nat) :
  (forall i j, (i <= j < n)%nat -> f i = true -> f j = true) ->
  forall fuel i j,
    (j - i <= fuel)%nat -> (i <= j <= n)%nat ->
    (forall k, (k < i)%nat -> f k = false) ->
    (forall k, (j <= k < n)%nat -> f k = true) ->
    let r := search_loop fuel f i j in
    (i <= r <= j)%nat /\ (forall k, (k < r)%nat -> f k = false) /\
    (forall k, (r <= k < n)%nat -> f k = true).
Proof.
  intros Hmono. induction fuel as [|fuel IH]; intros i j Hfuel Hij Hlo Hhi; cbn [search_loop].
  - cbn zeta. assert (i = j) by lia. subst j. split; [lia|]. split; assumption.
  - destruct (Nat.ltb_spec i j) as [Hlt|Hge].
    + assert (Hh : (i <= (i + j) / 2 < j)%nat).
      { split; [apply Nat.div_le_lower_bound; lia
               | apply Nat.Div0.div_lt_upper_bound; lia]. }
      set (h := ((i + j) / 2)%nat) in *. cbn zeta.
      destruct (f h) eqn:Hfh; cbn [negb].
      * destruct (IH i h ltac:(lia) ltac:(lia) Hlo) as (H1 & H2 & H3).
        { intros k Hk. apply (Hmono h k); [lia | exact Hfh]. }
        split; [lia|]. split; assumption.
      * destruct (IH (h + 1)%nat j ltac:(lia) ltac:(lia)) as (H1 & H2 & H3).
        { intros k Hk. destruct (f k) eqn:Hfk; [|reflexivity].
          rewrite (Hmono k h ltac:(lia) Hfk) in Hfh. discriminate. }
        { exact Hhi. }
        split; [lia|]. split; assumption.
    + cbn zeta. assert (i = j) by lia. subst j. split; [lia|]. split; assumption.
Qed.

Lemma sort_Search_least (f : nat -> bool) (n : nat) :
  (forall i j, (i <= j < n)%nat -> f i = true -> f j = true) ->
  (sort_Search n f <= n)%nat /\
  (forall k, (k < sort_Search n f)%nat -> f k = false) /\
  (forall k, (sort_Search n f <= k < n)%nat -> f k = true).
Proof.
  intros Hmono. unfold sort_Search.
  destruct (search_loop_least f n Hmono n 0%nat n ltac:(lia) ltac:(lia)) as (H1 & H2 & H3).
  - intros k Hk. lia.
  - intros k Hk. lia.
  - split; [lia|]. split; assumption.
Qed.

Lemma sorted_nth (l : list Z) :
  Sorted Z.le l -> forall i j, (i <= j < length l)%nat -> nth i l 0 <= nth j l 0.
Proof.
  intros Hs. apply Sorted_StronglySorted in Hs; [|intros x y z; lia].
  induction Hs as [|x l Hl IH Hx]; intros i j Hij; [cbn in Hij; lia|].
  destruct i as [|i], j as [|j]; cbn [nth]; try lia.
  - rewrite Forall_forall in Hx. apply Hx. apply list_elem_of_In, nth_In. cbn in Hij. lia.
  - apply IH. cbn in Hij. lia.
Qed.

(** *** The ring *)

Section Ring.
Context {B : Type}.

Abbreviation CH := (ConsistentHashSharder B).

Lemma successor_unique keys hash n1 n2 :
  successor keys hash n1 -> successor keys hash n2 -> n1 = n2.
Proof.
  intros [Hin1 [[Hge1 Hmin1] | [Hall1 Hmin1]]] [Hin2 [[Hge2 Hmin2] | [Hall2 Hmin2]]].
  - pose proof (Hmin1 n2 Hin2 Hge2). pose proof (Hmin2 n1 Hin1 Hge1). lia.
  - pose proof (Hall2 n1 Hin1). lia.
  - pose proof (Hall1 n2 Hin2). lia.
  - pose proof (Hmin1 n2 Hin2). pose proof (Hmin2 n1 Hin1). lia.
Qed.

(** A position that serves a hash on a ring serves it on every part of the
    ring that holds the position. *)
Lemma successor_subset keys keys' hash node :
  (forall k, k ∈ keys' -> k ∈ keys) -> node ∈ keys' ->
  successor keys hash node -> successor keys' hash node.
Proof.
  intros Hsub Hin [_ [[Hge Hmin] | [Hall Hmin]]]; (split; [exact Hin|]).
  - left. split; [exact Hge|]. intros k Hk. apply Hmin, Hsub, Hk.
  - right. split; intros k Hk; [apply Hall | apply Hmin]; apply Hsub, Hk.
Qed.

Lemma ring_position_successor (c : CH) hash :
  Sorted Z.le (keys c) -> keys c <> [] ->
  exists node, keys c !! ring_position c hash = Some node /\
               successor (keys c) hash node.
Proof.
  intros Hs Hne. unfold ring_position.
  set (f := fun i => hash <=? nth i (keys c) 0).
  assert (Hmono : forall i j, (i <= j < length (keys c))%nat -> f i = true -> f j = true).
  { intros i j Hij Hfi. subst f. cbn beta in *. apply Z.leb_le in Hfi. apply Z.leb_le.
    pose proof (sorted_nth (keys c) Hs i j Hij). lia. }
  destruct (sort_Search_least f (length (keys c)) Hmono) as (Hle & Hlo & Hhi).
  set (r := sort_Search (length (keys c)) f) in *.
  assert (Hlen : (0 < length (keys c))%nat) by (destruct (keys c); [contradiction | cbn; lia]).
  assert (Hnth : forall k, k ∈ keys c -> exists i, (i < length (keys c))%nat /\ nth i (keys c) 0 = k).
  { intros k Hk. apply list_elem_of_lookup in Hk as [i Hi].
    exists i. split; [eapply lookup_lt_Some, Hi | apply nth_lookup_Some with (d := 0), Hi]. }
  destruct (Nat.eqb_spec r (length (keys c))) as [Heq|Hneq].
  - exists (nth 0 (keys c) 0). split.
    + destruct (keys c); [contradiction | reflexivity].
    + split; [apply list_elem_of_In, nth_In; lia|]. right. split.
      * intros k Hk. destruct (Hnth k Hk) as (i & Hi & <-).
        specialize (Hlo i ltac:(lia)). subst f. cbn beta in Hlo.
        apply Z.leb_gt in Hlo. exact Hlo.
      * intros k Hk. destruct (Hnth k Hk) as (i & Hi & <-).
        apply sorted_nth; [exact Hs | lia].
  - assert (Hr : (r < length (keys c))%nat) by lia.
    exists (nth r (keys c) 0). split.
    + apply lookup_lt_is_Some_2 in Hr as [x Hx].
      rewrite Hx. f_equal. symmetry. apply nth_lookup_Some with (d := 0), Hx.
    + split; [apply list_elem_of_In, nth_In; lia|]. left. split.
      * specialize (Hhi r ltac:(lia)). subst f. cbn beta in Hhi.
        apply Z.leb_le in Hhi. exact Hhi.
      * intros k Hk Hge. destruct (Hnth k Hk) as (i & Hi & <-).
        destruct (Nat.lt_ge_cases i r) as [Hlt|Hge'].
        -- specialize (Hlo i Hlt). subst f. cbn beta in Hlo.
           apply Z.leb_gt in Hlo. lia.
        -- apply sorted_nth; [exact Hs | lia].
Qed.

(** The lookup on a well-formed ring with two shards or more. *)
Lemma lookup_on_ring key (c : CH) :
  ring_ok c -> (2 <= length (shards c))%nat -> keys c <> [] ->
  exists node i b,
    successor (keys c) (hashKey key) node /\
    ring c !! node = Some i /\ 0 <= i < Z.of_nat (length (shards c)) /\
    shards c !! Z.to_nat i = Some b /\
    GetShardIndex key c = Some i /\ GetShard key c = Some (Some b).
Proof.
  intros (Hsorted & Hnd & Hdom & Hval) Hn Hne.
  destruct (ring_position_successor c (hashKey key) Hsorted Hne) as (node & Hpos & Hsucc).
  destruct (proj1 (Hdom node) (proj1 Hsucc)) as [i Hi].
  pose proof (Hval node i Hi) as Hrange.
  destruct (lookup_lt_is_Some_2 (shards c) (Z.to_nat i) ltac:(lia)) as [b Hb].
  exists node, i, b. split; [exact Hsucc|]. split; [exact Hi|]. split; [exact Hrange|].
  split; [exact Hb|]. unfold GetShardIndex, GetShard.
  destruct (Nat.eqb_spec (length (shards c)) 0); [lia|].
  destruct (Nat.eqb_spec (length (shards c)) 1); [lia|].
  cbv zeta. rewrite Hpos. unfold ring_get. rewrite Hi. cbn [default from_option id].
  split; [reflexivity|]. destruct (Z.ltb_spec i 0); [lia|]. rewrite Hb. reflexivity.
Qed.

(** X13. On a well-formed ring with two shards or more, a key is served by
    the shard that owns the first ring position at or after the key's
    hash, and by the owner of the least position when the hash is past
    them all. The index [GetShardIndex] returns is that shard's index, in
    the range of the shard list, and [GetShard] returns the shard at that
    index. With one shard every key is served by it, and with none
    [GetShardIndex] returns [-1] and [GetShard] the nil backend. *)
Theorem GetShardIndex_serves_the_next_ring_position key (c : CH) :
  ring_ok c ->
  ((2 <= length (shards c))%nat -> keys c <> [] ->
   exists node i b,
     successor (keys c) (hashKey key) node /\
     ring c !! node = Some i /\ 0 <= i < Z.of_nat (length (shards c)) /\
     shards c !! Z.to_nat i = Some b /\
     GetShardIndex key c = Some i /\ GetShard key c = Some (Some b)) /\
  (forall b, shards c = [b] ->
     GetShardIndex key c = Some 0 /\ GetShard key c = Some (Some b)) /\
  (shards c = [] -> GetShardIndex key c = Some (-1) /\ GetShard key c = Some None).
Proof.
  intros Hok. split; [|split].
  - intros Hn Hne. apply lookup_on_ring; assumption.
  - intros b Hb. unfold GetShardIndex, GetShard. rewrite Hb. split; reflexivity.
  - intros Hb. unfold GetShardIndex, GetShard. rewrite Hb. split; reflexivity.
Qed.

(** What [AddShard] does to a ring. *)
Lemma AddShard_shape (backend : B) (c : CH) :
  let c' := (AddShard backend c).1 in
  shards c' = shards c ++ [backend] /\
  keys c' ≡ₚ keys c ++ new_nodes c /\
  (forall k, k ∈ new_nodes c -> ring c' !! k = Some (Z.of_nat (length (shards c)))) /\
  (forall k, k ∉ new_nodes c -> ring c' !! k = ring c !! k).
Proof.
  set (n := Z.of_nat (length (shards c))).
  unfold AddShard. cbn [fst]. fold n.
  pose proof (add_fold n (fun i => hashKey (node_label n i)) (seqZ 0 (replicas c))
                (ring c) (keys c)) as Hadd.
  cbn zeta in Hadd.
  change (fold_left (add_node n) (seqZ 0 (replicas c)) (ring c, keys c))
    with (fold_left (fun (acc : gmap Z Z * list Z) i =>
                       (<[hashKey (node_label n i) := n]> acc.1,
                        acc.2 ++ [hashKey (node_label n i)]))
            (seqZ 0 (replicas c)) (ring c, keys c)).
  destruct (fold_left _ (seqZ 0 (replicas c)) (ring c, keys c)) as [ring1 keys1].
  cbn [fst snd] in Hadd. destruct Hadd as (-> & Hnew & Hold).
  cbn [shards keys ring]. split; [reflexivity|].
  split; [apply merge_sort_Permutation|]. split; assumption.
Qed.

(** X14. Adding a shard to a well-formed ring moves keys to the new shard
    only: when the ring positions of the new shard are new to the ring and
    distinct, every key is served after [AddShard] by the shard that served
    it before or by the new shard, and the old shards keep their
    indices. *)
Theorem AddShard_moves_keys_to_the_new_shard_only key (backend : B) (c : CH) :
  ring_ok c -> fresh_nodes c -> (2 <= length (shards c))%nat -> keys c <> [] ->
  let c' := (AddShard backend c).1 in
  (forall i b, shards c !! i = Some b -> shards c' !! i = Some b) /\
  shards c' !! length (shards c) = Some backend /\
  exists i j,
    GetShardIndex key c = Some i /\ GetShardIndex key c' = Some j /\
    (j = i \/ j = Z.of_nat (length (shards c))).
Proof.
  intros Hok Hfresh Hn Hne c'.
  destruct (AddShard_shape backend c) as (Hsh & Hperm & Hnew & Hold). fold c' in Hsh, Hperm, Hnew, Hold.
  pose proof (AddShard_ring_ok backend c Hok Hfresh) as Hok'. fold c' in Hok'.
  split; [|split].
  - intros i b Hi. rewrite Hsh. apply lookup_app_l_Some, Hi.
  - rewrite Hsh. apply list_lookup_middle. reflexivity.
  - destruct (lookup_on_ring key c Hok Hn Hne) as (node & i & b & Hsucc & Hi & _ & _ & Hget & _).
    assert (Hne' : keys c' <> []).
    { intros Hnil. rewrite Hnil in Hperm. symmetry in Hperm.
      apply Permutation_nil_r in Hperm. destruct (keys c); [contradiction | discriminate]. }
    assert (Hn' : (2 <= length (shards c'))%nat)
      by (rewrite Hsh, length_app; cbn; lia).
    destruct (lookup_on_ring key c' Hok' Hn' Hne')
      as (node' & j & b' & Hsucc' & Hj & _ & _ & Hget' & _).
    exists i, j. split; [exact Hget|]. split; [exact Hget'|].
    destruct (decide (node' ∈ new_nodes c)) as [Hin|Hnin].
    + right. rewrite (Hnew node' Hin) in Hj. congruence.
    + left. rewrite (Hold node' Hnin) in Hj.
      assert (Hin' : node' ∈ keys c).
      { destruct Hsucc' as [Hmem _]. rewrite Hperm in Hmem.
        apply elem_of_app in Hmem as [|]; [assumption | contradiction]. }
      assert (Hs : successor (keys c) (hashKey key) node').
      { eapply successor_subset; [|exact Hin'|exact Hsucc'].
        intros k Hk. rewrite Hperm. apply elem_of_app. left. exact Hk. }
      rewrite (successor_unique _ _ _ _ Hs Hsucc) in Hj. congruence.
Qed.


(** What [RemoveShard] does to a well-formed ring. *)
Lemma RemoveShard_shape index (c : CH) :
  ring_ok c -> 0 <= index < Z.of_nat (length (shards c)) ->
  let c' := (RemoveShard index c).1 in
  (RemoveShard index c).2 = None /\
  shards c' = remove_at index (shards c) /\
  keys c' = filter (fun k => ring c !! k <> Some index) (keys c) /\
  (forall k, ring c' !! k =
             match ring c !! k with
             | Some v => if decide (v = index) then None else Some (renumber index v)
             | None => None
             end).
Proof.
  intros (Hsorted & Hnd & Hdom & Hval) Hi. unfold RemoveShard.
  destruct (Z.ltb_spec index 0) as [|_]; [lia|].
  destruct (Z.leb_spec (Z.of_nat (length (shards c))) index) as [|_]; [lia|].
  cbn [orb fst snd].
  destruct (drop_fold index (keys c) [] (ring c) Hnd) as (Hkeys & Hgone & Hkept).
  { intros k Hk. apply Hdom, Hk. }
  destruct (fold_left (drop_node index) (keys c) ([], ring c)) as [keys2 ring2].
  cbn [fst snd app shards keys ring] in *.
  split; [reflexivity|]. split; [reflexivity|]. split; [exact Hkeys|].
  intros k. rewrite lookup_fmap. destruct (ring c !! k) as [v|] eqn:Hv.
  - destruct (decide (v = index)) as [->|Hne].
    + rewrite Hgone; [reflexivity | apply Hdom; eauto | exact Hv].
    + rewrite Hkept, Hv; [reflexivity|]. intros [_ H]. congruence.
  - rewrite Hkept, Hv; [reflexivity|]. intros [_ H]. congruence.
Qed.

Lemma length_remove_at {A} index (l : list A) :
  0 <= index < Z.of_nat (length l) -> length (remove_at index l) = pred (length l).
Proof.
  intros Hi. unfold remove_at. rewrite length_app, length_take, length_drop. lia.
Qed.

Lemma lookup_remove_at {A} index i (l : list A) :
  0 <= index < Z.of_nat (length l) -> 0 <= i -> i <> index ->
  remove_at index l !! Z.to_nat (renumber index i) = l !! Z.to_nat i.
Proof.
  intros Hindex Hi Hne. unfold remove_at, renumber.
  destruct (Z.ltb_spec index i) as [Hlt|Hge].
  - rewrite lookup_app_r by (rewrite length_take; lia).
    rewrite length_take, lookup_drop. f_equal. lia.
  - rewrite lookup_app_l by (rewrite length_take; lia).
    apply lookup_take_lt. lia.
Qed.

(** [RemoveShard] keeps a ring well formed. *)
Lemma RemoveShard_ring_ok index (c : CH) :
  ring_ok c -> 0 <= index < Z.of_nat (length (shards c)) ->
  ring_ok (RemoveShard index c).1.
Proof.
  intros Hok Hi. destruct (RemoveShard_shape index c Hok Hi) as (_ & Hsh & Hk & Hr).
  destruct Hok as (Hsorted & Hnd & Hdom & Hval).
  unfold ring_ok. rewrite Hsh, Hk. split; [apply filter_sorted, Hsorted|].
  split; [apply NoDup_filter, Hnd|]. split.
  - intros k. rewrite list_elem_of_filter, Hr. split.
    + intros [Hne Hin]. apply Hdom in Hin as [v Hv]. rewrite Hv.
      destruct (decide (v = index)) as [->|_]; [contradiction | eauto].
    + intros [w Hw]. destruct (ring c !! k) as [v|] eqn:Hv; [|discriminate].
      destruct (decide (v = index)); [discriminate|].
      split; [congruence | apply Hdom; eauto].
  - intros k w Hw. rewrite Hr in Hw. destruct (ring c !! k) as [v|] eqn:Hv; [|discriminate].
    destruct (decide (v = index)) as [|Hne]; [discriminate|]. injection Hw as <-.
    apply Hval in Hv. rewrite length_remove_at by exact Hi. unfold renumber.
    destruct (Z.ltb_spec index v); lia.
Qed.

(** X15. Removing a shard from a well-formed ring leaves every key that
    another shard served on that shard: [RemoveShard] with an index in
    range succeeds and keeps the ring well formed, and a key served by the
    shard at another index is served afterwards by the same shard, which
    [GetShardIndex] finds at its index in the shortened shard list. *)
Theorem RemoveShard_keeps_the_keys_of_the_other_shards key index (c : CH) :
  ring_ok c -> 0 <= index < Z.of_nat (length (shards c)) ->
  (2 <= length (shards c))%nat -> keys c <> [] ->
  let c' := (RemoveShard index c).1 in
  (RemoveShard index c).2 = None /\ ring_ok c' /\
  length (shards c') = pred (length (shards c)) /\
  forall i b,
    GetShardIndex key c = Some i -> i <> index -> shards c !! Z.to_nat i = Some b ->
    GetShardIndex key c' = Some (renumber index i) /\ GetShard key c' = Some (Some b).
Proof.
  intros Hok Hindex Hn Hne c'.
  destruct (RemoveShard_shape index c Hok Hindex) as (Herr & Hsh & Hk & Hr).
  pose proof (RemoveShard_ring_ok index c Hok Hindex) as Hok'.
  fold c' in Hsh, Hk, Hr, Hok'.
  assert (Hlen : length (shards c') = pred (length (shards c)))
    by (rewrite Hsh; apply length_remove_at, Hindex).
  split; [exact Herr|]. split; [exact Hok'|]. split; [exact Hlen|].
  intros i b Hget Hne_i Hb.
  destruct (lookup_on_ring key c Hok Hn Hne) as (node & i0 & b0 & Hsucc & Hi & Hrange & _ & Hget0 & _).
  assert (i0 = i) as -> by congruence.
  assert (Hb' : shards c' !! Z.to_nat (renumber index i) = Some b).
  { rewrite Hsh, lookup_remove_at by lia. exact Hb. }
  destruct (decide (length (shards c) = 2%nat)) as [H2|H2].
  - assert (Hr0 : renumber index i = 0) by (unfold renumber; destruct (Z.ltb_spec index i); lia).
    rewrite Hr0 in *. unfold GetShardIndex, GetShard. rewrite Hlen, H2. cbn [pred Nat.eqb].
    split; [reflexivity|]. exact (f_equal Some Hb').
  - assert (Hin : node ∈ keys c').
    { rewrite Hk. apply list_elem_of_filter. split; [congruence | exact (proj1 Hsucc)]. }
    assert (Hne' : keys c' <> []) by (intros Hnil; rewrite Hnil in Hin; inversion Hin).
    destruct (lookup_on_ring key c' Hok' ltac:(lia) Hne')
      as (node' & j & b' & Hsucc' & Hj & _ & Hbj & Hget' & Hshard').
    assert (Hs : successor (keys c') (hashKey key) node).
    { eapply successor_subset; [|exact Hin|exact Hsucc].
      intros k Hk'. rewrite Hk in Hk'. apply list_elem_of_filter in Hk' as [_ Hk']. exact Hk'. }
    rewrite (successor_unique _ _ _ _ Hsucc' Hs) in Hj.
    rewrite Hr, Hi in Hj. destruct (decide (i = index)); [contradiction|].
    injection Hj as <-. split; [exact Hget'|]. rewrite Hshard'. congruence.
Qed.

End Ring.


(** *** Concrete rings *)

(** The positions of the next shard are fresh when a computation finds them
    distinct and away from the ring. *)
Lemma fresh_nodes_computed {B} (c : ConsistentHashSharder B) :
  NoDup (new_nodes c) /\ Forall (fun h => h ∉ keys c) (new_nodes c) -> fresh_nodes c.
Proof.
  intros [Hnd Hall]. split; [exact Hnd|]. rewrite Forall_forall in Hall. exact Hall.
Qed.

(** The ring of three shards with three replicas each is well formed. *)
Lemma three_shards_ring_ok :
  let c0 : ConsistentHashSharder string := NewConsistentHashSharder 3 in
  let c3 := (AddShard "C" (AddShard "B" (AddShard "A" c0).1).1).1 in
  ring_ok c3.
Proof.
  intros c0 c3. subst c3.
  apply AddShard_ring_ok; [apply AddShard_ring_ok; [apply AddShard_ring_ok|]|];
    [apply NewConsistentHashSharder_ring_ok|..];
    apply fresh_nodes_computed; MemoryLaws.by_compute.
Qed.

Lemma GetShardIndex_serves_the_next_ring_position_witness :
  let c0 : ConsistentHashSharder string := NewConsistentHashSharder 3 in
  let c3 := (AddShard "C" (AddShard "B" (AddShard "A" c0).1).1).1 in
  ring_ok c3 /\ (2 <= length (shards c3))%nat /\ keys c3 <> [] /\
  exists node, successor (keys c3) (hashKey "user:42") node /\
               ring c3 !! node = Some 1 /\ GetShard "user:42" c3 = Some (Some "B").
Proof.
  intros c0 c3.
  pose proof three_shards_ring_ok as Hok. cbn zeta in Hok. fold c0 c3 in Hok.
  assert (Hn : (2 <= length (shards c3))%nat) by (vm_compute; lia).
  assert (Hne : keys c3 <> []) by (vm_compute; discriminate).
  destruct (GetShardIndex_serves_the_next_ring_position "user:42" c3 Hok) as (Hring & _ & _).
  destruct (Hring Hn Hne) as (node & i & b & Hsucc & Hi & _ & Hb & Hget & Hshard).
  assert (i = 1) as -> by (vm_compute in Hget; congruence).
  assert (b = "B") as -> by (vm_compute in Hb; congruence).
  split; [exact Hok|]. split; [exact Hn|]. split; [exact Hne|].
  exists node. split; [exact Hsucc|]. split; assumption.
Defined.

Lemma AddShard_moves_keys_to_the_new_shard_only_witness :
  let c0 : ConsistentHashSharder string := NewConsistentHashSharder 3 in
  let c3 := (AddShard "C" (AddShard "B" (AddShard "A" c0).1).1).1 in
  ring_ok c3 /\ fresh_nodes c3 /\ (2 <= length (shards c3))%nat /\ keys c3 <> [] /\
  exists i j, GetShardIndex "user:42" c3 = Some i /\
              GetShardIndex "user:42" (AddShard "D" c3).1 = Some j /\ (j = i \/ j = 3).
Proof.
  intros c0 c3.
  pose proof three_shards_ring_ok as Hok. cbn zeta in Hok. fold c0 c3 in Hok.
  assert (Hfresh : fresh_nodes c3) by (apply fresh_nodes_computed; MemoryLaws.by_compute).
  assert (Hn : (2 <= length (shards c3))%nat) by (vm_compute; lia).
  assert (Hne : keys c3 <> []) by (vm_compute; discriminate).
  destruct (AddShard_moves_keys_to_the_new_shard_only "user:42" "D" c3 Hok Hfresh Hn Hne)
    as (_ & _ & i & j & Hi & Hj & Hij).
  split; [exact Hok|]. split; [exact Hfresh|]. split; [exact Hn|]. split; [exact Hne|].
  exists i, j. split; [exact Hi|]. split; [exact Hj | exact Hij].
Defined.

Lemma RemoveShard_keeps_the_keys_of_the_other_shards_witness :
  let c0 : ConsistentHashSharder string := NewConsistentHashSharder 3 in
  let c3 := (AddShard "C" (AddShard "B" (AddShard "A" c0).1).1).1 in
  ring_ok c3 /\ 0 <= 0 < Z.of_nat (length (shards c3)) /\
  (2 <= length (shards c3))%nat /\ keys c3 <> [] /\
  GetShardIndex "user:42" c3 = Some 1 /\
  GetShardIndex "user:42" (RemoveShard 0 c3).1 = Some 0 /\
  GetShard "user:42" (RemoveShard 0 c3).1 = Some (Some "B").
Proof.
  intros c0 c3.
  pose proof three_shards_ring_ok as Hok. cbn zeta in Hok. fold c0 c3 in Hok.
  assert (Hi : 0 <= 0 < Z.of_nat (length (shards c3))) by (vm_compute; split; congruence).
  assert (Hn : (2 <= length (shards c3))%nat) by (vm_compute; lia).
  assert (Hne : keys c3 <> []) by (vm_compute; discriminate).
  assert (Hget : GetShardIndex "user:42" c3 = Some 1) by (vm_compute; reflexivity).
  destruct (RemoveShard_keeps_the_keys_of_the_other_shards "user:42" 0 c3 Hok Hi Hn Hne)
    as (_ & _ & _ & Hkeep).
  destruct (Hkeep 1 "B" Hget ltac:(discriminate) eq_refl) as [H1 H2].
  split; [exact Hok|]. split; [exact Hi|]. split; [exact Hn|]. split; [exact Hne|].
  split; [exact Hget|]. split; [exact H1 | exact H2].
Defined.

End Ring.

(** *** The range sharder *)

Section Range.
Context {B : Type}.
Import Sharding.Range.

Lemma string_of_rune_ascii r :
  0 <= r < 128 -> string_of_rune r = String (byte_of r) "" /\ first_letter (string_of_rune r) = r.
Proof.
  intros Hr. unfold string_of_rune.
  destruct (Z.ltb_spec r 0); [lia|].
  destruct (Z.ltb_spec 1114111 r); [lia|].
  destruct (Z.leb_spec 55296 r); [lia|]. cbn [orb andb].
  destruct (Z.ltb_spec r 128); [|lia]. split; [reflexivity|].
  unfold first_letter, first_byte, byte_of.
  rewrite N_ascii_embedding by lia. lia.
Qed.

Lemma add_all_range (bs : list B) : forall (r : RangeSharder B),
  ranges r = boundaries 0 (length (shards r)) ->
  let r' := fold_left change_range (Add <$> bs) r in
  shards r' = shards r ++ bs /\ ranges r' = boundaries 0 (length (shards r ++ bs)).
Proof.
  induction bs as [|b bs IH]; intros r Hr; cbn [fmap list_fmap fold_left].
  - cbn zeta. rewrite app_nil_r. split; [reflexivity | exact Hr].
  - destruct (IH (change_range r (Add b))) as [H1 H2].
    + cbn [change_range AddShard fst shards ranges]. rewrite Hr, length_app. cbn [length].
      unfold boundaries. rewrite Nat.add_1_r, seq_S, fmap_app. cbn [fmap list_fmap Nat.add].
      do 3 f_equal. lia.
    + cbn zeta. rewrite H1, H2. cbn [change_range AddShard fst shards].
      rewrite <- app_assoc. split; reflexivity.
Qed.

Lemma find_range_boundaries fc n : forall a,
  (a + n <= 31)%nat ->
  find_range fc (Z.of_nat a) (boundaries a n) =
    if Z.of_N fc <=? 97 + Z.of_nat (a + n) - 1
    then (if (0 <? n)%nat then Some (Z.max (Z.of_nat a) (Z.of_N fc - 97)) else None)
    else None.
Proof.
  induction n as [|n IH]; intros a Ha.
  - cbn. destruct (_ <=? _); reflexivity.
  - unfold boundaries. cbn [seq fmap list_fmap find_range]. fold (boundaries (S a) n).
    destruct (string_of_rune_ascii (97 + Z.of_nat a) ltac:(lia)) as [_ Hfl].
    unfold first_letter in Hfl.
    replace (Z.of_nat a + 1) with (Z.of_nat (S a)) by lia.
    rewrite IH by lia. cbn [Nat.ltb Nat.leb].
    destruct (N.leb_spec fc (first_byte (string_of_rune (97 + Z.of_nat a)))) as [Hle|Hgt].
    + destruct (Z.leb_spec (Z.of_N fc) (97 + Z.of_nat (a + S n) - 1)); [|lia].
      f_equal. lia.
    + replace (S a + n)%nat with (a + S n)%nat by lia.
      destruct (Z.leb_spec (Z.of_N fc) (97 + Z.of_nat (a + S n) - 1)); [|reflexivity].
      destruct n as [|n]; [lia|]. cbn [Nat.ltb Nat.leb]. f_equal. lia.
Qed.

(** X16. A range sharder that got its shards from [AddShard] alone, at
    most 26 of them, routes a key by its first byte: keys that start at or
    before "a" go to the first shard, keys that start with the next letter
    to the next shard and so on, and keys that start past the last
    boundary go to the last shard; the empty key goes to the first shard.
    [GetShard] returns the shard at that index. *)
Theorem RangeSharder_routes_by_first_letter key (bs : list B) :
  (1 <= length bs <= 26)%nat ->
  let r := fold_left change_range (Add <$> bs) NewRangeSharder in
  let i := Z.min (Z.of_nat (length bs) - 1) (Z.max 0 (first_letter key - 97)) in
  shards r = bs /\
  GetShardIndex key r = i /\
  exists b, bs !! Z.to_nat i = Some b /\ GetShard key r = Some (Some b).
Proof.
  intros Hn r i.
  destruct (add_all_range bs NewRangeSharder eq_refl) as [Hsh Hr]. fold r in Hsh, Hr.
  cbn [shards NewRangeSharder app] in Hsh, Hr.
  assert (Hidx : GetShardIndex key r = i).
  { unfold GetShardIndex. rewrite Hsh, Hr.
    destruct (Nat.eqb_spec (length bs) 0); [lia|].
    destruct key as [|c s].
    - change (len "" =? 0) with true. cbn iota. subst i. unfold first_letter.
      change (Z.of_N (first_byte "")) with 0. lia.
    - assert (Hlen : (len (String c s) =? 0) = false)
        by (apply Z.eqb_neq; unfold len; cbn [String.length]; lia).
      rewrite Hlen.
      pose proof (find_range_boundaries (first_byte (String c s)) (length bs) 0 ltac:(lia)) as Hf.
      change (Z.of_nat 0) with 0 in Hf. rewrite Hf. subst i. unfold first_letter.
      cbn [Nat.add]. destruct (Z.leb_spec (Z.of_N (first_byte (String c s))) (97 + Z.of_nat (length bs) - 1)).
      + destruct (Nat.ltb_spec 0 (length bs)); lia.
      + lia. }
  split; [exact Hsh|]. split; [exact Hidx|].
  assert (Hi : 0 <= i < Z.of_nat (length bs)) by (subst i; lia).
  destruct (lookup_lt_is_Some_2 bs (Z.to_nat i) ltac:(lia)) as [b Hb].
  exists b. split; [exact Hb|]. unfold GetShard. rewrite Hidx, Hsh.
  destruct (Nat.eqb_spec (length bs) 0); [lia|]. cbv zeta.
  destruct (Z.ltb_spec i 0); [lia|]. rewrite Hb. reflexivity.
Qed.

Lemma find_range_bound fc ranges : forall i j,
  find_range fc i ranges = Some j -> i <= j < i + Z.of_nat (length ranges).
Proof.
  induction ranges as [|b ranges IH]; intros i j; cbn [find_range length]; [discriminate|].
  destruct (_ <=? _)%N; [intros [= <-]; lia|]. intros H. apply IH in H. lia.
Qed.

(** X17. Whatever calls of [AddShard] and [RemoveShard] a range sharder has
    seen, it holds one boundary per shard, none of them empty, and a lookup
    never fails: with no shard [GetShardIndex] returns [-1] and [GetShard]
    the nil backend; otherwise [GetShardIndex] returns an index of the
    shard list and [GetShard] the shard at that index. *)
Theorem RangeSharder_lookups_stay_in_range key (changes : list (change B)) :
  let r := fold_left change_range changes NewRangeSharder in
  length (ranges r) = length (shards r) /\
  Forall (fun boundary => boundary <> "") (ranges r) /\
  (shards r = [] -> GetShardIndex key r = -1 /\ GetShard key r = Some None) /\
  (shards r <> [] ->
   exists b, 0 <= GetShardIndex key r < Z.of_nat (length (shards r)) /\
             shards r !! Z.to_nat (GetShardIndex key r) = Some b /\
             GetShard key r = Some (Some b)).
Proof.
  cbn zeta.
  assert (Hinv : forall (r : RangeSharder B),
            length (ranges r) = length (shards r) /\
            Forall (fun boundary => boundary <> "") (ranges r) ->
            length (ranges (fold_left change_range changes r))
            = length (shards (fold_left change_range changes r)) /\
            Forall (fun boundary => boundary <> "")
              (ranges (fold_left change_range changes r))).
  { induction changes as [|ch changes IH]; intros r [Hl Hne]; [split; assumption|].
    cbn [fold_left]. apply IH. destruct ch as [b|index]; cbn [change_range].
    - cbn [AddShard fst ranges shards]. rewrite !length_app, Hl. split; [reflexivity|].
      apply Forall_app. split; [exact Hne|]. apply Forall_singleton.
      unfold string_of_rune. repeat destruct (_ || _); repeat destruct (_ <? _); discriminate.
    - unfold RemoveShard. destruct (_ || _) eqn:Hc; cbn [fst ranges shards]; [split; assumption|].
      apply orb_false_iff in Hc as [H1 H2]. apply Z.ltb_ge in H1. apply Z.leb_gt in H2.
      unfold remove_at. rewrite !length_app, !length_take, !length_drop, Hl.
      split; [reflexivity|]. apply Forall_app.
      split; [apply Forall_take | apply Forall_drop]; exact Hne. }
  destruct (Hinv NewRangeSharder) as [Hl Hne]; [split; [reflexivity | constructor]|].
  set (r := fold_left change_range changes NewRangeSharder) in *. clearbody r.
  split; [exact Hl|]. split; [exact Hne|]. split.
  - intros Hs. unfold GetShardIndex, GetShard. rewrite Hs. split; reflexivity.
  - intros Hs.
    assert (Hpos : (0 < length (shards r))%nat) by (destruct (shards r); [contradiction | cbn; lia]).
    assert (Hidx : 0 <= GetShardIndex key r < Z.of_nat (length (shards r))).
    { unfold GetShardIndex. destruct (Nat.eqb_spec (length (shards r)) 0); [lia|].
      destruct (len key =? 0); [lia|].
      destruct (find_range _ 0 (ranges r)) as [j|] eqn:Hf; [|lia].
      apply find_range_bound in Hf. lia. }
    destruct (lookup_lt_is_Some_2 (shards r) (Z.to_nat (GetShardIndex key r)) ltac:(lia))
      as [b Hb].
    exists b. split; [exact Hidx|]. split; [exact Hb|]. unfold GetShard.
    destruct (Nat.eqb_spec (length (shards r)) 0); [lia|]. cbv zeta.
    destruct (Z.ltb_spec (GetShardIndex key r) 0); [lia|]. rewrite Hb. reflexivity.
Qed.

End Range.

Lemma RangeSharder_routes_by_first_letter_witness :
  let bs := ["A"; "B"; "C"] in
  let r := fold_left change_range (Add <$> bs) Range.NewRangeSharder in
  (1 <= length bs <= 26)%nat /\
  Range.GetShardIndex "banana" r = 1 /\ Range.GetShardIndex "zebra" r = 2 /\
  Range.GetShardIndex "Apple" r = 0 /\ Range.GetShard "banana" r = Some (Some "B").
Proof.
  intros bs r.
  assert (Hn : (1 <= length bs <= 26)%nat) by (cbn; lia).
  destruct (RangeSharder_routes_by_first_letter "banana" bs Hn) as (_ & H1 & b & Hb & Hs).
  destruct (RangeSharder_routes_by_first_letter "zebra" bs Hn) as (_ & H2 & _).
  destruct (RangeSharder_routes_by_first_letter "Apple" bs Hn) as (_ & H3 & _).
  assert (b = "B") as -> by (vm_compute in Hb; congruence).
  split; [exact Hn|]. split; [exact H1|]. split; [exact H2|]. split; [exact H3 | exact Hs].
Defined.

(** *** The hash sharder *)

Section Hash.
Context {B : Type}.
Import Sharding.Hash.

Lemma le_bytes_nonneg n w : Forall (fun b => 0 <= b <= 255) (le_bytes n w).
Proof.
  unfold le_bytes. apply Forall_fmap, Forall_forall. intros i _. cbn.
  split; [apply Z.land_nonneg; lia|].
  change 255 with (Z.ones 8). rewrite Z.land_ones by lia. change (2 ^ 8) with 256.
  pose proof (Z.mod_pos_bound (Z.shiftr w (8 * Z.of_nat i)) 256 ltac:(lia)).
  change (Z.ones 8) with 255. lia.
Qed.

Lemma md5_Sum_bytes data :
  length (md5_Sum data) = 16%nat /\ Forall (fun b => 0 <= b <= 255) (md5_Sum data).
Proof.
  unfold md5_Sum. destruct (md5_blocks _ _ _) as [[[a b] c] d].
  split; [reflexivity|]. repeat (apply Forall_app; split); apply le_bytes_nonneg.
Qed.

(** Bytes put side by side with shifts and [|] make the number that has
    them as its digits in base 256. *)
Lemma lor_above x y n :
  0 <= n -> 0 <= y < 2 ^ n -> Z.lor (x * 2 ^ n) y = x * 2 ^ n + y.
Proof.
  intros Hn Hy.
  assert (Hland : Z.land (x * 2 ^ n) y = 0).
  { apply Z.bits_inj'. intros i Hi. rewrite Z.land_spec, Z.bits_0.
    destruct (Z.lt_ge_cases i n) as [Hlt|Hge].
    - rewrite Z.mul_pow2_bits_low by lia. reflexivity.
    - rewrite <- (Z.mod_small y (2 ^ n)) by lia.
      rewrite Z.mod_pow2_bits_high by lia. apply andb_false_r. }
  rewrite <- Z.lxor_lor by exact Hland. symmetry. apply Z.add_nocarry_lxor, Hland.
Qed.

Lemma hashKey_big_endian key : hashKey key = big_endian (take 4 (md5_Sum key)).
Proof.
  unfold hashKey. cbv zeta. destruct (md5_Sum_bytes key) as [Hlen Hall].
  destruct (md5_Sum key) as [|b0 [|b1 [|b2 [|b3 l]]]]; try discriminate.
  cbn [nth take]. apply Forall_cons in Hall as [H0 Hall]. apply Forall_cons in Hall as [H1 Hall].
  apply Forall_cons in Hall as [H2 Hall]. apply Forall_cons in Hall as [H3 _].
  unfold big_endian. cbn [fold_left]. rewrite !Z.shiftl_mul_pow2 by lia.
  rewrite (lor_above b0 (b1 * 2 ^ 16) 24) by lia.
  replace (b0 * 2 ^ 24 + b1 * 2 ^ 16) with ((b0 * 2 ^ 8 + b1) * 2 ^ 16) by ring.
  rewrite (lor_above _ (b2 * 2 ^ 8) 16) by lia.
  replace ((b0 * 2 ^ 8 + b1) * 2 ^ 16 + b2 * 2 ^ 8)
    with (((b0 * 2 ^ 8 + b1) * 2 ^ 8 + b2) * 2 ^ 8) by ring.
  rewrite (lor_above _ b3 8) by lia. rewrite take_0. cbn [fold_left]. change (2 ^ 8) with 256. lia.
Qed.

(** The hash is a [uint32]. *)
Lemma hashKey_bound key : 0 <= hashKey key < 2 ^ 32.
Proof.
  rewrite hashKey_big_endian. destruct (md5_Sum_bytes key) as [Hlen Hall].
  destruct (md5_Sum key) as [|b0 [|b1 [|b2 [|b3 l]]]]; try discriminate.
  cbn [take]. apply Forall_cons in Hall as [H0 Hall]. apply Forall_cons in Hall as [H1 Hall].
  apply Forall_cons in Hall as [H2 Hall]. apply Forall_cons in Hall as [H3 _].
  unfold big_endian. cbn [fold_left]. rewrite take_0. cbn [fold_left]. lia.
Qed.

(** X18. The hash sharder routes a key by the first four bytes of the MD5
    digest of the key, read as a number with the most significant byte
    first, modulo the number of shards: with at least one shard,
    [GetShardIndex] returns that remainder, which is an index of the shard
    list, and [GetShard] returns the shard at that index; with no shard
    they return [-1] and the nil backend. A lookup never fails. The digest
    is MD5: of the empty text and of "abc" it is the one of RFC 1321. *)
Theorem HashSharder_routes_by_md5 key (h : HashSharder B) :
  hashKey key = big_endian (take 4 (md5_Sum key)) /\
  length (md5_Sum key) = 16%nat /\
  md5_Sum "" = [212; 29; 140; 217; 143; 0; 178; 4; 233; 128; 9; 152; 236; 248; 66; 126] /\
  md5_Sum "abc" = [144; 1; 80; 152; 60; 210; 79; 176; 214; 150; 63; 125; 40; 225; 127; 114] /\
  hashKey "abc" = 2416005272 /\
  0 <= big_endian (take 4 (md5_Sum key)) < 2 ^ 32 /\
  (shards h = [] -> GetShardIndex key h = -1 /\ GetShard key h = Some None) /\
  (shards h <> [] ->
   let i := big_endian (take 4 (md5_Sum key)) mod Z.of_nat (length (shards h)) in
   GetShardIndex key h = i /\ 0 <= i < Z.of_nat (length (shards h)) /\
   exists b, shards h !! Z.to_nat i = Some b /\ GetShard key h = Some (Some b)).
Proof.
  pose proof (hashKey_bound key) as Hb. pose proof (hashKey_big_endian key) as Hbe.
  split; [exact Hbe|]. split; [apply md5_Sum_bytes|].
  split; [vm_compute; reflexivity|]. split; [vm_compute; reflexivity|].
  split; [vm_compute; reflexivity|].
  rewrite <- Hbe. split; [exact Hb|]. split.
  - intros Hs. unfold GetShardIndex, GetShard. rewrite Hs. split; reflexivity.
  - intros Hs i.
    assert (Hpos : (0 < length (shards h))%nat) by (destruct (shards h); [contradiction | cbn; lia]).
    assert (Hi : 0 <= i < Z.of_nat (length (shards h))) by (apply Z.mod_pos_bound; lia).
    assert (Hrem : Z.rem (hashKey key) (Z.of_nat (length (shards h))) = i)
      by (apply Z.rem_mod_nonneg; lia).
    destruct (lookup_lt_is_Some_2 (shards h) (Z.to_nat i) ltac:(lia)) as [b Hbi].
    unfold GetShardIndex, GetShard.
    destruct (Nat.eqb_spec (length (shards h)) 0); [lia|]. cbv zeta. rewrite Hrem.
    split; [reflexivity|]. split; [exact Hi|]. exists b. split; [exact Hbi|].
    destruct (Z.ltb_spec i 0); [lia|]. rewrite Hbi. reflexivity.
Qed.

End Hash.

(** The digest of the model is the MD5 digest on known values: the empty
    text, and a text longer than one block. *)
Example md5_Sum_known_values :
  md5_Sum "" = [212; 29; 140; 217; 143; 0; 178; 4; 233; 128; 9; 152; 236; 248; 66; 126] /\
  md5_Sum "The quick brown fox jumps over the lazy dog, twice over, to get past one block of input."
  = [134; 93; 144; 46; 90; 32; 3; 56; 110; 199; 69; 59; 35; 73; 130; 135] /\
  Hash.hashKey "user:42" = 1457184536.
Proof. vm_compute. repeat split; reflexivity. Qed.

(** *** A ring without replicas *)

Section NoReplicas.
Context {B : Type}.
Import Sharding.Consistent.

Lemma AddShard_without_replicas (b : B) (c : ConsistentHashSharder B) :
  replicas c <= 0 -> keys c = [] ->
  let c' := (AddShard b c).1 in
  replicas c' = replicas c /\ keys c' = [] /\ ring c' = ring c /\ shards c' = shards c ++ [b].
Proof.
  intros Hr Hk. unfold AddShard. rewrite Hk.
  assert (Hseq : seqZ 0 (replicas c) = []) by (apply seqZ_nil; lia).
  rewrite Hseq. cbn. repeat split; reflexivity.
Qed.

(** X19. A consistent-hash sharder made with no replicas (a count of zero
    or less) never gets a ring position: [AddShard] adds the shard and
    nothing else, and with two shards or more every lookup indexes an empty
    slice, a run-time panic. [NewSharder] never makes such a sharder: it
    takes 100 replicas when the configuration gives none. *)
Theorem lookups_panic_without_replicas key r (bs : list B) :
  r <= 0 ->
  let c := fold_left change_consistent (Add <$> bs) (NewConsistentHashSharder r) in
  shards c = bs /\ keys c = [] /\ ring c = ∅ /\
  ((2 <= length bs)%nat -> GetShardIndex key c = None /\ GetShard key c = None) /\
  (forall cfg,
     match NewSharder (B := B) cfg with
     | ConsistentS c0 => 0 < replicas c0
     | _ => True
     end).
Proof.
  intros Hr. cbn zeta.
  assert (Hinv : forall (c : ConsistentHashSharder B),
            replicas c <= 0 -> keys c = [] ->
            let c' := fold_left change_consistent (Add <$> bs) c in
            shards c' = shards c ++ bs /\ keys c' = [] /\ ring c' = ring c).
  { induction bs as [|b bs IH]; intros c Hrc Hk; cbn [fmap list_fmap fold_left].
    - cbn zeta. rewrite app_nil_r. repeat split. exact Hk.
    - destruct (AddShard_without_replicas b c Hrc Hk) as (H1 & H2 & H3 & H4).
      destruct (IH (change_consistent c (Add b))) as (H5 & H6 & H7);
        [cbn [change_consistent]; rewrite H1; exact Hrc | exact H2 |].
      cbn zeta. rewrite H5, H6, H7. cbn [change_consistent]. rewrite H3, H4, <- app_assoc.
      repeat split. }
  destruct (Hinv (NewConsistentHashSharder r) Hr eq_refl) as (Hs & Hk & Hg).
  cbn [shards ring NewConsistentHashSharder app] in Hs, Hg.
  split; [exact Hs|]. split; [exact Hk|]. split; [exact Hg|]. split.
  - intros Hn. unfold GetShardIndex, GetShard. rewrite Hs, Hk.
    destruct (Nat.eqb_spec (length bs) 0); [lia|].
    destruct (Nat.eqb_spec (length bs) 1); [lia|]. split; reflexivity.
  - intros cfg. unfold NewSharder.
    destruct (String.eqb _ "consistent").
    + cbn. destruct (Z.leb_spec (Replicas cfg) 0); lia.
    + destruct (String.eqb _ "hash"); [exact I|].
      destruct (String.eqb _ "range"); [exact I | reflexivity].
Qed.

End NoReplicas.

Lemma lookups_panic_without_replicas_witness :
  let c := fold_left change_consistent (Add <$> ["A"; "B"]) (Consistent.NewConsistentHashSharder 0) in
  0 <= 0 /\ Consistent.shards c = ["A"; "B"] /\ Consistent.GetShard "user:42" c = None.
Proof.
  intros c.
  assert (Hr : 0 <= 0) by lia.
  destruct (lookups_panic_without_replicas "user:42" 0 ["A"; "B"] Hr) as (Hs & _ & _ & Hp & _).
  split; [exact Hr|]. split; [exact Hs|]. exact (proj2 (Hp ltac:(cbn; lia))).
Defined.

(** *** Shard keys *)

Lemma app_cons_string c r t : (String c r ++ t)%string = String c (r ++ t).
Proof. reflexivity. Qed.

Lemma app_nil_string s : (s ++ "")%string = s.
Proof. induction s as [|c r IH]; [|rewrite app_cons_string, IH]; reflexivity. Qed.

Lemma app_assoc_string s t u : ((s ++ t) ++ u)%string = (s ++ (t ++ u))%string.
Proof. induction s as [|c r IH]; [|rewrite !app_cons_string, IH]; reflexivity. Qed.

Lemma chars_app s t :
  list_ascii_of_string (s ++ t) = list_ascii_of_string s ++ list_ascii_of_string t.
Proof.
  induction s as [|c r IH]; [reflexivity|]. rewrite app_cons_string. cbn. rewrite IH. reflexivity.
Qed.

Lemma is_ascii_app s t : is_ascii (s ++ t) = is_ascii s && is_ascii t.
Proof.
  induction s as [|c r IH]; [reflexivity|]. rewrite app_cons_string. cbn [is_ascii].
  rewrite IH, andb_assoc. reflexivity.
Qed.

(** On one-byte characters, walking the runes is walking the bytes. *)
Lemma split_runes_ascii s : forall acc,
  is_ascii s = true ->
  fold_left split_step (runes s) acc = fold_left split_char (list_ascii_of_string s) acc.
Proof.
  induction s as [|c r IH]; intros acc Hs; [reflexivity|].
  cbn [is_ascii] in Hs. apply andb_true_iff in Hs as [Hc Hr].
  assert (Hrunes : runes (String c r) = byte_val c :: runes r).
  { cbn [runes]. cbv zeta. rewrite Hc. reflexivity. }
  rewrite Hrunes. cbn [fold_left list_ascii_of_string]. rewrite <- IH by exact Hr. f_equal.
  unfold split_step, split_char. apply Z.ltb_lt in Hc.
  assert (Hbyte : byte_of (byte_val c) = c).
  { unfold byte_of, byte_val. rewrite N2Z.id. apply ascii_N_embedding. }
  assert (Hrune : string_of_rune (byte_val c) = String c "").
  { assert (Hx : 0 <= byte_val c) by (unfold byte_val; lia).
    unfold string_of_rune.
    destruct (Z.ltb_spec (byte_val c) 0); [lia|].
    destruct (Z.ltb_spec 1114111 (byte_val c)); [lia|].
    destruct (Z.leb_spec 55296 (byte_val c)); [lia|]. cbn [orb andb].
    destruct (Z.ltb_spec (byte_val c) 128); [|lia].
    rewrite Hbyte. reflexivity. }
  rewrite Hrune.
  destruct (Ascii.eqb_spec c ":") as [->|Hne]; [reflexivity|].
  destruct (Z.eqb_spec (byte_val c) 58) as [Heq|_]; [|reflexivity].
  exfalso. apply Hne. rewrite <- Hbyte, Heq. reflexivity.
Qed.

Lemma split_no_colon t : forall parts cur rest,
  no_colon t = true ->
  fold_left split_char (list_ascii_of_string t ++ rest) (parts, cur)
  = fold_left split_char rest (parts, (cur ++ t)%string).
Proof.
  induction t as [|c r IH]; intros parts cur rest Ht.
  - rewrite app_nil_string. reflexivity.
  - cbn [no_colon] in Ht. apply andb_true_iff in Ht as [Hc Hr].
    apply negb_true_iff in Hc. cbn [list_ascii_of_string app fold_left].
    unfold split_char at 2. rewrite Hc. cbn [fst snd]. rewrite IH by exact Hr.
    rewrite app_assoc_string. reflexivity.
Qed.

Lemma concat_snoc sep segs a b :
  String.concat sep (segs ++ [a; b])
  = (String.concat sep (segs ++ [a]) ++ sep ++ b)%string.
Proof.
  induction segs as [|x segs IH]; [reflexivity|].
  destruct segs as [|y segs].
  - cbn. rewrite !app_assoc_string. reflexivity.
  - cbn [app String.concat] in *. rewrite IH, !app_assoc_string. reflexivity.
Qed.

Lemma concat_snoc_append sep segs cur t :
  String.concat sep (segs ++ [(cur ++ t)%string])
  = (String.concat sep (segs ++ [cur]) ++ t)%string.
Proof.
  induction segs as [|x segs IH]; [reflexivity|].
  destruct segs as [|y segs].
  - cbn. rewrite !app_assoc_string. reflexivity.
  - cbn [app String.concat] in *. rewrite IH, !app_assoc_string. reflexivity.
Qed.

Lemma no_colon_app s t : no_colon (s ++ t) = no_colon s && no_colon t.
Proof.
  induction s as [|c r IH]; [reflexivity|]. rewrite app_cons_string. cbn [no_colon].
  rewrite IH, andb_assoc. reflexivity.
Qed.

(** The loop splits at the colons: the parts it has closed and the part it
    is reading, joined by colons, are the text it has read. *)
Lemma split_inv key : forall (P segs : list string) cur,
  no_colon cur = true ->
  exists segs' c,
    fold_left split_char (list_ascii_of_string key) (P ++ segs, cur) = (P ++ segs', c) /\
    String.concat ":" (segs' ++ [c]) = (String.concat ":" (segs ++ [cur]) ++ key)%string /\
    no_colon c = true.
Proof.
  induction key as [|ch key IH]; intros P segs cur Hcur.
  - exists segs, cur. rewrite app_nil_string. repeat split. exact Hcur.
  - cbn [list_ascii_of_string fold_left]. unfold split_char at 2. cbn [fst snd].
    destruct (Ascii.eqb_spec ch ":") as [->|Hne].
    + rewrite <- app_assoc. destruct (IH P (segs ++ [cur]) "" eq_refl) as (segs' & c & H1 & H2 & H3).
      exists segs', c. split; [exact H1|]. split; [|exact H3].
      rewrite H2, <- app_assoc. cbn [app]. rewrite concat_snoc, !app_assoc_string. reflexivity.
    + destruct (IH P segs (cur ++ String ch "")%string) as (segs' & c & H1 & H2 & H3).
      { rewrite no_colon_app, Hcur. cbn. apply Ascii.eqb_neq in Hne. rewrite Hne. reflexivity. }
      exists segs', c. split; [exact H1|]. split; [|exact H3].
      rewrite H2, concat_snoc_append, !app_assoc_string. reflexivity.
Qed.

Lemma join_fold_more l : forall acc i,
  2 < i ->
  (fold_left join_step l (acc, i)).1 =
    match l with
    | [] => acc
    | _ => (acc ++ ":" ++ String.concat ":" l)%string
    end.
Proof.
  induction l as [|x l IH]; intros acc i Hi; [reflexivity|].
  cbn [fold_left]. unfold join_step at 2. destruct (Z.ltb_spec 2 i); [|lia].
  rewrite IH by lia. destruct l as [|y l].
  - cbn. rewrite !app_assoc_string. reflexivity.
  - cbn [String.concat]. rewrite !app_assoc_string. reflexivity.
Qed.

Lemma join_fold l : (fold_left join_step l ("", 2)).1 = String.concat ":" l.
Proof.
  destruct l as [|x l]; [reflexivity|]. cbn [fold_left]. unfold join_step at 2.
  change (2 <? 2) with false. cbn iota. rewrite join_fold_more by lia.
  destruct l; reflexivity.
Qed.

Lemma last_is_colon_cons x r : r <> "" -> last_is_colon (String x r) = last_is_colon r.
Proof. destruct r; [contradiction | reflexivity]. Qed.

Lemma last_is_colon_app s t : t <> "" -> last_is_colon (s ++ t) = last_is_colon t.
Proof.
  intros Ht. induction s as [|c r IH]; [reflexivity|]. rewrite app_cons_string.
  rewrite last_is_colon_cons, IH; [reflexivity|].
  destruct r; [exact Ht | discriminate].
Qed.

Lemma no_colon_last s : no_colon s = true -> last_is_colon s = false.
Proof.
  induction s as [|c r IH]; [reflexivity|]. cbn [no_colon last_is_colon]. intros H.
  apply andb_true_iff in H as [Hc Hr]. apply negb_true_iff in Hc.
  destruct r; [exact Hc | apply IH, Hr].
Qed.

Lemma without_last_cons x r : r <> "" -> without_last (String x r) = String x (without_last r).
Proof. destruct r; [contradiction | reflexivity]. Qed.

Lemma without_last_snoc s c : without_last (s ++ String c "") = s.
Proof.
  induction s as [|x r IH]; [reflexivity|]. rewrite app_cons_string.
  rewrite without_last_cons, IH; [reflexivity|]. destruct r; discriminate.
Qed.

Lemma all_digits_plain s : all_digits s = true -> is_ascii s = true /\ no_colon s = true.
Proof.
  induction s as [|c r IH]; [split; reflexivity|]. cbn [all_digits is_ascii no_colon].
  intros H. apply andb_true_iff in H as [Hc Hr]. destruct (IH Hr) as [-> ->].
  unfold is_digit in Hc. apply andb_true_iff in Hc as [H1 H2].
  apply N.leb_le in H1, H2. unfold byte_val. split.
  - rewrite andb_true_r. apply Z.ltb_lt. lia.
  - rewrite andb_true_r. apply negb_true_iff, Ascii.eqb_neq. intros ->.
    vm_compute in H2. apply H2. reflexivity.
Qed.

(** The decimal text of an integer has one-byte characters and no colon. *)
Lemma Sprintf_d_plain n : is_ascii (Sprintf_d n) = true /\ no_colon (Sprintf_d n) = true.
Proof.
  unfold Sprintf_d.
  assert (Hu : forall d, is_ascii (NilZero.string_of_uint d) = true
                         /\ no_colon (NilZero.string_of_uint d) = true).
  { intros d. destruct d; try (split; reflexivity);
      apply all_digits_plain;
      match goal with
      | |- all_digits (NilZero.string_of_uint ?x) = true =>
          exact (GoProps.all_digits_string_of_uint x)
      end. }
  destruct (Z.to_int n) as [d|d]; cbn [NilZero.string_of_int]; [apply Hu|].
  destruct (Hu d) as [H1 H2]. cbn [is_ascii no_colon]. rewrite H1, H2. split; reflexivity.
Qed.

(** X20. On a key of one-byte characters, [ExtractOriginalKey] undoes
    [GenerateShardKey] up to a colon at the end of the key: it returns the
    key when the key is not empty and does not end with a colon; it drops
    the last colon of a key that ends with one; and for the empty key it
    returns the whole shard key. *)
Theorem ExtractOriginalKey_undoes_GenerateShardKey key index :
  is_ascii key = true ->
  ExtractOriginalKey (GenerateShardKey key index) =
    if String.eqb key "" then GenerateShardKey key index
    else if last_is_colon key then without_last key
    else key.
Proof.
  intros Hkey. unfold ExtractOriginalKey.
  destruct (Sprintf_d_plain index) as [Hia Hic].
  set (idx := Sprintf_d index) in *.
  assert (Hsk : GenerateShardKey key index
                = ("shard" ++ String ":" (idx ++ String ":" key))%string) by reflexivity.
  assert (Hascii : is_ascii (GenerateShardKey key index) = true).
  { rewrite Hsk, is_ascii_app. cbn [is_ascii]. rewrite is_ascii_app. cbn [is_ascii].
    rewrite Hia, Hkey. reflexivity. }
  rewrite (split_runes_ascii _ _ Hascii), Hsk.
  rewrite chars_app, (split_no_colon "shard" [] "") by reflexivity.
  cbn [list_ascii_of_string fold_left]. unfold split_char at 2. cbn [Ascii.eqb Bool.eqb fst snd].
  cbn [app]. rewrite chars_app, (split_no_colon idx) by exact Hic.
  cbn [list_ascii_of_string fold_left]. unfold split_char at 2. cbn [Ascii.eqb Bool.eqb fst snd].
  change ("" ++ "shard")%string with "shard". change ("" ++ idx)%string with idx.
  change (["shard"] ++ [idx]) with (["shard"; idx] ++ []).
  destruct (split_inv key ["shard"; idx] [] "" eq_refl) as (segs & c & Hfold & Hcat & Hc).
  rewrite Hfold.
  change (String.concat ":" ([] ++ [""]) ++ key)%string with key in Hcat.
  destruct (String.eqb_spec c "") as [->|Hcne]; cbn [negb].
  - destruct segs as [|z segs _] using rev_ind.
    + cbn in Hcat. subst key. cbn [app length]. reflexivity.
    + rewrite <- app_assoc in Hcat. cbn [app] in Hcat. rewrite concat_snoc in Hcat.
      cbn [app length]. rewrite length_app. cbn [length].
      assert (Hlen : (3 <=? Z.of_nat (S (S (length segs + 1)))) = true) by (apply Z.leb_le; lia).
      rewrite Hlen. cbn [nth andb String.eqb Ascii.eqb Bool.eqb drop].
      rewrite drop_0, join_fold.
      assert (Hkne : key <> "").
      { rewrite <- Hcat. destruct (String.concat ":" (segs ++ [z])); discriminate. }
      apply String.eqb_neq in Hkne. rewrite Hkne, <- Hcat.
      rewrite last_is_colon_app by discriminate. cbn [last_is_colon Ascii.eqb Bool.eqb].
      change (":" ++ "")%string with (String ":" ""). rewrite without_last_snoc. reflexivity.
  - rewrite <- app_assoc. cbn [app length]. rewrite length_app. cbn [length].
    assert (Hlen : (3 <=? Z.of_nat (S (S (length segs + 1)))) = true) by (apply Z.leb_le; lia).
    rewrite Hlen. cbn [nth andb String.eqb Ascii.eqb Bool.eqb drop].
    rewrite drop_0, join_fold, Hcat.
    pose proof (concat_snoc_append ":" segs "" c) as Hsplit.
    change ("" ++ c)%string with c in Hsplit. rewrite Hcat in Hsplit.
    assert (Hkne : key <> "").
    { rewrite Hsplit. destruct (String.concat ":" (segs ++ [""])); [|discriminate].
      exact Hcne. }
    apply String.eqb_neq in Hkne. rewrite Hkne.
    assert (Hlast : last_is_colon key = false).
    { rewrite Hsplit, last_is_colon_app by exact Hcne. apply no_colon_last, Hc. }
    rewrite Hlast. reflexivity.
Qed.

Lemma ExtractOriginalKey_undoes_GenerateShardKey_witness :
  is_ascii "user:42" = true /\
  ExtractOriginalKey (GenerateShardKey "user:42" 3) = "user:42" /\
  GenerateShardKey "user:42" 3 = "shard:3:user:42".
Proof.
  assert (Ha : is_ascii "user:42" = true) by reflexivity.
  split; [exact Ha|]. split; [|reflexivity].
  exact (ExtractOriginalKey_undoes_GenerateShardKey "user:42" 3 Ha).
Defined.

End ShardingLaws.

(** ** More of the cache facade *)

Module FacadeLaws.
Import Go Facade FacadeSpec Doubles FacadeProps.

(** *** Validation *)

Lemma contains_nonempty l s :
  contains l s = true -> Forall (fun x => x <> "") l -> String.eqb s "" = false.
Proof.
  intros Hc Hall. apply String.eqb_neq. intros ->.
  unfold contains in Hc. apply existsb_exists in Hc as (x & Hx & Heq).
  apply String.eqb_eq in Heq. subst x.
  rewrite Forall_forall in Hall. apply (Hall "" ); [apply list_elem_of_In, Hx | reflexivity].
Qed.

Ltac nonempty_names := repeat constructor; discriminate.

Lemma validateMemoryConfig_idem c c' :
  validateMemoryConfig c = Ok c' ->
  validateMemoryConfig c' = Ok c' /\
  Backend c' = Backend c /\ Compression c' = Compression c /\
  CompressionAlgorithm c' = CompressionAlgorithm c /\ Serializer c' = Serializer c /\
  Distributed c' = Distributed c /\ Hierarchical c' = Hierarchical c /\
  GRPC c' = GRPC c /\ L1 c' = L1 c /\ L2 c' = L2 c /\ Sharding c' = Sharding c.
Proof.
  unfold validateMemoryConfig. cbv zeta.
  set (mc := Memory c).
  set (mc1 := if String.eqb (Memory.MaxSize mc) "" then _ else mc).
  set (mc2 := if String.eqb (Memory.EvictionPolicy mc1) "" then _ else mc1).
  set (mc3 := if Memory.CleanupInterval mc2 =? 0 then _ else mc2).
  destruct (contains _ (Memory.EvictionPolicy mc3)) eqn:Hp; cbn [negb]; [|discriminate].
  intros [= <-]. cbn [Memory Backend Compression CompressionAlgorithm Serializer Distributed
                        Hierarchical GRPC L1 L2 Sharding].
  split; [|repeat split].
  assert (Hsize : String.eqb (Memory.MaxSize mc3) "" = false).
  { subst mc3 mc2 mc1. destruct (String.eqb (Memory.MaxSize mc) "") eqn:E;
      repeat match goal with |- context [if ?b then _ else _] => destruct b end;
      cbn; try reflexivity; exact E. }
  assert (Hpol : String.eqb (Memory.EvictionPolicy mc3) "" = false)
    by (eapply contains_nonempty; [exact Hp | nonempty_names]).
  assert (Hint : (Memory.CleanupInterval mc3 =? 0) = false).
  { subst mc3. destruct (Memory.CleanupInterval mc2 =? 0) eqn:E; [reflexivity | exact E]. }
  rewrite Hsize, Hpol, Hint, Hp. reflexivity.
Qed.

Lemma Validate_idem cfg cfg' : Validate cfg = Ok cfg' -> Validate cfg' = Ok cfg'.
Proof.
  unfold Validate at 1. cbv zeta.
  destruct (contains _ (Backend cfg)) eqn:Hb; cbn [negb]; [|discriminate].
  set (ser := if String.eqb (Serializer cfg) "" then "json" else Serializer cfg).
  destruct (contains _ ser) eqn:Hs; cbn [negb]; [|discriminate].
  set (alg := if Compression cfg && String.eqb (CompressionAlgorithm cfg) ""
              then "gzip" else CompressionAlgorithm cfg).
  destruct (Compression cfg && negb (contains _ alg)) eqn:Ha; [discriminate|].
  destruct (Hierarchical cfg && _) eqn:Hh; [discriminate|].
  set (grpc := if Distributed cfg && (Port (GRPC cfg) =? 0)
               then mkGRPC 50051 (Peers (GRPC cfg)) else GRPC cfg).
  destruct (Distributed cfg && (length (Peers grpc) =? 0)%nat) eqn:Hd; [discriminate|].
  set (c1 := mkConfig _ _ _ _ _ _ _ _ _ _ _).
  assert (Hc1 : Validate c1 = if String.eqb (Backend cfg) "memory"
                              then validateMemoryConfig c1 else Ok c1).
  { unfold Validate. cbv zeta. subst c1.
    cbn [Backend Compression CompressionAlgorithm Serializer Distributed Hierarchical
           Memory GRPC L1 L2 Sharding].
    rewrite Hb. cbn [negb].
    rewrite (contains_nonempty _ ser Hs) by nonempty_names. rewrite Hs. cbn [negb].
    assert (Halg : (if Compression cfg && String.eqb alg "" then "gzip" else alg) = alg).
    { destruct (Compression cfg); [|reflexivity]. cbn [andb] in *.
      apply negb_false_iff in Ha.
      rewrite (contains_nonempty _ alg Ha) by nonempty_names. reflexivity. }
    rewrite Halg, Ha, Hh.
    assert (Hgrpc : (if Distributed cfg && (Port grpc =? 0)
                     then mkGRPC 50051 (Peers grpc) else grpc) = grpc).
    { destruct (Distributed cfg); [|reflexivity]. cbn [andb] in *. subst grpc.
      destruct (Port (GRPC cfg) =? 0) eqn:E; [reflexivity|]. rewrite E. reflexivity. }
    rewrite Hgrpc, Hd. reflexivity. }
  destruct (String.eqb (Backend cfg) "memory") eqn:Hm.
  - intros Hv. destruct (validateMemoryConfig_idem c1 cfg' Hv)
      as (Hidem & E1 & E2 & E3 & E4 & E5 & E6 & E7 & E8 & E9 & E10).
    unfold Validate. cbv zeta. rewrite E1, E2, E3, E4, E5, E6, E7, E8, E9.
    subst c1. cbn [Backend Compression CompressionAlgorithm Serializer Distributed
                     Hierarchical GRPC L1 L2 Sharding].
    rewrite Hb. cbn [negb].
    rewrite (contains_nonempty _ ser Hs) by nonempty_names. rewrite Hs. cbn [negb].
    assert (Halg : (if Compression cfg && String.eqb alg "" then "gzip" else alg) = alg).
    { destruct (Compression cfg); [|reflexivity]. cbn [andb] in *.
      apply negb_false_iff in Ha.
      rewrite (contains_nonempty _ alg Ha) by nonempty_names. reflexivity. }
    rewrite Halg, Ha, Hh.
    assert (Hgrpc : (if Distributed cfg && (Port grpc =? 0)
                     then mkGRPC 50051 (Peers grpc) else grpc) = grpc).
    { destruct (Distributed cfg); [|reflexivity]. cbn [andb] in *. subst grpc.
      destruct (Port (GRPC cfg) =? 0) eqn:E; [reflexivity|]. rewrite E. reflexivity. }
    rewrite Hgrpc, Hd, Hm.
    match goal with
    | |- validateMemoryConfig ?x = _ => replace x with cfg'; [exact Hidem|]
    end.
    destruct cfg'. cbn in *. subst. reflexivity.
  - intros [= <-]. rewrite Hc1. reflexivity.
Qed.

Lemma Validate_fixed_facts c :
  Validate c = Ok c ->
  contains ["memory"; "redis"; "memcached"] (Backend c) = true /\
  contains ["json"; "gob"; "msgpack"] (Serializer c) = true /\
  (Compression c = true ->
   contains ["gzip"; "lz4"; "snappy"] (CompressionAlgorithm c) = true) /\
  (Hierarchical c = true -> TierBackend (L1 c) <> "" /\ TierBackend (L2 c) <> "") /\
  (Distributed c = true -> Port (GRPC c) <> 0 /\ Peers (GRPC c) <> []) /\
  (Backend c = "memory" ->
   Memory.MaxSize (Memory c) <> "" /\
   contains ["lru"; "lfu"; "random"] (Memory.EvictionPolicy (Memory c)) = true /\
   Memory.CleanupInterval (Memory c) <> 0).
Proof.
  unfold Validate. cbv zeta.
  destruct (contains _ (Backend c)) eqn:Hb; cbn [negb]; [|discriminate].
  set (ser := if String.eqb (Serializer c) "" then "json" else Serializer c).
  destruct (contains _ ser) eqn:Hs; cbn [negb]; [|discriminate].
  set (alg := if Compression c && String.eqb (CompressionAlgorithm c) ""
              then "gzip" else CompressionAlgorithm c).
  destruct (Compression c && negb (contains _ alg)) eqn:Ha; [discriminate|].
  destruct (Hierarchical c && _) eqn:Hh; [discriminate|].
  set (grpc := if Distributed c && (Port (GRPC c) =? 0)
               then mkGRPC 50051 (Peers (GRPC c)) else GRPC c).
  destruct (Distributed c && (length (Peers grpc) =? 0)%nat) eqn:Hd; [discriminate|].
  set (c1 := mkConfig _ _ _ _ _ _ _ _ _ _ _).
  intros Hv.
  assert (Hfields : Serializer c = ser /\ CompressionAlgorithm c = alg /\ GRPC c = grpc).
  { destruct (String.eqb (Backend c) "memory").
    - destruct (validateMemoryConfig_idem c1 c Hv) as (_ & _ & _ & E3 & E4 & _ & _ & E7 & _).
      subst c1. cbn in E3, E4, E7. auto.
    - injection Hv as Hv.
      pose proof (f_equal Serializer Hv) as E4.
      pose proof (f_equal CompressionAlgorithm Hv) as E3.
      pose proof (f_equal GRPC Hv) as E7.
      subst c1. cbn in E3, E4, E7. auto. }
  destruct Hfields as (E4 & E3 & E7).
  split; [reflexivity|]. split; [rewrite E4; exact Hs|].
  split; [|split; [|split]].
  - intros Hc. rewrite Hc in Ha. cbn [andb] in Ha. apply negb_false_iff in Ha.
    rewrite E3. exact Ha.
  - intros Hhier. rewrite Hhier in Hh. cbn [andb] in Hh.
    apply orb_false_iff in Hh as [H1 H2]. split; apply String.eqb_neq; assumption.
  - intros Hdist. rewrite Hdist in Hd. cbn [andb] in Hd. rewrite E7.
    split.
    + subst grpc. rewrite Hdist. cbn [andb].
      destruct (Z.eqb_spec (Port (GRPC c)) 0); [discriminate | assumption].
    + intros Hnil. rewrite Hnil in Hd. discriminate.
  - intros Hmem. rewrite Hmem in Hv. cbn [String.eqb Ascii.eqb Bool.eqb andb] in Hv.
    revert Hv. unfold validateMemoryConfig. cbv zeta.
    set (mc := Memory c1).
    set (mc1 := if String.eqb (Memory.MaxSize mc) "" then _ else mc).
    set (mc2 := if String.eqb (Memory.EvictionPolicy mc1) "" then _ else mc1).
    set (mc3 := if Memory.CleanupInterval mc2 =? 0 then _ else mc2).
    destruct (contains _ (Memory.EvictionPolicy mc3)) eqn:Hp; cbn [negb]; [|discriminate].
    intros [= Hv]. pose proof (f_equal Memory Hv) as Em. cbn [Memory] in Em.
    rewrite <- Em. split; [|split; [exact Hp|]].
    + apply String.eqb_neq. subst mc3 mc2 mc1.
      destruct (String.eqb (Memory.MaxSize mc) "") eqn:E;
        repeat match goal with |- context [if ?b then _ else _] => destruct b end;
        cbn; try reflexivity; exact E.
    + subst mc3. destruct (Z.eqb_spec (Memory.CleanupInterval mc2) 0) as [|Hne];
        [discriminate | exact Hne].
Qed.

(** X21. [Validate] fills the defaults in once: a configuration it accepts
    comes out with every default in place, so that validating its result
    again accepts it and changes nothing. The result names a known backend
    and a known serializer, a known compression algorithm when compression
    is on, both tiers when the mode is hierarchical, a port and at least
    one peer when it is distributed, and a size, a known eviction policy
    and a cleanup interval for the memory backend. *)
Theorem Validate_fills_the_defaults_once cfg cfg' :
  Validate cfg = Ok cfg' ->
  Validate cfg' = Ok cfg' /\
  contains ["memory"; "redis"; "memcached"] (Backend cfg') = true /\
  contains ["json"; "gob"; "msgpack"] (Serializer cfg') = true /\
  (Compression cfg' = true ->
   contains ["gzip"; "lz4"; "snappy"] (CompressionAlgorithm cfg') = true) /\
  (Hierarchical cfg' = true ->
   TierBackend (L1 cfg') <> "" /\ TierBackend (L2 cfg') <> "") /\
  (Distributed cfg' = true -> Port (GRPC cfg') <> 0 /\ Peers (GRPC cfg') <> []) /\
  (Backend cfg' = "memory" ->
   Memory.MaxSize (Memory cfg') <> "" /\
   contains ["lru"; "lfu"; "random"] (Memory.EvictionPolicy (Memory cfg')) = true /\
   Memory.CleanupInterval (Memory cfg') <> 0).
Proof.
  intros Hv. pose proof (Validate_idem cfg cfg' Hv) as Hidem.
  split; [exact Hidem | apply Validate_fixed_facts, Hidem].
Qed.

Lemma Validate_fills_the_defaults_once_witness :
  let cfg := mkConfig "memory" true "" "" false false Facade.zeroMemoryConfig (mkGRPC 0 [])
               Facade.zeroCacheConfig Facade.zeroCacheConfig
               (Sharding.mkShardingConfig false "" 0 0) in
  exists cfg',
    Validate cfg = Ok cfg' /\ Validate cfg' = Ok cfg' /\
    Serializer cfg' = "json" /\ CompressionAlgorithm cfg' = "gzip" /\
    Memory cfg' = Memory.mkConfig "100MB" 0 "lru" 0 (10 * Minute).
Proof.
  intros cfg. eexists. split; [reflexivity|].
  split; [|repeat split].
  match goal with
  | |- Validate ?x = _ =>
      exact (proj1 (Validate_fills_the_defaults_once cfg x eq_refl))
  end.
Defined.

(** *** Construction *)

Section AnyClient.
Context {V B T1 T2 : Type}.
Context `{!Codecs V, !BackendI B, !CacheI V T1, !CacheI V T2}.

Lemma initSharding_loop_fields e n : forall i (c0 c1 : CacheClient V B T1 T2) s s1,
  initSharding_loop e n i c0 s = Ok (c1, s1) ->
  backend c1 = backend c0 /\ l1Cache c1 = l1Cache c0 /\ l2Cache c1 = l2Cache c0 /\
  serializer c1 = serializer c0 /\ compressor c1 = compressor c0.
Proof.
  induction n as [|n IH]; intros i c0 c1 s s1; cbn [initSharding_loop].
  - intros [= <- <-]. repeat split.
  - destruct (backends_New e (Backend (config c0)) (config c0)) as [b0|err]; [|discriminate].
    destruct (Sharding.AddShard b0 s) as [s' [err|]]; [discriminate|].
    intros H. apply IH in H. exact H.
Qed.

(** [initSharding] adds shards and touches nothing else of the client. *)
Lemma initSharding_fields e (c0 c1 : CacheClient V B T1 T2) :
  initSharding e c0 = Ok c1 ->
  backend c1 = backend c0 /\ l1Cache c1 = l1Cache c0 /\ l2Cache c1 = l2Cache c0 /\
  serializer c1 = serializer c0 /\ compressor c1 = compressor c0.
Proof.
  unfold initSharding.
  destruct (initSharding_loop e _ 0 c0 _) as [[c' s']|err] eqn:E; [|discriminate].
  intros [= <-]. eapply initSharding_loop_fields, E.
Qed.

(** X22. A client that [New] returns has what its mode needs. Its
    configuration is the validated one, with the defaults filled in; it has
    a serializer, and a compressor exactly when compression is on. In
    hierarchical mode it has its two tiers and neither a backend nor
    shards; otherwise it has a backend and no tiers, with as many shards
    as the configuration asks for (three when it asks for none) in
    distributed mode and no shard in single mode. *)
Theorem New_builds_what_the_mode_needs e cfg (c : CacheClient V B T1 T2) :
  New e cfg = Ok c ->
  Validate cfg = Ok (config c) /\ Validate (config c) = Ok (config c) /\
  is_Some (serializer c) /\
  (is_Some (compressor c) <-> Compression (config c) = true) /\
  (Hierarchical (config c) = true ->
   backend c = None /\ shards c = [] /\ is_Some (l1Cache c) /\ is_Some (l2Cache c)) /\
  (Hierarchical (config c) = false ->
   is_Some (backend c) /\ l1Cache c = None /\ l2Cache c = None /\
   length (shards c) = if Distributed (config c) then shardCount c else 0%nat).
Proof.
  unfold New. destruct (Validate cfg) as [cfg'|err] eqn:Hv; [|discriminate].
  pose proof (Validate_idem cfg cfg' Hv) as Hidem.
  destruct (NewSerializer (Serializer cfg')) as [ser|err]; [|discriminate].
  assert (Hgoal : forall z : option CompressorI,
            (is_Some z <-> Compression cfg' = true) ->
            (if Hierarchical cfg'
             then match initHierarchicalCache e (mkClient None cfg' [] None None (Some ser) z) with
                  | Err err => Err ("failed to initialize hierarchical cache: " ++ err)%string
                  | Ok client' => Ok client'
                  end
             else match backends_New e (Backend cfg') cfg' with
                  | Err err => Err ("failed to initialize backend: " ++ err)%string
                  | Ok b =>
                      if Distributed cfg'
                      then match initSharding e
                                   (set_backend b (mkClient None cfg' [] None None (Some ser) z)) with
                           | Err err => Err ("failed to initialize sharding: " ++ err)%string
                           | Ok client'' => Ok client''
                           end
                      else Ok (set_backend b (mkClient None cfg' [] None None (Some ser) z))
                  end) = Ok c ->
            Ok cfg' = Ok (config c) /\ Validate (config c) = Ok (config c) /\
            is_Some (serializer c) /\
            (is_Some (compressor c) <-> Compression (config c) = true) /\
            (Hierarchical (config c) = true ->
             backend c = None /\ shards c = [] /\ is_Some (l1Cache c) /\ is_Some (l2Cache c)) /\
            (Hierarchical (config c) = false ->
             is_Some (backend c) /\ l1Cache c = None /\ l2Cache c = None /\
             length (shards c) = if Distributed (config c) then shardCount c else 0%nat)).
  { intros z Hz. destruct (Hierarchical cfg') eqn:Hh.
    - unfold initHierarchicalCache. cbn [config].
      destruct (cache_New e (tierConfig (L1 cfg') cfg')) as [l1|err]; [|discriminate].
      cbn [config set_l1].
      destruct (cache_New e (tierConfig (L2 cfg') cfg')) as [l2|err]; [|discriminate].
      intros [= <-]. cbn. rewrite Hh. repeat split; eauto; try apply Hz; discriminate.
    - destruct (backends_New e (Backend cfg') cfg') as [b|err]; [|discriminate].
      destruct (Distributed cfg') eqn:Hd.
      + destruct (initSharding e _) as [c'|err] eqn:E; [|discriminate].
        intros [= <-]. pose proof (initSharding_shards e _ _ E) as [Hlen Hcfg].
        pose proof (initSharding_fields e _ _ E) as Hrest. cbn in Hrest.
        destruct Hrest as (Hb & H1 & H2 & Hs & Hz').
        rewrite Hcfg. cbn [config set_backend]. rewrite Hh, Hd.
        split; [reflexivity|]. split; [exact Hidem|]. split; [rewrite Hs; eauto|].
        split; [rewrite Hz'; exact Hz|]. split; [discriminate|]. intros _.
        split; [rewrite Hb; eauto|]. split; [exact H1|]. split; [exact H2|].
        rewrite Hlen. cbn [shards set_backend length Nat.add]. unfold shardCount.
        rewrite Hcfg. reflexivity.
      + intros [= <-]. cbn. rewrite Hh, Hd.
        repeat split; eauto; try apply Hz; discriminate. }
  destruct (Compression cfg') eqn:Hc.
  - destruct (NewCompressor (CompressionAlgorithm cfg')) as [z|err]; [|discriminate].
    apply Hgoal. split; [reflexivity | eauto].
  - apply Hgoal. split; [intros [x Hx]; discriminate | discriminate].
Qed.

End AnyClient.

Lemma New_builds_what_the_mode_needs_witness :
  let e := mkEnv 1 [] in
  exists c : MemoryClient,
    New e (shardedConfig "hash") = Ok c /\
    Distributed (config c) = true /\ length (shards c) = 3%nat /\ is_Some (backend c).
Proof.
  intros e.
  destruct (New e (shardedConfig "hash") : result MemoryClient) as [c|err] eqn:Hnew;
    [|vm_compute in Hnew; discriminate].
  exists c. split; [reflexivity|].
  destruct (New_builds_what_the_mode_needs e (shardedConfig "hash") c Hnew)
    as (Hcfg & _ & _ & _ & _ & Hshape).
  destruct (Validate (shardedConfig "hash")) as [x|] eqn:Hv; [|discriminate].
  injection Hcfg as Hconfig. vm_compute in Hv. injection Hv as Hx.
  rewrite <- Hx in Hconfig. clear Hx x.
  assert (Hd : Distributed (config c) = true) by (rewrite <- Hconfig; reflexivity).
  assert (Hh : Hierarchical (config c) = false) by (rewrite <- Hconfig; reflexivity).
  destruct (Hshape Hh) as (Hb & _ & _ & Hlen).
  split; [exact Hd|]. split; [|exact Hb].
  rewrite Hlen, Hd. unfold shardCount. rewrite <- Hconfig. reflexivity.
Defined.

(** *** The memory store behind the facade *)

(** A value stored in the memory store is read back up to its deadline. *)
Lemma store_then_read e e2 key data ttl m :
  Spec.deadline e ttl m = 0 \/ now e2 <= Spec.deadline e ttl m ->
  (Memory.Get e2 key (Memory.Set_ e key data ttl m).1).2 = Ok data.
Proof.
  intros Hd. destruct (MemoryLaws.Set_stores e key data ttl m) as [_ Hitem].
  unfold Memory.Get. rewrite Hitem, MemoryLaws.expired_mkItem.
  destruct (Z.eqb_spec (Spec.deadline e ttl m) 0) as [H0|H0]; [reflexivity|].
  destruct (Z.ltb_spec (Spec.deadline e ttl m) (now e2)); [lia | reflexivity].
Qed.

Section MemoryShards.
Context {V T1 T2 : Type}.
Context `{!Codecs V, !CacheI V T1, !CacheI V T2}.

Abbreviation ShardedClient := (CacheClient V Memory.MemoryBackend T1 T2).

Lemma getShardIndex_home (c : ShardedClient) key :
  (0 < length (shards c))%nat ->
  getShardIndex c key = Some (home c key) /\ (home c key < length (shards c))%nat.
Proof.
  intros Hn. unfold getShardIndex, home.
  destruct (Nat.eqb_spec (length (shards c)) 0); [lia|].
  destruct (Nat.eqb_spec (length (shards c)) 1) as [H1|H1]; [split; [reflexivity | lia]|].
  destruct (ShardKey_route key (length (shards c)) Hn) as [Hr Hlt].
  rewrite Hr. split; [reflexivity | exact Hlt].
Qed.

Lemma getShardIndex_none (c : ShardedClient) key :
  length (shards c) = 0%nat -> getShardIndex c key = None.
Proof. intros Hn. unfold getShardIndex. rewrite Hn. reflexivity. Qed.

Lemma home_set_shards (c : ShardedClient) l key :
  length l = length (shards c) -> home (set_shards l c) key = home c key.
Proof. intros Hl. unfold home. cbn [shards set_shards]. rewrite Hl. reflexivity. Qed.

(** X23. In distributed mode over memory shards, a [Set] that succeeds
    writes to the shard in the key's slot and leaves every other shard as
    it was. Up to the deadline the [Set] gave the entry, a [Get] of the key
    goes to the same slot and returns the value, when the codecs read back
    what they wrote; it leaves the other shards alone as well. *)
Theorem sharded_Set_then_Get e e2 key v ttl (c c1 : ShardedClient) :
  Hierarchical (config c) = false -> Distributed (config c) = true ->
  (forall data, encode c v = Some (Ok data) -> decode c data = Some (Ok v)) ->
  Set_ e key v ttl c = Some (c1, None) ->
  exists shard,
    shards c !! home c key = Some shard /\
    length (shards c1) = length (shards c) /\
    (forall j, j <> home c key -> shards c1 !! j = shards c !! j) /\
    (Spec.deadline e ttl shard = 0 \/ now e2 <= Spec.deadline e ttl shard ->
     exists c2,
       Get e2 key c1 = Some (c2, Ok v) /\
       forall j, j <> home c key -> shards c2 !! j = shards c !! j).
Proof.
  intros Hh Hd Hrt. unfold Set_, setDistributed. rewrite Hh, Hd.
  destruct (Nat.eq_dec (length (shards c)) 0%nat) as [H0|H0].
  { rewrite (getShardIndex_none c key H0). discriminate. }
  destruct (getShardIndex_home c key ltac:(lia)) as [Hi Hlt]. rewrite Hi.
  destruct (lookup_lt_is_Some_2 (shards c) (home c key) Hlt) as [shard Hs].
  rewrite Hs. cbn [mbind option_bind].
  destruct (encode c v) as [[data|err]|] eqn:Henc; cbn [mbind option_bind];
    [|discriminate..].
  cbn [backend_Set MemoryBackend_BackendI].
  destruct (Memory.Set_ e key data ttl shard) as [shard' err] eqn:Hset.
  intros [= <- ->]. exists shard. split; [reflexivity|].
  cbn [shards set_shards]. split; [apply length_insert|].
  split; [intros j Hj; apply list_lookup_insert_ne; congruence|].
  intros Hdl. unfold Get, getDistributed. cbn [config set_shards]. rewrite Hh, Hd.
  pose proof (getShardIndex_home (set_shards (<[home c key := shard']> (shards c)) c) key)
    as Hi'.
  rewrite home_set_shards in Hi' by apply length_insert.
  cbn [shards set_shards] in Hi'. rewrite length_insert in Hi'.
  rewrite (proj1 (Hi' ltac:(lia))). cbn [shards set_shards].
  rewrite list_lookup_insert_eq by exact Hlt. cbn [mbind option_bind].
  cbn [backend_Get MemoryBackend_BackendI].
  pose proof (store_then_read e e2 key data ttl shard Hdl) as Hget.
  rewrite Hset in Hget. cbn [fst] in Hget.
  destruct (Memory.Get e2 key shard') as [shard'' r]. cbn [snd] in Hget. subst r.
  match goal with
  | |- context [decode ?x data] => change (decode x data) with (decode c data)
  end.
  rewrite (Hrt data eq_refl). cbn [mbind option_bind]. eexists. split; [reflexivity|].
  intros j Hj. cbn [shards set_shards].
  rewrite !list_lookup_insert_ne by congruence. reflexivity.
Qed.

End MemoryShards.

Lemma sharded_Set_then_Get_witness :
  let e := mkEnv 1 [] in
  let e2 := mkEnv 5 [] in
  exists c c1 c2 : MemoryClient,
    New e (shardedConfig "hash") = Ok c /\
    Set_ e "user:1" "Ann" 10 c = Some (c1, None) /\
    Get e2 "user:1" c1 = Some (c2, Ok "Ann").
Proof.
  intros e e2.
  destruct (New e (shardedConfig "hash") : result MemoryClient) as [c|err] eqn:Hnew;
    [|vm_compute in Hnew; discriminate].
  destruct (Set_ e "user:1" "Ann" 10 c) as [[c1 [err|]]|] eqn:Hset;
    [vm_compute in Hnew; injection Hnew as <-; vm_compute in Hset; discriminate
    | | vm_compute in Hnew; injection Hnew as <-; vm_compute in Hset; discriminate].
  exists c, c1.
  assert (Hc : Hierarchical (config c) = false /\ Distributed (config c) = true /\
               compressor c = None /\ serializer c = Some plain).
  { vm_compute in Hnew. injection Hnew as <-. repeat split. }
  destruct Hc as (Hh & Hd & Hz & Hser).
  assert (Hrt : forall data, encode c "Ann" = Some (Ok data) -> decode c data = Some (Ok "Ann")).
  { unfold encode, decode. rewrite Hz, Hser. cbn. intros data [= <-]. reflexivity. }
  destruct (sharded_Set_then_Get e e2 "user:1" "Ann" 10 c c1 Hh Hd Hrt Hset)
    as (shard & Hs & _ & _ & Hget).
  destruct Hget as (c2 & Hget & _).
  { right. unfold Spec.deadline. cbn. lia. }
  exists c2. split; [reflexivity|]. split; [exact Hset | exact Hget].
Defined.


(** *** [SetNX] and [GetSet] on a single memory backend *)

Section MemorySingle.
Context {V T1 T2 : Type}.
Context `{!Codecs V, !CacheI V T1, !CacheI V T2}.

Abbreviation SingleClient := (CacheClient V Memory.MemoryBackend T1 T2).

Lemma set_backend_same (c : SingleClient) m : backend c = Some m -> set_backend m c = c.
Proof. destruct c. cbn. intros ->. reflexivity. Qed.

Lemma Exists_single e key (c : SingleClient) m :
  Hierarchical (config c) = false -> Distributed (config c) = false ->
  backend c = Some m ->
  Exists e key c = Some (set_backend (Memory.Exists e key m).1 c,
                         Ok (bool_decide (is_Some (Spec.live e m key)))).
Proof.
  intros Hh Hd Hb. unfold Exists. rewrite Hh, Hd, Hb. cbn [mbind option_bind].
  cbn [backend_Exists MemoryBackend_BackendI].
  unfold Memory.Exists, Spec.live.
  destruct (Memory.data m !! key) as [item|]; cbn [mbind option_bind]; [|reflexivity].
  destruct (Memory.expired e item); reflexivity.
Qed.

Lemma Exists_live e key m :
  is_Some (Spec.live e m key) -> (Memory.Exists e key m).1 = m.
Proof.
  unfold Memory.Exists, Spec.live.
  destruct (Memory.data m !! key) as [item|]; cbn [mbind option_bind]; [|reflexivity].
  destruct (Memory.expired e item); [intros [x Hx]; discriminate | reflexivity].
Qed.

Lemma Exists_absent e key m :
  Spec.live e m key = None -> Memory.data (Memory.Exists e key m).1 !! key = None.
Proof.
  unfold Memory.Exists, Spec.live.
  destruct (Memory.data m !! key) as [item|] eqn:Hk; cbn [mbind option_bind];
    [|intros _; exact Hk].
  destruct (Memory.expired e item); [|discriminate].
  intros _. cbn [fst Memory.data Memory.set_data]. apply lookup_delete_eq.
Qed.

Lemma Exists_deadline e key ttl e0 m :
  Spec.deadline e0 ttl (Memory.Exists e key m).1 = Spec.deadline e0 ttl m.
Proof.
  unfold Memory.Exists. destruct (Memory.data m !! key) as [item|]; [|reflexivity].
  destruct (Memory.expired e item); reflexivity.
Qed.

Lemma Get_deadline e key ttl e0 m :
  Spec.deadline e0 ttl (Memory.Get e key m).1 = Spec.deadline e0 ttl m.
Proof.
  unfold Memory.Get. destruct (Memory.data m !! key) as [item|]; [|reflexivity].
  destruct (Memory.expired e item); reflexivity.
Qed.

Lemma Set_single e key v ttl (c : SingleClient) m data :
  Hierarchical (config c) = false -> Distributed (config c) = false ->
  backend c = Some m -> encode c v = Some (Ok data) ->
  Set_ e key v ttl c = Some (set_backend (Memory.Set_ e key data ttl m).1 c, None).
Proof.
  intros Hh Hd Hb Henc. unfold Set_, setSingle. rewrite Hh, Hd, Henc, Hb.
  cbn [mbind option_bind backend_Set MemoryBackend_BackendI].
  destruct (Memory.Set_ e key data ttl m) as [m1 err] eqn:E.
  assert (err = None) as -> by exact (eq_sym (f_equal snd E)). reflexivity.
Qed.

Lemma Get_single e key (c : SingleClient) m :
  Hierarchical (config c) = false -> Distributed (config c) = false ->
  backend c = Some m ->
  Get e key c =
    match Spec.live e m key with
    | Some data => r ← decode c data; Some (set_backend (Memory.Get e key m).1 c, r)
    | None => Some (set_backend (Memory.Get e key m).1 c,
                    Err match Memory.data m !! key with
                        | Some _ => "key expired"
                        | None => "key not found"
                        end)
    end.
Proof.
  intros Hh Hd Hb. unfold Get, getSingle. rewrite Hh, Hd, Hb.
  cbn [mbind option_bind backend_Get MemoryBackend_BackendI].
  pose proof (MemoryLaws.Get_result e key m) as Hres.
  destruct (Memory.Get e key m) as [m1 r]. cbn [fst snd] in *. subst r.
  destruct (Spec.live e m key); reflexivity.
Qed.

(** X24. [SetNX] on a single memory backend. While the key holds a live
    entry, [SetNX] answers false and changes nothing, whatever the value.
    Otherwise it stores the encoded value as [Set] does and answers true,
    and from then on, up to the deadline of that entry, a [SetNX] of the
    key answers false; when the value cannot be encoded it returns the
    error of the encoding and the key stays absent. *)
Theorem SetNX_sets_only_an_absent_key e e2 key v ttl (c : SingleClient) m :
  Hierarchical (config c) = false -> Distributed (config c) = false ->
  backend c = Some m ->
  (is_Some (Spec.live e m key) -> SetNX e key v ttl c = Some (c, Ok false)) /\
  (Spec.live e m key = None ->
   (forall data, encode c v = Some (Ok data) ->
      exists c1 m1,
        SetNX e key v ttl c = Some (c1, Ok true) /\
        backend c1 = Some m1 /\
        Memory.data m1 !! key
          = Some (Memory.mkItem data (Spec.deadline e ttl m) (now e) 0) /\
        (Spec.deadline e ttl m = 0 \/ now e2 <= Spec.deadline e ttl m ->
         forall v2 ttl2, SetNX e2 key v2 ttl2 c1 = Some (c1, Ok false))) /\
   (forall err, encode c v = Some (Err err) ->
      exists c1 m1,
        SetNX e key v ttl c = Some (c1, Err err) /\
        backend c1 = Some m1 /\ Memory.data m1 !! key = None)).
Proof.
  intros Hh Hd Hb. pose proof (Exists_single e key c m Hh Hd Hb) as Hex.
  split; [|intros Hlive; split].
  - intros Hlive. unfold SetNX. rewrite Hex. cbn [mbind option_bind].
    rewrite bool_decide_eq_true_2 by exact Hlive.
    rewrite Exists_live by exact Hlive. rewrite set_backend_same by exact Hb. reflexivity.
  - intros data Henc. unfold SetNX. rewrite Hex. cbn [mbind option_bind].
    rewrite bool_decide_eq_false_2 by (rewrite Hlive; intros [x Hx]; discriminate).
    set (m0 := (Memory.Exists e key m).1).
    rewrite (Set_single e key v ttl (set_backend m0 c) m0 data Hh Hd eq_refl Henc).
    cbn [mbind option_bind].
    destruct (MemoryLaws.Set_stores e key data ttl m0) as [_ Hitem].
    set (m1 := (Memory.Set_ e key data ttl m0).1) in *.
    assert (Hdl : Spec.deadline e ttl m0 = Spec.deadline e ttl m)
      by apply Exists_deadline.
    rewrite Hdl in Hitem.
    exists (set_backend m1 (set_backend m0 c)), m1.
    split; [reflexivity|]. split; [reflexivity|]. split; [exact Hitem|].
    intros Hfresh v2 ttl2. unfold SetNX.
    rewrite (Exists_single e2 key (set_backend m1 (set_backend m0 c)) m1 Hh Hd eq_refl).
    assert (Hl : is_Some (Spec.live e2 m1 key)).
    { unfold Spec.live. rewrite Hitem. cbn [mbind option_bind].
      rewrite MemoryLaws.expired_mkItem.
      destruct (Z.eqb_spec (Spec.deadline e ttl m) 0) as [H0|H0]; [cbn; eauto|].
      destruct (Z.ltb_spec (Spec.deadline e ttl m) (now e2)); [lia | cbn; eauto]. }
    cbn [mbind option_bind]. rewrite bool_decide_eq_true_2 by exact Hl.
    rewrite Exists_live by exact Hl. reflexivity.
  - intros err Henc. unfold SetNX. rewrite Hex. cbn [mbind option_bind].
    rewrite bool_decide_eq_false_2 by (rewrite Hlive; intros [x Hx]; discriminate).
    set (m0 := (Memory.Exists e key m).1).
    assert (Hset : Set_ e key v ttl (set_backend m0 c) = Some (set_backend m0 c, Some err)).
    { unfold Set_, setSingle. cbn [config set_backend]. rewrite Hh, Hd.
      change (encode (set_backend m0 c) v) with (encode c v). rewrite Henc. reflexivity. }
    rewrite Hset. cbn [mbind option_bind].
    exists (set_backend m0 c), m0. split; [reflexivity|]. split; [reflexivity|].
    apply Exists_absent, Hlive.
Qed.

(** X25. [GetSet] on a single memory backend, with a value that encodes:
    it returns the value the codecs read out of the key's live entry,
    nothing when there is no live entry or it cannot be read, and stores
    the new value with the default TTL of the store. Up to the deadline of
    the new entry, the next [GetSet] returns the value just stored, when
    the codecs read back what they wrote. *)
Theorem GetSet_returns_the_value_it_replaces e e2 key v (c : SingleClient) m data :
  Hierarchical (config c) = false -> Distributed (config c) = false ->
  backend c = Some m -> encode c v = Some (Ok data) ->
  exists c1 m1,
    GetSet e key v c = Some (c1, Ok (Spec.live e m key ≫= decoded c)) /\
    backend c1 = Some m1 /\
    Memory.data m1 !! key = Some (Memory.mkItem data (Spec.deadline e 0 m) (now e) 0) /\
    (decode c data = Some (Ok v) ->
     Spec.deadline e 0 m = 0 \/ now e2 <= Spec.deadline e 0 m ->
     forall v2 data2, encode c v2 = Some (Ok data2) ->
       exists c2, GetSet e2 key v2 c1 = Some (c2, Ok (Some v))).
Proof.
  intros Hh Hd Hb Henc.
  assert (Hser : is_Some (serializer c)).
  { unfold encode in Henc. destruct (serializer c); [eauto | discriminate]. }
  assert (Hdec : forall d, is_Some (decode c d)).
  { intros d. unfold decode. destruct Hser as [ser ->].
    destruct (compressor c) as [z|]; [destruct (Decompress z d)|];
      cbn; try destruct (Deserialize ser _); eauto. }
  assert (Hstep : forall e0 (c0 : SingleClient) m0 w d,
            Hierarchical (config c0) = false -> Distributed (config c0) = false ->
            backend c0 = Some m0 -> encode c0 w = Some (Ok d) ->
            (forall x, is_Some (decode c0 x)) ->
            GetSet e0 key w c0
            = Some (set_backend (Memory.Set_ e0 key d 0 (Memory.Get e0 key m0).1).1 c0,
                    Ok (Spec.live e0 m0 key ≫= decoded c0))).
  { intros e0 c0 m0 w d Hh0 Hd0 Hb0 Henc0 Hdec0. unfold GetSet.
    rewrite (Get_single e0 key c0 m0 Hh0 Hd0 Hb0).
    set (mg := (Memory.Get e0 key m0).1).
    pose proof (Set_single e0 key w 0 (set_backend mg c0) mg d Hh0 Hd0 eq_refl Henc0) as Hset.
    destruct (Spec.live e0 m0 key) as [old|]; cbn [mbind option_bind].
    - unfold decoded. destruct (Hdec0 old) as [r Hr]. rewrite Hr. cbn [mbind option_bind].
      rewrite Hset. cbn [mbind option_bind]. destruct r; reflexivity.
    - rewrite Hset. reflexivity. }
  rewrite (Hstep e c m v data Hh Hd Hb Henc Hdec).
  set (mg := (Memory.Get e key m).1).
  destruct (MemoryLaws.Set_stores e key data 0 mg) as [_ Hitem].
  set (m1 := (Memory.Set_ e key data 0 mg).1) in *.
  assert (Hdl : Spec.deadline e 0 mg = Spec.deadline e 0 m) by apply Get_deadline.
  rewrite Hdl in Hitem.
  exists (set_backend m1 c), m1. split; [reflexivity|]. split; [reflexivity|].
  split; [exact Hitem|]. intros Hrt Hfresh v2 data2 Henc2.
  rewrite (Hstep e2 (set_backend m1 c) m1 v2 data2 Hh Hd eq_refl Henc2 Hdec).
  eexists. f_equal. f_equal. f_equal.
  unfold Spec.live. rewrite Hitem. cbn [mbind option_bind].
  rewrite MemoryLaws.expired_mkItem.
  assert (Hx : negb (Spec.deadline e 0 m =? 0) && (Spec.deadline e 0 m <? now e2) = false).
  { destruct (Z.eqb_spec (Spec.deadline e 0 m) 0) as [H0|H0]; [reflexivity|].
    destruct (Z.ltb_spec (Spec.deadline e 0 m) (now e2)); [lia | reflexivity]. }
  rewrite Hx. cbn [Memory.value mbind option_bind]. unfold decoded.
  change (decode (set_backend m1 c) data) with (decode c data). rewrite Hrt. reflexivity.
Qed.

End MemorySingle.

Lemma SetNX_sets_only_an_absent_key_witness :
  let e := mkEnv 1 [] in
  let c := memory_client plain (fresh_store (Memory.mkConfig "" 0 "lru" 0 0)) in
  exists c1,
    SetNX e "lock" "a" 0 c = Some (c1, Ok true) /\
    SetNX e "lock" "b" 0 c1 = Some (c1, Ok false).
Proof.
  intros e c.
  destruct (SetNX_sets_only_an_absent_key e e "lock" "a" 0 c
              (fresh_store (Memory.mkConfig "" 0 "lru" 0 0)) eq_refl eq_refl eq_refl)
    as [_ Habsent].
  destruct (Habsent eq_refl) as [Hset _].
  destruct (Hset "a" eq_refl) as (c1 & m1 & H1 & _ & _ & H2).
  exists c1. split; [exact H1|]. apply H2. left. reflexivity.
Defined.

Lemma GetSet_returns_the_value_it_replaces_witness :
  let e := mkEnv 1 [] in
  let c := memory_client plain (fresh_store (Memory.mkConfig "" 0 "lru" 0 0)) in
  exists c1 c2,
    GetSet e "k" "a" c = Some (c1, Ok None) /\
    GetSet e "k" "b" c1 = Some (c2, Ok (Some "a")).
Proof.
  intros e c.
  destruct (GetSet_returns_the_value_it_replaces e e "k" "a" c
              (fresh_store (Memory.mkConfig "" 0 "lru" 0 0)) "a"
              eq_refl eq_refl eq_refl eq_refl)
    as (c1 & m1 & H1 & _ & _ & H2).
  destruct (H2 eq_refl (or_introl eq_refl) "b" "b" eq_refl) as [c2 Hc2].
  exists c1, c2. split; [exact H1 | exact Hc2].
Defined.



(** *** Two tiers *)

Section MemoryFirstTier.
Context {V B T2 : Type}.
Context `{!Codecs V, !BackendI B, !CacheI V T2}.

Abbreviation FirstTier := (CacheClient V Memory.MemoryBackend Empty_set Empty_set).
Abbreviation TwoTiers := (CacheClient V B FirstTier T2).

(** X26. In hierarchical mode with a memory-backed L1, after a [Set] that
    succeeded and up to the deadline of its TTL, a [Get] of the key is
    answered by L1 with the value written, whatever L2 holds by then, and
    leaves L2 as it is. [Increment] and [Decrement] go to L2 alone and
    return its answer; L1 is left as it is, so a [Get] after them still
    returns the value the [Set] wrote. *)
Theorem L1_keeps_serving_what_Set_wrote e e1 e2 key v ttl delta
    (c c1 : TwoTiers) (l1 : FirstTier) m :
  Hierarchical (config c) = true ->
  l1Cache c = Some l1 ->
  Hierarchical (config l1) = false -> Distributed (config l1) = false ->
  backend l1 = Some m ->
  (forall data, encode l1 v = Some (Ok data) -> decode l1 data = Some (Ok v)) ->
  0 < ttl -> now e2 <= now e + ttl ->
  Set_ e key v ttl c = Some (c1, None) ->
  (forall l2x, exists c2,
     Get e2 key (set_l2 l2x c1) = Some (c2, Ok v) /\ l2Cache c2 = Some l2x) /\
  (forall l2 l2' r,
     l2Cache c1 = Some l2 ->
     (cache_Increment e1 key delta l2 = Some (l2', r) ->
      Increment e1 key delta c1 = Some (set_l2 l2' c1, r)) /\
     (cache_Decrement e1 key delta l2 = Some (l2', r) ->
      Decrement e1 key delta c1 = Some (set_l2 l2' c1, r))).
Proof.
  intros Hh H1 Hh1 Hd1 Hb Hrt Httl Hnow. unfold Set_ at 1, setHierarchical.
  rewrite Hh, H1. cbn [mbind option_bind cache_Set CacheClient_CacheI].
  destruct (Set_ e key v ttl l1) as [[l1' [err1|]]|] eqn:Hset1;
    cbn [mbind option_bind]; [discriminate | | discriminate].
  cbn [l2Cache set_l1].
  destruct (l2Cache c) as [l2|]; cbn [mbind option_bind]; [|discriminate].
  destruct (cache_Set e key v ttl l2) as [[l2' [err2|]]|];
    cbn [mbind option_bind]; [discriminate | | discriminate].
  intros [= <-].
  destruct (memory_Set_then_Get e e2 key v ttl l1 m l1' Hh1 Hd1 Hb Hrt Httl Hnow Hset1)
    as [_ [l1'' Hget]].
  split.
  - intros l2x. unfold Get at 1, getHierarchical. cbn [config set_l1 set_l2 l1Cache].
    rewrite Hh. cbn [mbind option_bind cache_Get CacheClient_CacheI]. rewrite Hget.
    cbn [mbind option_bind]. eexists. split; reflexivity.
  - intros l2a l2b r Hl2. cbn [l2Cache set_l2] in Hl2. injection Hl2 as <-.
    unfold Increment, Decrement. cbn [config set_l1 set_l2 l2Cache]. rewrite Hh.
    cbn [mbind option_bind].
    split; intros ->; reflexivity.
Qed.

End MemoryFirstTier.

Lemma L1_keeps_serving_what_Set_wrote_witness :
  let e := mkEnv 3 [] in
  let c := tiered_client plain in
  exists c1 c2 c3,
    Set_ e "x" "1" 10 c = Some (c1, None) /\
    Increment e "x" 1 c1 = Some (c2, Ok 2) /\
    Get e "x" c2 = Some (c3, Ok "1").
Proof.
  intros e c.
  destruct (Set_ e "x" "1" 10 c) as [[c1 [err|]]|] eqn:Hset;
    [vm_compute in Hset; discriminate | | vm_compute in Hset; discriminate].
  destruct (l1Cache c) as [l1|] eqn:Hl1; [|discriminate].
  destruct (backend l1) as [m|] eqn:Hm;
    [|vm_compute in Hl1; injection Hl1 as <-; discriminate].
  assert (Hl1' : l1 = memory_client plain (fresh_store (Memory.mkConfig "" 0 "lru" 0 0)))
    by (vm_compute in Hl1; injection Hl1 as <-; reflexivity).
  assert (Hrt : forall data, encode l1 "1" = Some (Ok data) -> decode l1 data = Some (Ok "1")).
  { rewrite Hl1'. intros data [= <-]. reflexivity. }
  destruct (L1_keeps_serving_what_Set_wrote e e e "x" "1" 10 1 c c1 l1 m
              eq_refl Hl1 ltac:(rewrite Hl1'; reflexivity) ltac:(rewrite Hl1'; reflexivity)
              Hm Hrt ltac:(lia) ltac:(cbn; lia) Hset)
    as [Hserve Hcount].
  destruct (l2Cache c1) as [l2|] eqn:Hl2;
    [|vm_compute in Hset; injection Hset as <-; discriminate].
  destruct (cache_Increment e "x" 1 l2) as [[l2' r]|] eqn:Hinc;
    [|vm_compute in Hset; injection Hset as <-; vm_compute in Hl2; injection Hl2 as <-;
      vm_compute in Hinc; discriminate].
  destruct (Hcount l2 l2' r Hl2) as [Hi _].
  destruct (Hserve l2') as (c3 & Hget & _).
  exists c1, (set_l2 l2' c1), c3.
  split; [reflexivity|]. split; [|exact Hget].
  refine (eq_trans (Hi Hinc) _). f_equal. f_equal.
  vm_compute in Hset. injection Hset as <-. vm_compute in Hl2. injection Hl2 as <-.
  vm_compute in Hinc. injection Hinc as _ <-. reflexivity.
Defined.


(** *** Statistics *)

Lemma int64_add_wrapped a b : int64 (int64 a + b) = int64 (a + b).
Proof.
  unfold int64.
  replace ((a + 2 ^ 63) mod 2 ^ 64 - 2 ^ 63 + b + 2 ^ 63)
    with ((a + 2 ^ 63) mod 2 ^ 64 + b) by ring.
  rewrite Zplus_mod_idemp_l. f_equal. f_equal. ring.
Qed.

Lemma int64_wrapped a : int64 (int64 a) = int64 a.
Proof. pose proof (int64_add_wrapped a 0) as H. rewrite !Z.add_0_r in H. exact H. Qed.

Section Shards.
Context {V B T1 T2 : Type}.
Context `{!Codecs V, !BackendI B, !BackendBatchI B, !CacheI V T1, !CacheI V T2}.
Context `{!CacheStatsI T1, !CacheStatsI T2}.

Lemma statsDistributed_loop_shards e (todo : list B) : forall acc,
  (statsDistributed_loop e todo acc).1 = (fun shard => (backend_Stats e shard).1) <$> todo.
Proof.
  induction todo as [|shard rest IH]; intros acc; cbn [statsDistributed_loop fmap list_fmap];
    [reflexivity|].
  destruct (backend_Stats e shard) as [shard' r]. cbn [fst].
  specialize (IH match r with
                 | Ok shardStats => add_shard_stats acc shardStats
                 | Err _ => acc
                 end).
  destruct (statsDistributed_loop e rest _) as [rest' combined]. cbn [fst] in *.
  rewrite IH. reflexivity.
Qed.

(** A counter of the combined statistics is the wrapped sum of the
    counter over the shards that answer. *)
Lemma statsDistributed_loop_counter e (F : Facade.Stats -> Z) (f : Memory.Stats -> Z) :
  (forall acc st, F (add_shard_stats acc st) = int64 (F acc + f st)) ->
  forall (todo : list B) acc,
    int64 (F acc) = F acc ->
    F (statsDistributed_loop e todo acc).2 = int64 (F acc + total f (answers e todo)).
Proof.
  intros HF. induction todo as [|shard rest IH]; intros acc Hacc;
    cbn [statsDistributed_loop].
  - cbn. rewrite Z.add_0_r. symmetry. exact Hacc.
  - unfold answers. cbn [omap list_omap]. fold (answers e rest).
    destruct (backend_Stats e shard) as [shard' [st|err]]; cbn [snd].
    + specialize (IH (add_shard_stats acc st)).
      destruct (statsDistributed_loop e rest _) as [rest' combined]. cbn [snd] in *.
      rewrite IH by (rewrite HF; apply int64_wrapped).
      rewrite HF, int64_add_wrapped. cbn [total foldr]. f_equal. unfold total. lia.
    + specialize (IH acc Hacc).
      destruct (statsDistributed_loop e rest _) as [rest' combined]. cbn [snd] in *.
      exact IH.
Qed.

Lemma statsDistributed_loop_uptime e : forall (todo : list B) acc,
  0 <= Uptime acc ->
  Uptime (statsDistributed_loop e todo acc).2
  = Z.max (Uptime acc) (longest (answers e todo)).
Proof.
  induction todo as [|shard rest IH]; intros acc Hacc; cbn [statsDistributed_loop].
  - cbn. lia.
  - unfold answers. cbn [omap list_omap]. fold (answers e rest).
    destruct (backend_Stats e shard) as [shard' [st|err]]; cbn [snd].
    + specialize (IH (add_shard_stats acc st)).
      destruct (statsDistributed_loop e rest _) as [rest' combined]. cbn [snd] in *.
      assert (Hup : Uptime (add_shard_stats acc st) = Z.max (Uptime acc) (Memory.Uptime st)).
      { cbn [add_shard_stats Uptime].
        destruct (Z.ltb_spec (Uptime acc) (Memory.Uptime st)); lia. }
      rewrite IH by lia. rewrite Hup. cbn [longest foldr]. unfold longest. lia.
    + specialize (IH acc Hacc).
      destruct (statsDistributed_loop e rest _) as [rest' combined]. cbn [snd] in *.
      exact IH.
Qed.

(** X27. The statistics of a sharded client always come back: a shard
    whose [Stats] fails is left out without an error. Each counter, the key
    count and the memory usage are the sums over the shards that answered,
    wrapped to [int64], and the uptime is the longest of theirs (zero when
    none is positive). Each shard is left as its [Stats] call leaves it. *)
Theorem statsDistributed_adds_up_the_shards_that_answer e (c : CacheClient V B T1 T2) :
  let l := answers e (shards c) in
  exists st,
    statsDistributed e c
    = Some (set_shards ((fun shard => (backend_Stats e shard).1) <$> shards c) c, Ok st) /\
    Hits st = int64 (total Memory.Hits l) /\
    Misses st = int64 (total Memory.Misses l) /\
    Sets st = int64 (total Memory.Sets l) /\
    Deletes st = int64 (total Memory.Deletes l) /\
    Evictions st = int64 (total Memory.Evictions l) /\
    KeyCount st = int64 (total Memory.KeyCount l) /\
    MemoryUsage st = int64 (total Memory.MemoryUsage l) /\
    Uptime st = longest l.
Proof.
  intros l. unfold statsDistributed.
  set (zero := mkCacheStats 0 0 0 0 0 0 0 0).
  pose proof (statsDistributed_loop_shards e (shards c) zero) as Hshards.
  pose proof (fun F f HF H0 => statsDistributed_loop_counter e F f HF (shards c) zero H0)
    as Hsum.
  pose proof (statsDistributed_loop_uptime e (shards c) zero ltac:(cbn; lia)) as Hup.
  destruct (statsDistributed_loop e (shards c) zero) as [shards' st]. cbn [fst snd] in *.
  exists st. subst shards'. split; [reflexivity|]. fold l in Hup.
  split; [exact (Hsum Hits Memory.Hits (fun _ _ => eq_refl) eq_refl)|].
  split; [exact (Hsum Misses Memory.Misses (fun _ _ => eq_refl) eq_refl)|].
  split; [exact (Hsum Sets Memory.Sets (fun _ _ => eq_refl) eq_refl)|].
  split; [exact (Hsum Deletes Memory.Deletes (fun _ _ => eq_refl) eq_refl)|].
  split; [exact (Hsum Evictions Memory.Evictions (fun _ _ => eq_refl) eq_refl)|].
  split; [exact (Hsum KeyCount Memory.KeyCount (fun _ _ => eq_refl) eq_refl)|].
  split; [exact (Hsum MemoryUsage Memory.MemoryUsage (fun _ _ => eq_refl) eq_refl)|].
  rewrite Hup. cbn [Uptime zero].
  assert (Hpos : forall l' : list Memory.Stats, 0 <= longest l')
    by (induction l' as [|x l' IH]; unfold longest in *; cbn [foldr]; lia).
  specialize (Hpos l). lia.
Qed.

End Shards.


(** *** Batches on a single memory backend *)

Section MemoryBatch.
Context {V T1 T2 : Type}.
Context `{!Codecs V, !CacheI V T1, !CacheI V T2, !CacheStatsI T1, !CacheStatsI T2}.

Abbreviation BatchClient := (CacheClient V Memory.MemoryBackend T1 T2).

Lemma serialize_all_lookup ser (l : list (string * V)) : forall acc,
  NoDup l.*1 ->
  (forall kv, kv ∈ l -> is_Some (written ser kv.2)) ->
  exists sm,
    serialize_all (Some ser) l acc = Some (Ok sm) /\
    forall k, sm !! k = match list_find (fun kv => kv.1 = k) l with
                        | Some (_, (_, v)) => written ser v
                        | None => acc !! k
                        end.
Proof.
  induction l as [|[key v] rest IH]; intros acc Hnd Hall.
  - exists acc. split; reflexivity.
  - cbn [serialize_all mbind option_bind].
    destruct (Hall (key, v) ltac:(left)) as [d Hd]. cbn [snd] in Hd.
    assert (Hser : Serialize ser v = Ok d).
    { unfold written in Hd. destruct (Serialize ser v); congruence. }
    rewrite Hser. apply NoDup_cons in Hnd as [Hkey Hnd].
    destruct (IH (<[key := d]> acc) Hnd ltac:(intros kv Hkv; apply Hall; right; exact Hkv))
      as (sm & Hsm & Hlook).
    exists sm. split; [exact Hsm|]. intros k. rewrite Hlook. cbn [list_find]. cbn [fst].
    destruct (decide (key = k)) as [->|Hne].
    + destruct (list_find _ rest) as [[i [k' v']]|] eqn:Hf.
      * exfalso. apply list_find_Some in Hf as (Hi & Hk' & _). cbn in Hk'. subst k'.
        apply Hkey. apply list_elem_of_fmap. exists (k, v'). split; [reflexivity|].
        eapply list_elem_of_lookup_2, Hi.
      * cbn. rewrite lookup_insert_eq. unfold written. rewrite Hser. reflexivity.
    + destruct (list_find _ rest) as [[i [k' v']]|] eqn:Hf; cbn; [reflexivity|].
      apply lookup_insert_ne. exact Hne.
Qed.

(** X28. The batch operations on a single memory backend without limits
    round-trip through the serializer alone. When the serializer writes
    every value of a map and reads it back, [SetMulti] succeeds, and up to
    the deadline of its TTL a [GetMulti] returns, for each requested key of
    the map, the value of the map; for a requested key outside the map it
    returns what the serializer reads out of the key's live entry, and
    nothing else. The compressor takes no part in either. *)
Theorem SetMulti_then_GetMulti e e2 items ttl keys (c : BatchClient) m ser :
  Hierarchical (config c) = false -> Distributed (config c) = false ->
  backend c = Some m -> serializer c = Some ser ->
  (forall k v, items !! k = Some v ->
     exists d, Serialize ser v = Ok d /\ Deserialize ser d = Ok v) ->
  Spec.unlimited m -> Memory.order_covers e items ->
  Spec.deadline e ttl m = 0 \/ now e2 <= Spec.deadline e ttl m ->
  exists c1 c2 res,
    SetMulti e items ttl c = Some (c1, None) /\
    GetMulti e2 keys c1 = Some (c2, Ok res) /\
    forall k, res !! k =
      if decide (k ∈ keys)
      then match items !! k with
           | Some v => Some v
           | None => Spec.live e2 m k ≫= readable ser
           end
      else None.
Proof.
  intros Hh Hd Hb Hser Hrt Hu Hcov Hfresh.
  destruct (MemoryProps.range_spec e items (proj1 Hcov)) as [Hnd Hin].
  destruct (serialize_all_lookup ser (Memory.range e items) ∅ Hnd) as (sm & Hsm & Hlook).
  { intros [k v] Hkv. cbn [snd]. destruct (Hrt k v (Hin k v Hkv)) as (d & Hd1 & _).
    unfold written. rewrite Hd1. eauto. }
  assert (Hsmk : forall k, sm !! k = items !! k ≫= written ser).
  { intros k. rewrite Hlook. pose proof (MemoryLaws.range_lookup e items k Hcov) as Hl.
    destruct (list_find _ (Memory.range e items)) as [[i [k' v']]|]; cbn in Hl;
      rewrite <- Hl; reflexivity. }
  assert (Hcov' : Memory.order_covers e sm).
  { split; [exact (proj1 Hcov)|]. intros k [d Hk]. apply (proj2 Hcov).
    rewrite Hsmk in Hk. destruct (items !! k); [eauto | discriminate]. }
  destruct (MemoryProps.range_spec e sm (proj1 Hcov')) as [Hnd' _].
  destruct (MemoryLaws.SetMulti_loop_unlimited e ttl (Memory.range e sm) m Hu Hnd')
    as [Hnone Hdata].
  assert (Hstored : forall k,
            Memory.data (Memory.SetMulti e sm ttl m).1 !! k =
              match sm !! k with
              | Some d => Some (Memory.mkItem d (Spec.deadline e ttl m) (now e) 0)
              | None => Memory.data m !! k
              end).
  { intros k. unfold Memory.SetMulti. rewrite Hdata.
    pose proof (MemoryLaws.range_lookup e sm k Hcov') as Hl.
    destruct (list_find _ (Memory.range e sm)) as [[i [k' v']]|]; cbn in Hl;
      rewrite <- Hl; reflexivity. }
  set (m1 := (Memory.SetMulti e sm ttl m).1) in *.
  assert (Hset : SetMulti e items ttl c = Some (set_backend m1 c, None)).
  { unfold SetMulti. rewrite Hh, Hd, Hser, Hsm, Hb. cbn [orb mbind option_bind].
    cbn [backend_SetMulti MemoryBackend_BackendBatchI].
    subst m1. unfold Memory.SetMulti in *.
    destruct (Memory.SetMulti_loop e (Memory.range e sm) ttl m) as [mx err].
    cbn [snd] in Hnone. subst err. reflexivity. }
  assert (Hlive : forall k,
            Spec.live e2 m1 k = match sm !! k with
                                | Some d => Some d
                                | None => Spec.live e2 m k
                                end).
  { intros k. unfold Spec.live. rewrite Hstored. destruct (sm !! k) as [d|]; [|reflexivity].
    cbn [mbind option_bind]. rewrite MemoryLaws.expired_mkItem.
    destruct (Z.eqb_spec (Spec.deadline e ttl m) 0) as [H0|H0]; [reflexivity|].
    destruct (Z.ltb_spec (Spec.deadline e ttl m) (now e2)); [lia | reflexivity]. }
  pose proof (MemoryLaws.GetMulti_fold e2 keys m1 ∅) as Hraw. cbn zeta in Hraw.
  exists (set_backend m1 c). rewrite Hset.
  unfold GetMulti. cbn [config set_backend backend serializer]. rewrite Hh, Hd, Hser.
  cbn [orb mbind option_bind backend_GetMulti MemoryBackend_BackendBatchI].
  unfold Memory.GetMulti.
  destruct (fold_left _ keys (m1, ∅)) as [m2 raw]. cbn [snd] in Hraw.
  eexists _, _. split; [reflexivity|]. split; [reflexivity|].
  intros k. unfold deserialize_all. rewrite lookup_omap, Hraw, Hlive, Hsmk.
  destruct (decide (k ∈ keys)); [|rewrite lookup_empty; reflexivity].
  destruct (items !! k) as [v|] eqn:Hk; cbn [mbind option_bind].
  - destruct (Hrt k v Hk) as (d & Hd1 & Hd2). unfold written. rewrite Hd1.
    cbn [mbind option_bind]. rewrite Hd2. reflexivity.
  - destruct (Spec.live e2 m k); [reflexivity | rewrite lookup_empty; reflexivity].
Qed.

(** X29. [GetMulti] on a single memory backend reads the stored bytes with
    the serializer alone, where [Get] decompresses them first. After a
    [Set] that stored the encoded value, and up to the deadline of its TTL,
    [Get] returns what the codecs decode from the stored bytes, and
    [GetMulti] holds under the key what the serializer reads out of the
    same bytes as they are, or nothing when it cannot read them. Without a
    compressor the two agree. *)
Theorem GetMulti_reads_what_Set_stored_without_decompressing
    e e2 key v ttl keys (c : BatchClient) m ser data :
  Hierarchical (config c) = false -> Distributed (config c) = false ->
  backend c = Some m -> serializer c = Some ser ->
  encode c v = Some (Ok data) ->
  Spec.deadline e ttl m = 0 \/ now e2 <= Spec.deadline e ttl m ->
  key ∈ keys ->
  exists c1,
    Set_ e key v ttl c = Some (c1, None) /\
    (exists c2 r, Get e2 key c1 = Some (c2, r) /\ decode c data = Some r) /\
    (exists c2 res,
       GetMulti e2 keys c1 = Some (c2, Ok res) /\ res !! key = readable ser data) /\
    (compressor c = None -> decoded c data = readable ser data).
Proof.
  intros Hh Hd Hb Hser Henc Hfresh Hkey.
  set (m1 := (Memory.Set_ e key data ttl m).1).
  exists (set_backend m1 c). split; [apply Set_single; assumption|].
  assert (Hlive : Spec.live e2 m1 key = Some data).
  { destruct (MemoryLaws.Set_stores e key data ttl m) as [_ Hitem]. fold m1 in Hitem.
    unfold Spec.live. rewrite Hitem. cbn [mbind option_bind].
    rewrite MemoryLaws.expired_mkItem.
    destruct (Z.eqb_spec (Spec.deadline e ttl m) 0) as [H0|H0]; [reflexivity|].
    destruct (Z.ltb_spec (Spec.deadline e ttl m) (now e2)); [lia | reflexivity]. }
  split; [|split].
  - rewrite (Get_single e2 key (set_backend m1 c) m1 Hh Hd eq_refl), Hlive.
    change (decode (set_backend m1 c) data) with (decode c data).
    assert (Hdec : is_Some (decode c data)).
    { unfold decode. rewrite Hser.
      destruct (compressor c) as [z|]; [destruct (Decompress z data)|];
        cbn; try destruct (Deserialize ser _); eauto. }
    destruct Hdec as [r Hr]. rewrite Hr. cbn [mbind option_bind]. eauto.
  - pose proof (MemoryLaws.GetMulti_fold e2 keys m1 ∅) as Hraw. cbn zeta in Hraw.
    unfold GetMulti. cbn [config set_backend backend serializer]. rewrite Hh, Hd, Hser.
    cbn [orb mbind option_bind backend_GetMulti MemoryBackend_BackendBatchI].
    unfold Memory.GetMulti.
    destruct (fold_left _ keys (m1, ∅)) as [m2 raw]. cbn [snd] in Hraw.
    eexists _, _. split; [reflexivity|].
    unfold deserialize_all. rewrite lookup_omap, Hraw, Hlive.
    rewrite decide_True by exact Hkey. reflexivity.
  - intros Hz. unfold decoded, decode, readable. rewrite Hz, Hser.
    cbn [mbind option_bind]. destruct (Deserialize ser data); reflexivity.
Qed.

End MemoryBatch.


Lemma SetMulti_then_GetMulti_witness :
  let e := mkEnv 1 ["a"; "b"] in
  let c := memory_client plain (fresh_store (Memory.mkConfig "" 0 "lru" 0 0)) in
  let items : gmap string string := <["a" := "1"]> (<["b" := "2"]> ∅) in
  exists c1 c2 res,
    SetMulti e items 0 c = Some (c1, None) /\
    GetMulti e ["b"; "z"] c1 = Some (c2, Ok res) /\
    res !! "b" = Some "2" /\ res !! "a" = None /\ res !! "z" = None.
Proof.
  intros e c items.
  assert (Hu : Spec.unlimited (fresh_store (Memory.mkConfig "" 0 "lru" 0 0)))
    by (split; vm_compute; discriminate).
  assert (Hcov : Memory.order_covers e items)
    by (apply MemoryLaws.order_covers_keys; MemoryLaws.by_compute).
  destruct (SetMulti_then_GetMulti e e items 0 ["b"; "z"] c _ plain
              eq_refl eq_refl eq_refl eq_refl
              ltac:(intros k v _; exists v; split; reflexivity) Hu Hcov
              (or_introl eq_refl))
    as (c1 & c2 & res & H1 & H2 & H3).
  exists c1, c2, res. split; [exact H1|]. split; [exact H2|].
  rewrite !H3. repeat split.
Defined.

(** A compressor that doubles the text and a serializer that reads short
    texts only: [Get] returns the value, [GetMulti] leaves the key out. *)
Lemma GetMulti_reads_what_Set_stored_without_decompressing_witness :
  let e := mkEnv 1 [] in
  let halve := fun s : string => Ok (substring 0 (String.length s / 2) s) in
  let double := fun s : string => Ok (s ++ s)%string in
  let short := mkSerializer string Ok
                 (fun s => if (String.length s <=? 3)%nat then Ok s else Err "too long") in
  let m := fresh_store (Memory.mkConfig "" 0 "lru" 0 0) in
  let c : MemoryClient :=
    mkClient (Some m) (Facade.config (memory_client plain m)) [] None None (Some short)
      (Some (mkCompressor double halve)) in
  exists c1 c2 c3 res,
    Set_ e "k" "abc" 0 c = Some (c1, None) /\
    Get e "k" c1 = Some (c2, Ok "abc") /\
    GetMulti e ["k"] c1 = Some (c3, Ok res) /\ res !! "k" = None.
Proof.
  intros e halve double short m c.
  destruct (GetMulti_reads_what_Set_stored_without_decompressing
              e e "k" "abc" 0 ["k"] c m short "abcabc"
              eq_refl eq_refl eq_refl eq_refl eq_refl (or_introl eq_refl)
              ltac:(left))
    as (c1 & Hset & (c2 & r & Hget & Hr) & (c3 & res & Hmulti & Hres) & _).
  exists c1, c2, c3, res. split; [exact Hset|].
  split; [rewrite Hget; injection Hr as <-; reflexivity|].
  split; [exact Hmulti | exact Hres].
Defined.



(** *** Every shard at once *)

Section AllShards.
Context {V B T1 T2 : Type}.
Context `{!Codecs V, !BackendI B, !CacheI V T1, !CacheI V T2}.

Lemma each_shard_until_failure (f : B -> B * option string) : forall todo done,
  each_shard f done todo
  = (done ++ (until_failure f todo).1, (until_failure f todo).2).
Proof.
  unfold until_failure.
  induction todo as [|shard rest IH]; intros done; cbn [each_shard list_find].
  - cbn. rewrite app_nil_r. reflexivity.
  - destruct (f shard) as [shard' err] eqn:Hf. cbn [snd].
    destruct err as [x|].
    + rewrite decide_True by eauto. cbn [fst snd take drop fmap list_fmap].
      rewrite Hf. cbn. rewrite drop_0. reflexivity.
    + rewrite decide_False by (intros [x Hx]; discriminate).
      rewrite IH. destruct (list_find _ rest) as [[i s]|]; cbn [fmap option_fmap option_map prod_map fst snd id].
      * cbn [take drop fmap list_fmap]. rewrite Hf. cbn [fst].
        rewrite <- app_assoc. reflexivity.
      * cbn [fmap list_fmap]. rewrite Hf. cbn [fst]. rewrite <- app_assoc. reflexivity.
Qed.

Lemma close_shards_all (l : list B) :
  close_shards l = ((fun s => (backend_Close s).1) <$> l,
                    omap (fun s => (backend_Close s).2) l).
Proof.
  induction l as [|shard rest IH]; cbn [close_shards]; [reflexivity|].
  rewrite IH. destruct (backend_Close shard) as [shard' [x|]] eqn:Hc;
    cbn [fmap list_fmap omap list_omap]; rewrite Hc; reflexivity.
Qed.

(** X30. In distributed mode [Clear] and [Health] visit the shards in order
    and stop at the first one that fails: they return its error, and the
    shards after it are not visited, so that a failed [Clear] leaves them
    with their keys. [Close] goes on after an error: it closes every shard
    and then the backend of the client, and succeeds exactly when every one
    of them does. *)
Theorem Clear_and_Health_stop_at_the_first_failing_shard e (c : CacheClient V B T1 T2) :
  Hierarchical (config c) = false -> Distributed (config c) = true ->
  Clear e c = Some (set_shards (until_failure (backend_Clear e) (shards c)).1 c,
                    (until_failure (backend_Clear e) (shards c)).2) /\
  Health e c = Some (set_shards (until_failure (backend_Health e) (shards c)).1 c,
                     (until_failure (backend_Health e) (shards c)).2) /\
  exists c' err,
    Close c = Some (c', err) /\
    shards c' = (fun s => (backend_Close s).1) <$> shards c /\
    backend c' = (fun b => (backend_Close b).1) <$> backend c /\
    (err = None <->
     Forall (fun s => (backend_Close s).2 = None) (shards c) /\
     forall b, backend c = Some b -> (backend_Close b).2 = None).
Proof.
  intros Hh Hd. split; [|split].
  - unfold Clear. rewrite Hh, Hd, each_shard_until_failure. reflexivity.
  - unfold Health. rewrite Hh, Hd, each_shard_until_failure. reflexivity.
  - unfold Close. rewrite Hh. cbn [mbind option_bind]. rewrite Hd, close_shards_all.
    cbn [app backend set_shards].
    set (errs := omap (fun s => (backend_Close s).2) (shards c)).
    assert (Herrs : errs = [] <-> Forall (fun s => (backend_Close s).2 = None) (shards c)).
    { subst errs. induction (shards c) as [|s l IH]; cbn [omap list_omap].
      - split; [constructor | reflexivity].
      - destruct (backend_Close s).2 as [x|] eqn:Hs.
        + split; [discriminate | intros H; inversion H; congruence].
        + rewrite IH. split; [intros H; constructor; assumption | intros H; inversion H; assumption]. }
    destruct (backend c) as [b|] eqn:Hb.
    + destruct (backend_Close b) as [b' berr] eqn:Hcb.
      destruct (0 <? length (append_error errs berr))%nat eqn:Hlen;
        eexists _, _; (split; [reflexivity|]); cbn [shards backend set_backend set_shards];
        (split; [reflexivity|]); (split; [cbn; rewrite Hcb; reflexivity|]).
      * split; [discriminate|]. intros [Hall Hback].
        apply Herrs in Hall. specialize (Hback b eq_refl). rewrite Hcb in Hback.
        cbn in Hback. subst berr. rewrite Hall in Hlen. discriminate.
      * split; [|reflexivity]. intros _. apply Nat.ltb_ge in Hlen.
        destruct berr as [x|]; cbn [append_error] in Hlen.
        -- rewrite length_app in Hlen. cbn in Hlen. lia.
        -- split; [apply Herrs; destruct errs; [reflexivity | cbn in Hlen; lia]|].
           intros b0 [= <-]. rewrite Hcb. reflexivity.
    + destruct (0 <? length errs)%nat eqn:Hlen;
        eexists _, _; (split; [reflexivity|]); cbn [shards backend set_backend set_shards];
        (split; [reflexivity|]); (split; [rewrite Hb; reflexivity|]).
      * split; [discriminate|]. intros [Hall _]. apply Herrs in Hall.
        rewrite Hall in Hlen. discriminate.
      * split; [|reflexivity]. intros _. apply Nat.ltb_ge in Hlen.
        split; [apply Herrs; destruct errs; [reflexivity | cbn in Hlen; lia]|].
        discriminate.
Qed.

End AllShards.

Lemma Clear_and_Health_stop_at_the_first_failing_shard_witness :
  let e := mkEnv 1 [] in
  let m := (Memory.Set_ e "k" "v" 0 (fresh_store (Memory.mkConfig "" 0 "lru" 0 0))).1 in
  let c : MemoryClient := mkClient None (shardedConfig "hash") [m; m] None None (Some plain) None in
  exists c',
    Clear e c = Some (c', None) /\
    Forall (fun shard => Memory.data shard = ∅) (shards c').
Proof.
  intros e m c.
  destruct (Clear_and_Health_stop_at_the_first_failing_shard e c eq_refl eq_refl)
    as (Hclear & _).
  eexists. split; [exact Hclear|]. repeat constructor.
Defined.

End FacadeLaws.
